(** * dynatrace_api_client: token lifecycle, paginated fetch and topology
      normalisation, embedded from the Python sources

    - [Py]: the Python values the program manipulates (JSON-decoded data),
      with the builtins the sources rely on (truthiness, [dict] operations,
      [str], iteration).
    - [Main]: [main.py] (the OAuth2 client): [JwtAuthenticator], [fetch_json],
      [fetch_paginated_v1], [fetch_paginated_entities].
    - [Topology]: [main_process_topology.py] on values.
    - [Store]: [main_process_topology.py] on an object store with references,
      where in-place mutation and aliasing are explicit.
    - [MainSpec]: the token provider's expiry and reuse, the retry after an
      authentication rejection, the parameters of continuation requests and
      the aggregated result of a body-cursor fetch.
    - [TopologySpec]: relationship edges, tag labels, the two metadata
      folds, and what becomes of an entity whose processing raises.
    - [StoreSpec]: processing assigns only into objects it made itself.
    - [MainRun], [MainRunSpec]: the configuration read from the environment
      and the calls of a run of [main.py], with the files they write.
    - [MainMore]: the token on the wire, failed exchanges, errors that are
      not retried, the items of a header-cursor fetch.
    - [TopologyMore]: which entities are accepted, what a component holds,
      the shape cleaning gives, the hoisting, the counts of a run. *)

From Stdlib Require Import List String Ascii ZArith QArith Qminmax Bool Lia Arith.
From Stdlib Require Import DecimalString SpecFloat.
From Equations Require Import Equations.
From Equations.Prop Require Import Logic.
Import ListNotations.

Local Open Scope string_scope.
Local Open Scope list_scope.
Set Warnings "-register-all".

(* ================================================================== *)
(** * Python values *)
(* ================================================================== *)
Module Py.

(** A value as produced by [json.load] / [response.json()], or built by the
    program from such values.  A [dict] is kept as the list of its items in
    insertion order; keys are hashable scalars (always [PStr] in decoded
    JSON, but the program also creates dicts keyed by other scalars).
    A [float] is carried as its IEEE-754 decomposition. *)
Inductive pyval : Type :=
| PNone
| PBool (b : bool)
| PInt (z : Z)
| PFloat (f : spec_float)
| PStr (s : string)
| PList (l : list pyval)
| PDict (d : list (pyval * pyval)).

Definition pydict := list (pyval * pyval).

(** What a [RuntimeError] raised by the sources reports (its message is
    formatted from these). *)
Inductive failure : Type :=
| RequestFailed (url : string) (status : Z) (text : string)
| JsonParseFailed (url : string)
| NoAccessToken.

(** Exceptions, by class.  [ConnectionError] stands for every exception of
    [requests] raised before a response exists (time-out included);
    [RecursionError] and [SystemError] are only raised by the object store,
    on a structure nested deeper than it follows and on a reference to no
    object. *)
Inductive exn : Type :=
| TypeError
| AttributeError
| ValueError
| HTTPError (status : Z)
| RuntimeError (what : failure)
| ConnectionError
| RecursionError
| SystemError.

Inductive res (A : Type) : Type :=
| Ok (a : A)
| Raise (e : exn).
Arguments Ok {A} a.
Arguments Raise {A} e.

Definition rbind {A B} (r : res A) (k : A -> res B) : res B :=
  match r with
  | Ok a => k a
  | Raise e => Raise e
  end.

Declare Scope res_scope.
Delimit Scope res_scope with res.
Notation "x <- r ;; k" := (rbind r (fun x => k))
  (at level 61, r at next level, right associativity) : res_scope.

(** ** isinstance *)
Definition is_dict (v : pyval) : bool := match v with PDict _ => true | _ => false end.
Definition is_list (v : pyval) : bool := match v with PList _ => true | _ => false end.
Definition is_str (v : pyval) : bool := match v with PStr _ => true | _ => false end.

(** ** Truthiness ([bool(v)], [if v:], [not v]) *)
Definition float_is_zero (f : spec_float) : bool :=
  match f with S754_zero _ => true | _ => false end.

Definition truthy (v : pyval) : bool :=
  match v with
  | PNone => false
  | PBool b => b
  | PInt z => negb (z =? 0)%Z
  | PFloat f => negb (float_is_zero f)
  | PStr s => negb (String.eqb s "")
  | PList l => match l with [] => false | _ => true end
  | PDict d => match d with [] => false | _ => true end
  end.

(** [a or b] *)
Definition py_or (a b : pyval) : pyval := if truthy a then a else b.

(** ** Equality of hashable scalars ([==] as used for dict keys) *)

(** the integer [z] equals the finite float [(-1)^s * m * 2^e] *)
Definition int_eq_finite (z : Z) (s : bool) (m : positive) (e : Z) : bool :=
  let sm := if s then Z.neg m else Z.pos m in
  if (0 <=? e)%Z then (z =? sm * 2 ^ e)%Z else (z * 2 ^ (- e) =? sm)%Z.

Definition int_eq_float (z : Z) (f : spec_float) : bool :=
  match f with
  | S754_zero _ => (z =? 0)%Z
  | S754_finite s m e => int_eq_finite z s m e
  | _ => false
  end.

Definition float_eq (f g : spec_float) : bool :=
  match f, g with
  | S754_zero _, S754_zero _ => true
  | S754_infinity s, S754_infinity t => Bool.eqb s t
  | S754_finite s m e, S754_finite t n e' =>
      Bool.eqb s t &&
      (let lo := Z.min e e' in
       (Z.pos m * 2 ^ (e - lo) =? Z.pos n * 2 ^ (e' - lo))%Z)
  | _, _ => false
  end.

Definition num_of_bool (b : bool) : Z := if b then 1%Z else 0%Z.

Definition key_eqb (a b : pyval) : bool :=
  match a, b with
  | PNone, PNone => true
  | PStr s, PStr t => String.eqb s t
  | PInt x, PInt y => (x =? y)%Z
  | PInt x, PBool y | PBool y, PInt x => (x =? num_of_bool y)%Z
  | PBool x, PBool y => Bool.eqb x y
  | PInt x, PFloat f | PFloat f, PInt x => int_eq_float x f
  | PBool x, PFloat f | PFloat f, PBool x => int_eq_float (num_of_bool x) f
  | PFloat f, PFloat g => float_eq f g
  | _, _ => false
  end.

(** [hash(v)] succeeds *)
Definition hashable (v : pyval) : bool :=
  match v with PList _ | PDict _ => false | _ => true end.

(** ** dict operations *)
Fixpoint dict_get (k : pyval) (d : pydict) : option pyval :=
  match d with
  | [] => None
  | (k', v) :: d' => if key_eqb k k' then Some v else dict_get k d'
  end.

Definition dict_mem (k : pyval) (d : pydict) : bool :=
  match dict_get k d with Some _ => true | None => false end.

(** [d[k] = v]: an existing key keeps its position, a new one goes last *)
Fixpoint dict_set (k v : pyval) (d : pydict) : pydict :=
  match d with
  | [] => [(k, v)]
  | (k', v') :: d' =>
      if key_eqb k k' then (k', v) :: d' else (k', v') :: dict_set k v d'
  end.

(** [d.pop(k, None)] / [del d[k]] on a present key: the dict without [k] *)
Fixpoint dict_del (k : pyval) (d : pydict) : pydict :=
  match d with
  | [] => []
  | (k', v') :: d' =>
      if key_eqb k k' then d' else (k', v') :: dict_del k d'
  end.

(** [d.update(e)] *)
Definition dict_update (d e : pydict) : pydict :=
  fold_left (fun acc kv => dict_set (fst kv) (snd kv) acc) e d.

(** [d.get(k, default)] *)
Definition get_or (k : string) (default : pyval) (d : pydict) : pyval :=
  match dict_get (PStr k) d with Some v => v | None => default end.

(** [d.get(k)] *)
Definition get (k : string) (d : pydict) : pyval := get_or k PNone d.

(** ** Text *)
Definition str_of_Z (z : Z) : string := NilZero.string_of_int (Z.to_int z).
Definition str_of_nat (n : nat) : string := str_of_Z (Z.of_nat n).

Fixpoint chars (s : string) : list pyval :=
  match s with
  | EmptyString => []
  | String c s' => PStr (String c EmptyString) :: chars s'
  end.

(** [for x in v]: the items iterated over, or the [TypeError] of a
    non-iterable *)
Definition py_iter (v : pyval) : res (list pyval) :=
  match v with
  | PList l => Ok l
  | PDict d => Ok (map fst d)
  | PStr s => Ok (chars s)
  | _ => Raise TypeError
  end.

(** [str(v)].  The text of a float and of a container is the builtin's
    [repr], which the sources never inspect: the development is generic in
    it. *)
Class Repr := py_repr : pyval -> string.

Definition py_str {R : Repr} (v : pyval) : string :=
  match v with
  | PNone => "None"
  | PBool true => "True"
  | PBool false => "False"
  | PInt z => str_of_Z z
  | PStr s => s
  | _ => py_repr v
  end.

(** [sep.join(parts)] for parts already known to be strings *)
Fixpoint join (sep : string) (parts : list string) : string :=
  match parts with
  | [] => ""
  | [p] => p
  | p :: ps => p ++ sep ++ join sep ps
  end.

End Py.

(* ================================================================== *)
(** * main.py *)
(* ================================================================== *)
Module Main.
Import Py.
Local Open Scope string_scope.

Definition V2_ENTITIES_PATH : string := "api/v2/entities".

Record AuthSettings : Type := {
  url : string;
  client_id : string;
  client_secret : string;
  scope : option string;
  resource : option string;
  audience : option string
}.

(** ** The outside world *)

(** The decoded body of the token endpoint, as far as [_refresh_token]
    reads it: the [access_token] string and the integer [expires_in], each
    when present. *)
Record token_payload : Type := {
  access_token : option string;
  expires_in : option Z
}.

(** A response to [requests.post]: [post_json] is [None] when the body
    does not decode. *)
Record post_response : Type := {
  post_status : Z;
  post_json : option token_payload
}.

(** A response to [session.get]: [json] is [None] when the body does not
    decode; [next_page_key] is the [Next-Page-Key] header. *)
Record response : Type := {
  status_code : Z;
  text : string;
  json : option pyval;
  next_page_key : option string
}.

(** What the program did to the outside world and to the authenticator,
    oldest first.  A request is recorded with what came back
    ([None]: no response). *)
Inductive event : Type :=
| EvPost (to : string) (data : list (string * string)) (reply : option post_response)
| EvGet (to : string) (params : pydict) (authorization : string) (reply : option response)
| EvInvalidate.

(** The state a run threads: the [JwtAuthenticator] object, the replies the
    network is going to give to the next requests (none left: no response),
    the readings [time.time()] is going to return, and the events so far. *)
Record state : Type := {
  auth_config : AuthSettings;
  _token : option string;
  _expiry_epoch : Q;
  gets : list (option response);
  posts : list (option post_response);
  clock : nat -> Q;
  ticks : nat;
  trace : list event
}.

Definition M (A : Type) : Type := state -> res A * state.

Definition ret {A} (a : A) : M A := fun s => (Ok a, s).
Definition raise {A} (e : exn) : M A := fun s => (Raise e, s).
Definition bind {A B} (m : M A) (k : A -> M B) : M B :=
  fun s => match m s with
           | (Ok a, s1) => k a s1
           | (Raise e, s1) => (Raise e, s1)
           end.

Declare Scope m_scope.
Delimit Scope m_scope with M.
Notation "x <- m ;; k" := (bind m (fun x => k))
  (at level 61, m at next level, right associativity) : m_scope.
Notation "m ;; k" := (bind m (fun _ => k))
  (at level 61, right associativity) : m_scope.
Local Open Scope m_scope.

Definition log (e : event) (s : state) : state :=
  {| auth_config := auth_config s; _token := _token s;
     _expiry_epoch := _expiry_epoch s; gets := gets s; posts := posts s;
     clock := clock s; ticks := ticks s; trace := (trace s ++ [e])%list |}.

Definition with_gets (g : list (option response)) (s : state) : state :=
  {| auth_config := auth_config s; _token := _token s;
     _expiry_epoch := _expiry_epoch s; gets := g; posts := posts s;
     clock := clock s; ticks := ticks s; trace := trace s |}.

Definition with_posts (p : list (option post_response)) (s : state) : state :=
  {| auth_config := auth_config s; _token := _token s;
     _expiry_epoch := _expiry_epoch s; gets := gets s; posts := p;
     clock := clock s; ticks := ticks s; trace := trace s |}.

Definition with_credential (t : option string) (e : Q) (s : state) : state :=
  {| auth_config := auth_config s; _token := t;
     _expiry_epoch := e; gets := gets s; posts := posts s;
     clock := clock s; ticks := ticks s; trace := trace s |}.

(** [time.time()] *)
Definition time : M Q :=
  fun s => (Ok (clock s (ticks s)),
            {| auth_config := auth_config s; _token := _token s;
               _expiry_epoch := _expiry_epoch s; gets := gets s; posts := posts s;
               clock := clock s; ticks := S (ticks s); trace := trace s |}).

(** [requests.post(url, data=data, timeout=30)] *)
Definition requests_post (to : string) (data : list (string * string))
    : M post_response :=
  fun s =>
    match posts s with
    | Some r :: rest => (Ok r, log (EvPost to data (Some r)) (with_posts rest s))
    | None :: rest => (Raise ConnectionError, log (EvPost to data None) (with_posts rest s))
    | [] => (Raise ConnectionError, log (EvPost to data None) s)
    end.

(** [session.get(url, params=params, headers=headers, timeout=30)] *)
Definition session_get (to : string) (params : pydict) (authorization : string)
    : M response :=
  fun s =>
    match gets s with
    | Some r :: rest =>
        (Ok r, log (EvGet to params authorization (Some r)) (with_gets rest s))
    | None :: rest =>
        (Raise ConnectionError, log (EvGet to params authorization None) (with_gets rest s))
    | [] => (Raise ConnectionError, log (EvGet to params authorization None) s)
    end.

(** [response.raise_for_status()] *)
Definition is_error_status (status : Z) : bool :=
  ((400 <=? status) && (status <? 600))%Z.


Definition raise_for_status (status : Z) : M unit :=
  if is_error_status status then raise (HTTPError status) else ret tt.

Definition get_state : M state := fun s => (Ok s, s).

(** ** JwtAuthenticator *)

(** [JwtAuthenticator(auth_config)], in a world given by its replies and
    its clock *)
Definition JwtAuthenticator (cfg : AuthSettings)
    (g : list (option response)) (p : list (option post_response))
    (clk : nat -> Q) : state :=
  {| auth_config := cfg; _token := None; _expiry_epoch := 0;
     gets := g; posts := p; clock := clk; ticks := 0; trace := [] |}.

(** truthiness of an [Optional[str]] *)
Definition present (o : option string) : bool :=
  match o with Some t => negb (String.eqb t "") | None => false end.

Definition optional_field (name : string) (o : option string)
    : list (string * string) :=
  match o with
  | Some t => if present o then [(name, t)] else []
  | None => []
  end.

Definition token_request (cfg : AuthSettings) : list (string * string) :=
  ([ ("grant_type", "client_credentials");
     ("client_id", client_id cfg);
     ("client_secret", client_secret cfg) ]
   ++ optional_field "scope" (scope cfg)
   ++ optional_field "resource" (resource cfg)
   ++ optional_field "audience" (audience cfg))%list.

Definition set_credential (t : option string) (e : Q) : M unit :=
  fun s => (Ok tt, with_credential t e s).

Definition _refresh_token : M unit :=
  cfg <- (fun s => (Ok (auth_config s), s)) ;;
  response <- requests_post (url cfg) (token_request cfg) ;;
  raise_for_status (post_status response) ;;
  payload <- match post_json response with
             | Some p => ret p
             | None => raise ValueError
             end ;;
  let token := access_token payload in
  if present token then
    let expires_in := match expires_in payload with Some e => e | None => 300%Z end in
    now <- time ;;
    set_credential token (now + inject_Z (Z.max (expires_in - 30) 30))
  else raise (RuntimeError NoAccessToken).

Definition get_token : M (option string) :=
  now <- time ;;
  s <- get_state ;;
  (if negb (present (_token s)) || Qle_bool (_expiry_epoch s) now
   then _refresh_token else ret tt) ;;
  s1 <- get_state ;;
  ret (_token s1).

Definition invalidate : M unit :=
  fun s => (Ok tt, log EvInvalidate (with_credential None 0 s)).

(** [f"Bearer {token}"] *)
Definition bearer (token : option string) : string :=
  "Bearer " ++ match token with Some t => t | None => "None" end.

(** ** fetch_json *)
Definition do_request (to : string) (params : pydict) : M response :=
  token <- get_token ;;
  session_get to params (bearer token).

Definition fetch_json (to : string) (params : pydict) : M pyval :=
  response <- do_request to params ;;
  response <- (if (status_code response =? 401)%Z
               then invalidate ;; do_request to params
               else ret response) ;;
  raise_for_status (status_code response) ;;
  match json response with
  | Some v => ret v
  | None => raise (RuntimeError (JsonParseFailed to))
  end.

(** ** fetch_paginated_v1 *)

(** how one turn of a [while True:] loop ends: with the variables for the
    next turn, or at [break] *)
Inductive turn (A B : Type) : Type :=
| Again (a : A)
| Break (b : B).
Arguments Again {A B} a.
Arguments Break {A B} b.

Record v1_vars : Type := {
  v1_aggregated_items : list pyval;
  v1_params : pydict;
  v1_headers : string
}.

Definition v1_page (to : string) (initial_params : pydict) (v : v1_vars)
    : M (turn v1_vars (list pyval)) :=
  let params := v1_params v in
  response <- session_get to params (v1_headers v) ;;
  rh <- (if (status_code response =? 401)%Z
         then invalidate ;;
              token <- get_token ;;
              let headers := bearer token in
              response <- session_get to params headers ;;
              ret (response, headers)
         else ret (response, v1_headers v)) ;;
  let response := fst rh in
  let headers := snd rh in
  (if is_error_status (status_code response)
   then raise (RuntimeError (RequestFailed to (status_code response) (text response)))
   else ret tt) ;;
  page_data <- match json response with
               | Some v => ret v
               | None => raise (RuntimeError (JsonParseFailed to))
               end ;;
  let aggregated_items :=
    match page_data with
    | PList l => (v1_aggregated_items v ++ l)%list
    | _ => (v1_aggregated_items v ++ [page_data])%list
    end in
  match next_page_key response with
  | Some key =>
      if present (Some key)
      then ret (Again {| v1_aggregated_items := aggregated_items;
                         v1_params := dict_set (PStr "nextPageKey") (PStr key) initial_params;
                         v1_headers := headers |})
      else ret (Break aggregated_items)
  | None => ret (Break aggregated_items)
  end.

(** ** fetch_paginated_entities *)
Record v2_vars : Type := {
  v2_aggregated_entities : list pyval;
  v2_meta : option pydict;
  v2_params : pydict
}.

(** [k not in ("entities", "nextPageKey")] *)
Definition is_meta_key (k : pyval) : bool :=
  negb (key_eqb k (PStr "entities") || key_eqb k (PStr "nextPageKey")).

Definition lift {A} (r : res A) : M A := fun s => (r, s).

Definition v2_page (to : string) (v : v2_vars)
    : M (turn v2_vars (list pyval * option pydict)) :=
  response <- fetch_json to (v2_params v) ;;
  match response with
  | PDict r =>
      let meta := match v2_meta v with
                  | None => Some (filter (fun kv => is_meta_key (fst kv)) r)
                  | Some m => Some m
                  end in
      page <- lift (py_iter (get_or "entities" (PList []) r)) ;;
      let aggregated_entities := (v2_aggregated_entities v ++ page)%list in
      let next_key := get "nextPageKey" r in
      if truthy next_key
      then ret (Again {| v2_aggregated_entities := aggregated_entities;
                         v2_meta := meta;
                         v2_params := [(PStr "nextPageKey", next_key)] |})
      else ret (Break (aggregated_entities, meta))
  | _ => raise AttributeError
  end.


(** ** The loops end: every turn that goes on has used up a reply *)

Lemma bind_Ok {A B} (m : M A) (k : A -> M B) s b s' :
  bind m k s = (Ok b, s') ->
  exists a s1, m s = (Ok a, s1) /\ k a s1 = (Ok b, s').
Proof.
  unfold bind. destruct (m s) as [[a|e] s1]; intros H.
  - exists a, s1. split; [reflexivity | exact H].
  - discriminate.
Qed.

(** [m] leaves no more replies to [session.get] than it found *)
Definition keeps_gets {A} (m : M A) : Prop :=
  forall s, (List.length (gets (snd (m s))) <= List.length (gets s))%nat.

Lemma keeps_ret {A} (a : A) : keeps_gets (ret a).
Proof. intros s. simpl. lia. Qed.

Lemma keeps_raise {A} e : keeps_gets (@raise A e).
Proof. intros s. simpl. lia. Qed.

Lemma keeps_bind {A B} (m : M A) (k : A -> M B) :
  keeps_gets m -> (forall a, keeps_gets (k a)) -> keeps_gets (bind m k).
Proof.
  intros Hm Hk s. unfold bind. specialize (Hm s).
  destruct (m s) as [[a|e] s1]; simpl in *.
  - specialize (Hk a s1). lia.
  - exact Hm.
Qed.

Lemma keeps_time : keeps_gets time.
Proof. intros s. simpl. lia. Qed.

Lemma keeps_get_state : keeps_gets get_state.
Proof. intros s. simpl. lia. Qed.

Lemma keeps_set_credential t e : keeps_gets (set_credential t e).
Proof. intros s. simpl. lia. Qed.

Lemma keeps_invalidate : keeps_gets invalidate.
Proof. intros s. simpl. lia. Qed.

Lemma keeps_lift {A} (r : res A) : keeps_gets (lift r).
Proof. intros s. simpl. lia. Qed.

Lemma keeps_raise_for_status z : keeps_gets (raise_for_status z).
Proof. unfold raise_for_status. destruct (is_error_status z); [apply keeps_raise | apply keeps_ret]. Qed.

Lemma keeps_requests_post to data : keeps_gets (requests_post to data).
Proof.
  intros s. unfold requests_post.
  destruct (posts s) as [|[r|] rest]; simpl; lia.
Qed.

Lemma keeps_session_get to params a : keeps_gets (session_get to params a).
Proof.
  intros s. unfold session_get.
  destruct (gets s) as [|[r|] rest] eqn:E; simpl; rewrite ?E; simpl; lia.
Qed.

Lemma session_get_Ok to params a s r s' :
  session_get to params a s = (Ok r, s') ->
  (List.length (gets s') < List.length (gets s))%nat.
Proof.
  unfold session_get.
  destruct (gets s) as [|[r0|] rest] eqn:E; intros H; inversion H; subst; simpl.
  lia.
Qed.

Create HintDb keeps.
#[local] Hint Resolve keeps_ret keeps_raise keeps_time keeps_get_state
  keeps_set_credential keeps_invalidate keeps_lift keeps_raise_for_status
  keeps_requests_post keeps_session_get : keeps.

Ltac keeps :=
  repeat first
    [ solve [ auto with keeps ]
    | progress cbv zeta
    | apply keeps_bind; [| intros ? ]
    | match goal with
      | |- keeps_gets (if ?b then _ else _) => destruct b
      | |- keeps_gets (match ?o with Some _ => _ | None => _ end) => destruct o
      end ].

Lemma keeps_refresh_token : keeps_gets _refresh_token.
Proof. unfold _refresh_token. keeps. Qed.

#[local] Hint Resolve keeps_refresh_token : keeps.

Lemma keeps_get_token : keeps_gets get_token.
Proof. unfold get_token. keeps. Qed.
#[local] Hint Resolve keeps_get_token : keeps.

Lemma keeps_do_request to params : keeps_gets (do_request to params).
Proof. unfold do_request. keeps. Qed.
#[local] Hint Resolve keeps_do_request : keeps.

Lemma do_request_Ok to params s r s' :
  do_request to params s = (Ok r, s') ->
  (List.length (gets s') < List.length (gets s))%nat.
Proof.
  unfold do_request. intros H.
  apply bind_Ok in H as (tok & s1 & H1 & H2).
  apply session_get_Ok in H2.
  pose proof (keeps_get_token s) as K. rewrite H1 in K. simpl in K. lia.
Qed.

Lemma fetch_json_Ok to params s v s' :
  fetch_json to params s = (Ok v, s') ->
  (List.length (gets s') < List.length (gets s))%nat.
Proof.
  unfold fetch_json. intros H.
  apply bind_Ok in H as (r & s1 & H1 & H2).
  apply do_request_Ok in H1.
  match type of H2 with bind ?m ?k s1 = _ =>
    assert (K : keeps_gets (bind m k)) by keeps end.
  specialize (K s1). rewrite H2 in K. simpl in K. lia.
Qed.

Lemma v1_page_Ok to initial_params v s t s' :
  v1_page to initial_params v s = (Ok t, s') ->
  (List.length (gets s') < List.length (gets s))%nat.
Proof.
  unfold v1_page. intros H.
  apply bind_Ok in H as (r & s1 & H1 & H2).
  apply session_get_Ok in H1.
  match type of H2 with bind ?m ?k s1 = _ =>
    assert (K : keeps_gets (bind m k)) by keeps end.
  specialize (K s1). rewrite H2 in K. simpl in K. lia.
Qed.

Lemma v2_page_Ok to v s t s' :
  v2_page to v s = (Ok t, s') ->
  (List.length (gets s') < List.length (gets s))%nat.
Proof.
  unfold v2_page. intros H.
  apply bind_Ok in H as (r & s1 & H1 & H2).
  apply fetch_json_Ok in H1.
  assert (K : (List.length (gets s') <= List.length (gets s1))%nat).
  { destruct r; try (inversion H2; subst; lia).
    match type of H2 with ?m s1 = _ =>
      assert (K : keeps_gets m) by keeps end.
    specialize (K s1). rewrite H2 in K. exact K. }
  lia.
Qed.

(** [while True:] of [fetch_paginated_v1] *)
Equations? v1_loop (to : string) (initial_params : pydict) (v : v1_vars)
    (s : state) : res (list pyval) * state by wf (List.length (gets s)) lt :=
  v1_loop to initial_params v s with inspect (v1_page to initial_params v s) := {
    | exist _ (Ok (Again v1), s1) _ => v1_loop to initial_params v1 s1;
    | exist _ (Ok (Break aggregated_items), s1) _ => (Ok aggregated_items, s1);
    | exist _ (Raise e, s1) _ => (Raise e, s1) }.
Proof. eapply v1_page_Ok; eassumption. Qed.

Definition fetch_paginated_v1 (to : string) (initial_params : pydict)
    : M (list pyval) :=
  token <- get_token ;;
  v1_loop to initial_params
    {| v1_aggregated_items := [];
       v1_params := initial_params;
       v1_headers := bearer token |}.

(** [while True:] of [fetch_paginated_entities] *)
Equations? v2_loop (to : string) (v : v2_vars) (s : state)
    : res (list pyval * option pydict) * state by wf (List.length (gets s)) lt :=
  v2_loop to v s with inspect (v2_page to v s) := {
    | exist _ (Ok (Again v1), s1) _ => v2_loop to v1 s1;
    | exist _ (Ok (Break out), s1) _ => (Ok out, s1);
    | exist _ (Raise e, s1) _ => (Raise e, s1) }.
Proof. eapply v2_page_Ok; eassumption. Qed.

Definition fetch_paginated_entities (base_url : string) (initial_params : pydict)
    : M pydict :=
  let to := base_url ++ "/" ++ V2_ENTITIES_PATH in
  out <- v2_loop to {| v2_aggregated_entities := [];
                       v2_meta := None;
                       v2_params := initial_params |} ;;
  let meta := match snd out with Some m => m | None => [] end in
  ret (dict_set (PStr "entities") (PList (fst out)) meta).

End Main.
(* ================================================================== *)
(** * main_process_topology.py, on values *)
(* ================================================================== *)
Module Topology.
Import Py.
Local Open Scope res_scope.
Local Open Scope string_scope.

Section WithRepr.
Context {R : Repr}.

(** ** extract_entities_from_json *)
Definition extract_entities_from_json (data : pyval) : pyval :=
  match data with
  | PList _ => data
  | PDict d => get_or "entities" (PList []) d
  | _ => PList []
  end.

(** ** clean_unsupported_metadata *)

(** the first loop: [float], [bool] and [int] values of the top level become
    their [str] *)
Definition is_number (v : pyval) : bool :=
  match v with PFloat _ | PBool _ | PInt _ => true | _ => false end.

Definition coerce_key (component : pydict) (key : pyval) : pydict :=
  match dict_get key component with
  | Some value =>
      if is_number value then dict_set key (PStr (py_str value)) component
      else component
  | None => component
  end.

Definition coerce_top_level (component : pydict) : pydict :=
  fold_left coerce_key (map fst component) component.

(** [osServices]: the loop over [enumerate(properties["osServices"])] *)
Definition service_name (i : nat) (service : pyval) : pyval :=
  match service with
  | PDict s =>
      py_or (py_or (get "dt.osservice.name" s)
                   (get "dt.osservice.display_name" s))
            (PStr ("unknown_service_" ++ str_of_nat i))
  | PStr _ => service
  | _ => PStr (py_str service)
  end.

Fixpoint convert_services (i : nat) (services : list pyval) : list pyval :=
  match services with
  | [] => []
  | service :: rest => service_name i service :: convert_services (S i) rest
  end.

(** [customPgMetadata]: the loop over [enumerate(...)], writing
    [converted_dict[key] = value] *)
Definition is_key_scalar (v : pyval) : bool :=
  match v with PStr _ | PInt _ | PFloat _ | PBool _ => true | _ => false end.

Definition resolved_key (i : nat) (item : pydict) : string :=
  let raw_key := get "key" item in
  match raw_key with
  | PDict rk =>
      let nested_key := get "key" rk in
      if is_key_scalar nested_key then py_str nested_key
      else "unknown_key_" ++ str_of_nat i
  | _ =>
      if is_key_scalar raw_key then py_str raw_key
      else "unknown_key_" ++ str_of_nat i
  end.

Definition resolved_value (i : nat) (item : pydict) : pyval :=
  get_or "value" (get_or "val" (PStr ("unknown_value_" ++ str_of_nat i)) item) item.

Definition convert_item (i : nat) (item : pyval) (converted_dict : pydict) : pydict :=
  match item with
  | PDict it => dict_set (PStr (resolved_key i it)) (resolved_value i it) converted_dict
  | _ => dict_set (PStr ("item_" ++ str_of_nat i)) (PStr (py_str item)) converted_dict
  end.

Fixpoint convert_custom_metadata (i : nat) (items : list pyval)
    (converted_dict : pydict) : pydict :=
  match items with
  | [] => converted_dict
  | item :: rest => convert_custom_metadata (S i) rest (convert_item i item converted_dict)
  end.

(** [logFileStatus] and [logSourceState] *)
Definition wrap_log_field (name : string) (properties : pydict) : pydict :=
  match dict_get (PStr name) properties with
  | Some (PList l) => dict_set (PStr name) (PDict [(PStr name, PList l)]) properties
  | Some (PDict _) => properties
  | Some _ => dict_set (PStr name) PNone properties
  | None => properties
  end.

(** the block under [if "properties" in component and isinstance(..., dict)],
    as the successive in-place updates of [properties] *)
Definition clean_releases_version (properties : pydict) : pydict :=
  match dict_get (PStr "releasesVersion") properties with
  | Some (PStr _) => dict_set (PStr "releasesVersion") (PDict []) properties
  | _ => properties
  end.

Definition clean_os_services (properties : pydict) : pydict :=
  match dict_get (PStr "osServices") properties with
  | Some (PList l) => dict_set (PStr "osServices") (PList (convert_services 0 l)) properties
  | _ => properties
  end.

Definition clean_custom_metadata (properties : pydict) : pydict :=
  match dict_get (PStr "customPgMetadata") properties with
  | Some (PList l) =>
      dict_set (PStr "customPgMetadata") (PDict (convert_custom_metadata 0 l [])) properties
  | Some (PDict _) => properties
  | Some _ => dict_set (PStr "customPgMetadata") (PDict []) properties
  | None => properties
  end.

Definition clean_properties (properties : pydict) : pydict :=
  wrap_log_field "logSourceState"
    (wrap_log_field "logFileStatus"
       (clean_custom_metadata (clean_os_services (clean_releases_version properties)))).

(** [properties] is the very object stored under ["properties"]: updating it
    in place is an update of that entry of the (copied) component. *)
Definition clean_nested (component : pydict) : pydict :=
  match dict_get (PStr "properties") component with
  | Some (PDict properties) =>
      dict_set (PStr "properties") (PDict (clean_properties properties)) component
  | _ => component
  end.

Definition drop_last_seen (component : pydict) : pydict :=
  if dict_mem (PStr "lastSeenTimestamp") component
  then dict_del (PStr "lastSeenTimestamp") component
  else component.

(** [component.keys()] is an [AttributeError] on anything but a dict *)
Definition clean_unsupported_metadata (component : pyval) : res pydict :=
  match component with
  | PDict c => Ok (drop_last_seen (clean_nested (coerce_top_level c)))
  | _ => Raise AttributeError
  end.

(** ** create_component_identifier *)
Definition create_component_identifier (entity_id : pyval) : string :=
  "urn:dynatrace:/" ++ py_str entity_id.


(** ** extract_tags *)

(** [context != "CONTEXTLESS"] *)
Definition differs_from (v : pyval) (s : string) : bool :=
  match v with PStr t => negb (String.eqb t s) | _ => true end.

(** the label of one tag record; [tag_label += key] is a [TypeError] when
    [key] is truthy and not a string *)
Definition tag_label (tag : pydict) : res string :=
  let context := get "context" tag in
  let l1 := if truthy context && differs_from context "CONTEXTLESS"
            then "[" ++ py_str context ++ "]" else "" in
  let key := get "key" tag in
  l2 <- (if truthy key
         then match key with PStr k => Ok (l1 ++ k) | _ => Raise TypeError end
         else Ok l1) ;;
  let value := get "value" tag in
  Ok (if truthy value then l2 ++ ":" ++ py_str value else l2).

Fixpoint extract_tags_loop (entity_tags : list pyval) (tags : list pyval)
    : res (list pyval) :=
  match entity_tags with
  | [] => Ok tags
  | PDict tag :: rest =>
      label <- tag_label tag ;;
      extract_tags_loop rest
        (if truthy (PStr label) then (tags ++ [PStr label])%list else tags)
  | _ :: rest => extract_tags_loop rest tags
  end.

Definition extract_tags (entity : pydict) : res (list pyval) :=
  entity_tags <- py_iter (get_or "tags" (PList []) entity) ;;
  extract_tags_loop entity_tags [].

(** ** extract_management_zones *)
Fixpoint zones_loop (management_zones : list pyval) (zones : list pyval)
    : list pyval :=
  match management_zones with
  | [] => zones
  | PDict zone :: rest =>
      let zone_name := get "name" zone in
      zones_loop rest
        (if truthy zone_name
         then (zones ++ [PStr ("managementZones:" ++ py_str zone_name)])%list
         else zones)
  | _ :: rest => zones_loop rest zones
  end.

Definition extract_management_zones (entity : pydict) : res (list pyval) :=
  management_zones <- py_iter (get_or "managementZones" (PList []) entity) ;;
  Ok (zones_loop management_zones []).


(** ** normalize_process_group_v2_to_v1 *)
Definition key_mapping : pydict :=
  [ (PStr "COMMAND_LINE_ARGS", PStr "commandLineArgs");
    (PStr "EXE_NAME", PStr "executables");
    (PStr "EXE_PATH", PStr "executablePaths");
    (PStr "JAVA_MAIN_CLASS", PStr "javaMainClasses");
    (PStr "CONTAINER_IMAGE_NAME", PStr "containerImageNames");
    (PStr "CONTAINER_IMAGE_VERSION", PStr "containerImageVersions");
    (PStr "CONTAINER_NAME", PStr "containerNames");
    (PStr "ELASTIC_SEARCH_CLUSTER_NAMES", PStr "elasticSearchClusterNames");
    (PStr "ELASTIC_SEARCH_NODE_NAMES", PStr "elasticSearchNodeNames");
    (PStr "PG_ID_CALC_INPUT_KEY_LINKAGE", PStr "pgIdCalcInputKeyLinkage");
    (PStr "JAVA_JAR_FILE", PStr "javaJarFiles");
    (PStr "JAVA_JAR_PATH", PStr "javaJarPaths") ].

(** [d[k].append(v)] *)
Definition dict_append (k v : pyval) (d : pydict) : pydict :=
  match dict_get k d with
  | Some (PList l) => dict_set k (PList (l ++ [v])%list) d
  | _ => d
  end.

(** [key_mapping.get(raw_key)] followed by [if not target_key: ...];
    hashing a list or a dict is a [TypeError] *)
Definition target_key_of (raw_key : pyval) : res pyval :=
  if hashable raw_key then
    let target_key :=
      match dict_get raw_key key_mapping with Some t => t | None => PNone end in
    Ok (if truthy target_key then target_key else raw_key)
  else Raise TypeError.

(** one turn of [for entry in metadata_entries] *)
Definition fold_entry (meta_out : pydict) (entry : pyval) : res pydict :=
  match entry with
  | PDict e =>
      let raw_key := get "key" e in
      let value := get "value" e in
      if truthy raw_key then
        target_key <- target_key_of raw_key ;;
        let meta_out1 :=
          if dict_mem target_key meta_out then meta_out
          else dict_set target_key (PList []) meta_out in
        Ok (match value with
            | PNone => meta_out1
            | _ => dict_append target_key value meta_out1
            end)
      else Ok meta_out
  | _ => Ok meta_out
  end.

Fixpoint fold_entries (metadata_entries : list pyval) (meta_out : pydict)
    : res pydict :=
  match metadata_entries with
  | [] => Ok meta_out
  | entry :: rest =>
      meta_out1 <- fold_entry meta_out entry ;;
      fold_entries rest meta_out1
  end.

(** [value and isinstance(value, list)] *)
Definition nonempty_list (v : pyval) : bool := truthy v && is_list v.

(** [properties = data.get("properties") or {}]: when the entry is a
    non-empty dict, [properties] is that very object, and what [pop] removes
    from it is removed from [data["properties"]]; otherwise it is a new empty
    dict, on which every [pop] and [get] below finds nothing. *)
Definition normalize_process_group_v2_to_v1 (data : pydict) : res pydict :=
  match py_or (get "properties" data) (PDict []) with
  | PDict properties =>
      let shared := truthy (get "properties" data) in
      (* 1) listenPorts *)
      let listen_ports := get "listenPorts" properties in
      let properties1 := dict_del (PStr "listenPorts") properties in
      let data1 := if nonempty_list listen_ports
                   then dict_set (PStr "listenPorts") listen_ports data else data in
      (* 2) softwareTechnologies *)
      let software_techs := get "softwareTechnologies" properties1 in
      let properties2 := dict_del (PStr "softwareTechnologies") properties1 in
      let data2 := if nonempty_list software_techs
                   then dict_set (PStr "softwareTechnologies") software_techs data1
                   else data1 in
      (* 3) detectedName -> discoveredName *)
      let detected_name := get "detectedName" properties2 in
      let data3 := if truthy detected_name && negb (truthy (get "discoveredName" data2))
                   then dict_set (PStr "discoveredName") detected_name data2
                   else data2 in
      (* 4) metadata *)
      let metadata_entries := get "metadata" properties2 in
      let properties3 := dict_del (PStr "metadata") properties2 in
      data4 <- match metadata_entries with
               | PList (entry :: rest) =>
                   meta_out <- fold_entries (entry :: rest) [] ;;
                   Ok (if truthy (PDict meta_out)
                       then dict_set (PStr "metadata") (PDict meta_out) data3
                       else data3)
               | _ => Ok data3
               end ;;
      Ok (if shared then dict_set (PStr "properties") (PDict properties3) data4
          else data4)
  | _ => Ok data
  end.


(** ** process_entity_to_component *)

(** [":".join(...)] is a [TypeError] when an item is not a string *)
Fixpoint as_strings (l : list pyval) : res (list string) :=
  match l with
  | [] => Ok []
  | PStr s :: rest => ss <- as_strings rest ;; Ok (s :: ss)
  | _ :: _ => Raise TypeError
  end.

Definition tech_label (tech : pydict) : res string :=
  let tech_parts := [get "type" tech; get "edition" tech; get "version" tech] in
  parts <- as_strings (filter truthy tech_parts) ;;
  Ok (join ":" parts).

Fixpoint tech_loop (software_techs : list pyval) (tags : list pyval)
    : res (list pyval) :=
  match software_techs with
  | [] => Ok tags
  | PDict tech :: rest =>
      label <- tech_label tech ;;
      tech_loop rest (if truthy (PStr label) then (tags ++ [PStr label])%list else tags)
  | _ :: rest => tech_loop rest tags
  end.

Definition add_software_techs (cleaned_entity : pydict) (tags : list pyval)
    : res (list pyval) :=
  let software_techs := get_or "softwareTechnologies" (PList []) cleaned_entity in
  if truthy software_techs then
    techs <- py_iter software_techs ;;
    tech_loop techs tags
  else Ok tags.

Definition add_monitoring_state (cleaned_entity : pydict) (tags : list pyval)
    : list pyval :=
  match get "monitoringState" cleaned_entity with
  | PDict monitoring_state =>
      let actual_state := get "actualMonitoringState" monitoring_state in
      let expected_state := get "expectedMonitoringState" monitoring_state in
      let tags1 := if truthy actual_state
                   then (tags ++ [PStr ("actualMonitoringState:" ++ py_str actual_state)])%list
                   else tags in
      if truthy expected_state
      then (tags1 ++ [PStr ("expectedMonitoringState:" ++ py_str expected_state)])%list
      else tags1
  | _ => tags
  end.

(** the returned dict, with its fixed keys *)
Record processed : Type := {
  entityId : pyval;
  displayName : pyval;
  p_component_type : string;
  component : pydict;
  fromRelationships : pyval;
  toRelationships : pyval
}.

Definition process_entity_to_component (entity : pyval) (component_type : string)
    : res processed :=
  cleaned_entity <- clean_unsupported_metadata entity ;;
  let entity_id := get_or "entityId" (PStr "") cleaned_entity in
  let display_name := get_or "displayName" entity_id cleaned_entity in
  let identifiers := [PStr (create_component_identifier entity_id)] in
  tags0 <- extract_tags cleaned_entity ;;
  management_zones <- extract_management_zones cleaned_entity ;;
  let tags1 := (tags0 ++ management_zones)%list in
  let tags2 := if truthy entity_id then (tags1 ++ [entity_id])%list else tags1 in
  tags3 <- add_software_techs cleaned_entity tags2 ;;
  let tags := add_monitoring_state cleaned_entity tags3 in
  let component_data0 := dict_update [] cleaned_entity in
  let component_data1 :=
    dict_del (PStr "tags")
      (dict_del (PStr "toRelationships")
         (dict_del (PStr "fromRelationships") component_data0)) in
  component_data2 <- (if String.eqb component_type "process-group"
                      then normalize_process_group_v2_to_v1 component_data1
                      else Ok component_data1) ;;
  let component_data :=
    dict_update component_data2
      [ (PStr "identifiers", PList identifiers);
        (PStr "tags", PList tags);
        (PStr "component_type", PStr component_type) ] in
  Ok {| entityId := entity_id;
        displayName := display_name;
        p_component_type := component_type;
        component := component_data;
        fromRelationships := get_or "fromRelationships" (PDict []) cleaned_entity;
        toRelationships := get_or "toRelationships" (PDict []) cleaned_entity |}.


(** ** process_topology *)

(** an item of [relationships]: the dict [{"source", "target", "type"}] *)
Record relationship : Type := {
  source : pyval;
  target : pyval;
  type : pyval
}.

(** what the [except] branch prints: the id it names and the exception *)
Record warning : Type := {
  failed_entity : pyval;
  error : exn
}.

(** the two lists the loop appends to, and the warnings printed so far *)
Record collected : Type := {
  components : list pydict;
  relationships : list relationship;
  warnings : list warning
}.

(** [x.get("id") if isinstance(x, dict) else x] *)
Definition id_of (x : pyval) : pyval :=
  match x with PDict d => get "id" d | _ => x end.

Fixpoint outgoing_targets (entity_id rel_type : pyval) (rel_targets : list pyval)
    (rels : list relationship) : list relationship :=
  match rel_targets with
  | [] => rels
  | tgt :: rest =>
      let target_id := id_of tgt in
      outgoing_targets entity_id rel_type rest
        (if truthy target_id
         then (rels ++ [{| source := entity_id; target := target_id; type := rel_type |}])%list
         else rels)
  end.

Fixpoint outgoing_loop (entity_id : pyval) (from_rels : pydict)
    (rels : list relationship) : list relationship :=
  match from_rels with
  | [] => rels
  | (rel_type, PList rel_targets) :: rest =>
      outgoing_loop entity_id rest (outgoing_targets entity_id rel_type rel_targets rels)
  | _ :: rest => outgoing_loop entity_id rest rels
  end.

Fixpoint incoming_sources (entity_id rel_type : pyval) (rel_sources : list pyval)
    (rels : list relationship) : list relationship :=
  match rel_sources with
  | [] => rels
  | src :: rest =>
      let source_id := id_of src in
      incoming_sources entity_id rel_type rest
        (if truthy source_id
         then (rels ++ [{| source := source_id; target := entity_id; type := rel_type |}])%list
         else rels)
  end.

Fixpoint incoming_loop (entity_id : pyval) (to_rels : pydict)
    (rels : list relationship) : list relationship :=
  match to_rels with
  | [] => rels
  | (rel_type, PList rel_sources) :: rest =>
      incoming_loop entity_id rest (incoming_sources entity_id rel_type rel_sources rels)
  | _ :: rest => incoming_loop entity_id rest rels
  end.

(** the body of [try:], with the lists as they stand when it ends or
    raises; [.items()] is an [AttributeError] on anything but a dict *)
Definition try_entity (component_type : string) (entity : pyval) (c : collected)
    : collected * option exn :=
  match process_entity_to_component entity component_type with
  | Raise e => (c, Some e)
  | Ok p =>
      let c1 := {| components := (components c ++ [component p])%list;
                   relationships := relationships c;
                   warnings := warnings c |} in
      let entity_id := entityId p in
      match fromRelationships p with
      | PDict from_rels =>
          let c2 := {| components := components c1;
                       relationships := outgoing_loop entity_id from_rels (relationships c1);
                       warnings := warnings c1 |} in
          match toRelationships p with
          | PDict to_rels =>
              ({| components := components c2;
                  relationships := incoming_loop entity_id to_rels (relationships c2);
                  warnings := warnings c2 |}, None)
          | _ => (c2, Some AttributeError)
          end
      | _ => (c1, Some AttributeError)
      end
  end.

(** the body of [except Exception as e:]; [entity.get] is itself an
    [AttributeError] when the entity is not a dict, and nothing catches it *)
Definition except_entity (entity : pyval) (e : exn) (c : collected) : res collected :=
  match entity with
  | PDict d =>
      Ok {| components := components c;
            relationships := relationships c;
            warnings := (warnings c ++
                         [{| failed_entity := get_or "entityId" (PStr "UNKNOWN") d;
                             error := e |}])%list |}
  | _ => Raise AttributeError
  end.

Fixpoint entities_loop (component_type : string) (entities : list pyval)
    (c : collected) : res collected :=
  match entities with
  | [] => Ok c
  | entity :: rest =>
      match try_entity component_type entity c with
      | (c1, None) => entities_loop component_type rest c1
      | (c1, Some e) =>
          c2 <- except_entity entity e c1 ;;
          entities_loop component_type rest c2
      end
  end.


(** [filename.lower()] and [needle in filename], on ASCII text *)
Definition lower_ascii (c : ascii) : ascii :=
  let n := nat_of_ascii c in
  if (65 <=? n)%nat && (n <=? 90)%nat then ascii_of_nat (n + 32) else c.

Fixpoint lower (s : string) : string :=
  match s with
  | EmptyString => EmptyString
  | String c s' => String (lower_ascii c) (lower s')
  end.

Fixpoint contains (needle s : string) : bool :=
  String.prefix needle s ||
  match s with
  | EmptyString => false
  | String _ s' => contains needle s'
  end.

Definition detect_component_type (name : string) : string :=
  let filename := lower name in
  if contains "process" filename && negb (contains "group" filename) then "process"
  else if contains "process-group" filename then "process-group"
  else "entity".

Record metadata : Type := {
  source_file : string;
  m_component_type : string;
  timestamp : Z;
  component_count : nat;
  relationship_count : nat
}.

Record topology : Type := {
  t_metadata : metadata;
  t_components : list pydict;
  t_relationships : list relationship
}.

(** [process_topology], from the decoded content [data] of the input file
    on: [input_file] is [str(input_file)], [name] is [input_file.name],
    [now] is [int(time.time())] at the end.  The progress lines are left
    out; [len(entities)] raises on exactly the values [for entity in
    entities] raises on.  The warnings printed are returned with the
    topology. *)
Definition process_topology (input_file name : string) (data : pyval)
    (component_type : option string) (now : Z) : res (topology * list warning) :=
  entities <- py_iter (extract_entities_from_json data) ;;
  let component_type :=
    match component_type with
    | Some ct => if truthy (PStr ct) then ct else detect_component_type name
    | None => detect_component_type name
    end in
  c <- entities_loop component_type entities
         {| components := []; relationships := []; warnings := [] |} ;;
  Ok ({| t_metadata :=
           {| source_file := input_file;
              m_component_type := component_type;
              timestamp := now;
              component_count := List.length (components c);
              relationship_count := List.length (relationships c) |};
         t_components := components c;
         t_relationships := relationships c |},
      warnings c).

End WithRepr.

(** A stand-in for the builtin [repr], to run the definitions on concrete
    inputs. *)
Definition fixed_repr : Repr := fun _ => "<repr>".

End Topology.


(* ================================================================== *)
(** * main_process_topology.py, on an object store *)
(* ================================================================== *)
(** Python dicts and lists are objects: a variable holds a reference, two
    variables may hold the same one, and [d[k] = v], [del d[k]], [d.pop(k)]
    change the object for every holder.  Here the functions of
    [main_process_topology.py] that assign into dicts run on a store of
    objects, so that which object each assignment changes is explicit. *)
Module Store.
Import Py.
Local Open Scope string_scope.

Definition loc := nat.

(** the immutable values *)
Inductive scalar : Type :=
| SNone
| SBool (b : bool)
| SInt (z : Z)
| SFloat (f : spec_float)
| SStr (s : string).

(** what a variable, a list item or a dict entry holds *)
Inductive val : Type :=
| Imm (c : scalar)
| Ref (l : loc).

Inductive obj : Type :=
| OList (items : list val)
| ODict (items : list (scalar * val)).

Definition heap := list obj.

Definition of_scalar (c : scalar) : pyval :=
  match c with
  | SNone => PNone
  | SBool b => PBool b
  | SInt z => PInt z
  | SFloat f => PFloat f
  | SStr s => PStr s
  end.

Definition to_scalar (v : pyval) : option scalar :=
  match v with
  | PNone => Some SNone
  | PBool b => Some (SBool b)
  | PInt z => Some (SInt z)
  | PFloat f => Some (SFloat f)
  | PStr s => Some (SStr s)
  | _ => None
  end.

(** ** Computations on the store *)
Definition S (A : Type) : Type := heap -> res A * heap.

Definition ret {A} (a : A) : S A := fun h => (Ok a, h).
Definition raise {A} (e : exn) : S A := fun h => (Raise e, h).
Definition bind {A B} (m : S A) (k : A -> S B) : S B :=
  fun h => match m h with
           | (Ok a, h1) => k a h1
           | (Raise e, h1) => (Raise e, h1)
           end.
Definition lift {A} (r : res A) : S A := fun h => (r, h).

Declare Scope store_scope.
Delimit Scope store_scope with store.
Notation "x <- m ;; k" := (bind m (fun x => k))
  (at level 61, m at next level, right associativity) : store_scope.
Notation "m ;; k" := (bind m (fun _ => k))
  (at level 61, right associativity) : store_scope.
Local Open Scope store_scope.

(** a new object *)
Definition alloc (o : obj) : S val :=
  fun h => (Ok (Ref (List.length h)), (h ++ [o])%list).

Definition read (l : loc) : S obj :=
  fun h => match nth_error h l with
           | Some o => (Ok o, h)
           | None => (Raise SystemError, h)
           end.

Fixpoint replace (l : loc) (o : obj) (h : heap) {struct h} : heap :=
  match h, l with
  | [], _ => []
  | _ :: h', O => o :: h'
  | o' :: h', Datatypes.S l' => o' :: replace l' o h'
  end.

(** the object at [l] becomes [o] *)
Definition write (l : loc) (o : obj) : S unit :=
  fun h => (Ok tt, replace l o h).

Definition size : S nat := fun h => (Ok (List.length h), h).

Fixpoint for_each {A} (l : list A) (f : A -> S unit) : S unit :=
  match l with
  | [] => ret tt
  | x :: rest => f x ;; for_each rest f
  end.

Fixpoint map_s {A B} (f : A -> S B) (l : list A) : S (list B) :=
  match l with
  | [] => ret []
  | x :: rest => y <- f x ;; ys <- map_s f rest ;; ret (y :: ys)
  end.

(** ** Looking at a value *)

(** a value with its object, when it refers to one *)
Inductive view : Type :=
| Scalar (c : scalar)
| AList (l : loc) (items : list val)
| ADict (l : loc) (items : list (scalar * val)).

Definition look (v : val) : S view :=
  match v with
  | Imm c => ret (Scalar c)
  | Ref l =>
      o <- read l ;;
      ret (match o with
           | OList items => AList l items
           | ODict items => ADict l items
           end)
  end.

(** [bool(v)] *)
Definition truthy_view (w : view) : bool :=
  match w with
  | Scalar c => truthy (of_scalar c)
  | AList _ items => match items with [] => false | _ => true end
  | ADict _ items => match items with [] => false | _ => true end
  end.

Definition is_truthy (v : val) : S bool :=
  w <- look v ;; ret (truthy_view w).

(** ** The items of a dict *)
Definition skey_eqb (a b : scalar) : bool := key_eqb (of_scalar a) (of_scalar b).

Fixpoint items_get {V} (k : scalar) (d : list (scalar * V)) : option V :=
  match d with
  | [] => None
  | (k', v) :: d' => if skey_eqb k k' then Some v else items_get k d'
  end.

Fixpoint items_set {V} (k : scalar) (v : V) (d : list (scalar * V))
    : list (scalar * V) :=
  match d with
  | [] => [(k, v)]
  | (k', v') :: d' =>
      if skey_eqb k k' then (k', v) :: d' else (k', v') :: items_set k v d'
  end.

Fixpoint items_del {V} (k : scalar) (d : list (scalar * V)) : list (scalar * V) :=
  match d with
  | [] => []
  | (k', v') :: d' =>
      if skey_eqb k k' then d' else (k', v') :: items_del k d'
  end.

(** [d.get(k, default)] on the items *)
Definition field_or (k : string) (default : val) (d : list (scalar * val)) : val :=
  match items_get (SStr k) d with Some v => v | None => default end.

Definition field (k : string) (d : list (scalar * val)) : val :=
  field_or k (Imm SNone) d.

(** the items of the dict at [l] *)
Definition items_of (l : loc) : S (list (scalar * val)) :=
  o <- read l ;;
  match o with
  | ODict items => ret items
  | OList _ => raise SystemError
  end.

(** [d[k] = v], [del d[k]] / [d.pop(k, None)], on the dict at [l] *)
Definition setitem (l : loc) (k : scalar) (v : val) : S unit :=
  items <- items_of l ;; write l (ODict (items_set k v items)).

Definition delitem (l : loc) (k : scalar) : S unit :=
  items <- items_of l ;; write l (ODict (items_del k items)).

(** [d.pop(k, None)] *)
Definition pop (l : loc) (k : string) : S val :=
  items <- items_of l ;;
  write l (ODict (items_del (SStr k) items)) ;;
  ret (field k items).

(** ** Whole structures *)

Fixpoint all_some {A} (l : list (option A)) : option (list A) :=
  match l with
  | [] => Some []
  | Some a :: rest => option_map (cons a) (all_some rest)
  | None :: _ => None
  end.

(** the JSON value a value stands for, following references [fuel] deep *)
Fixpoint snap (fuel : nat) (h : heap) (v : val) : option pyval :=
  match v with
  | Imm c => Some (of_scalar c)
  | Ref l =>
      match fuel with
      | O => None
      | Datatypes.S fuel' =>
          match nth_error h l with
          | Some (OList items) =>
              option_map PList (all_some (map (snap fuel' h) items))
          | Some (ODict items) =>
              option_map PDict
                (all_some (map (fun kv => option_map (pair (of_scalar (fst kv)))
                                            (snap fuel' h (snd kv))) items))
          | None => None
          end
      end
  end.

(** reading a whole structure, as [str], [repr] and code that only reads
    do; no structure of the store is nested deeper than the store is
    large, unless it is cyclic *)
Definition snapshot (v : val) : S pyval :=
  fun h => match snap (List.length h) h v with
           | Some j => (Ok j, h)
           | None => (Raise RecursionError, h)
           end.

(** [copy.deepcopy(v)], on the tree-shaped structures JSON decodes to:
    every object reached gets a copy, new in the store *)
Fixpoint copy (fuel : nat) (v : val) : S val :=
  match v with
  | Imm _ => ret v
  | Ref l =>
      match fuel with
      | O => raise RecursionError
      | Datatypes.S fuel' =>
          o <- read l ;;
          match o with
          | OList items =>
              items' <- map_s (copy fuel') items ;;
              alloc (OList items')
          | ODict items =>
              items' <- map_s (fun kv => v' <- copy fuel' (snd kv) ;; ret (fst kv, v')) items ;;
              alloc (ODict items')
          end
      end
  end.

Definition deepcopy (v : val) : S val :=
  n <- size ;; copy n v.

(** [json.load]: the objects of a decoded JSON value, new in the store *)
Fixpoint load (j : pyval) : S val :=
  match j with
  | PList l =>
      items <- (fix go (l : list pyval) : S (list val) :=
                  match l with
                  | [] => ret []
                  | x :: rest => v <- load x ;; vs <- go rest ;; ret (v :: vs)
                  end) l ;;
      alloc (OList items)
  | PDict d =>
      items <- (fix go (d : list (pyval * pyval)) : S (list (scalar * val)) :=
                  match d with
                  | [] => ret []
                  | (k, x) :: rest =>
                      match to_scalar k with
                      | Some c => v <- load x ;; vs <- go rest ;; ret ((c, v) :: vs)
                      | None => raise TypeError
                      end
                  end) d ;;
      alloc (ODict items)
  | _ => match to_scalar j with
         | Some c => ret (Imm c)
         | None => raise SystemError
         end
  end.

Section WithRepr.
Context {R : Repr}.

(** [str(v)] *)
Definition str (v : val) : S string :=
  match v with
  | Imm c => ret (py_str (of_scalar c))
  | Ref _ => j <- snapshot v ;; ret (py_str j)
  end.

(** ** clean_unsupported_metadata *)

Definition coerce_key (component : loc) (key : scalar) : S unit :=
  items <- items_of component ;;
  match items_get key items with
  | Some (Imm c) =>
      if Topology.is_number (of_scalar c)
      then setitem component key (Imm (SStr (py_str (of_scalar c))))
      else ret tt
  | _ => ret tt
  end.

Definition coerce_top_level (component : loc) : S unit :=
  items <- items_of component ;;
  for_each (map fst items) (coerce_key component).

Definition service_name (i : nat) (service : val) : S val :=
  w <- look service ;;
  match w with
  | ADict _ s =>
      let a := field "dt.osservice.name" s in
      ta <- is_truthy a ;;
      if ta then ret a
      else
        let b := field "dt.osservice.display_name" s in
        tb <- is_truthy b ;;
        if tb then ret b
        else ret (Imm (SStr ("unknown_service_" ++ str_of_nat i)))
  | Scalar (SStr _) => ret service
  | _ => text <- str service ;; ret (Imm (SStr text))
  end.

Fixpoint convert_services (i : nat) (services : list val) : S (list val) :=
  match services with
  | [] => ret []
  | service :: rest =>
      name <- service_name i service ;;
      names <- convert_services (Datatypes.S i) rest ;;
      ret (name :: names)
  end.

Definition scalar_key_text (i : nat) (key : val) : string :=
  match key with
  | Imm c =>
      if Topology.is_key_scalar (of_scalar c) then py_str (of_scalar c)
      else "unknown_key_" ++ str_of_nat i
  | Ref _ => "unknown_key_" ++ str_of_nat i
  end.

Definition resolved_key (i : nat) (item : list (scalar * val)) : S string :=
  let raw_key := field "key" item in
  w <- look raw_key ;;
  match w with
  | ADict _ rk => ret (scalar_key_text i (field "key" rk))
  | _ => ret (scalar_key_text i raw_key)
  end.

Definition resolved_value (i : nat) (item : list (scalar * val)) : val :=
  field_or "value" (field_or "val" (Imm (SStr ("unknown_value_" ++ str_of_nat i))) item) item.

(** [converted_dict] is a new dict that nothing else holds until it is
    assigned: its items are gathered first and the object made then *)
Definition convert_item (i : nat) (item : val) (converted_dict : list (scalar * val))
    : S (list (scalar * val)) :=
  w <- look item ;;
  match w with
  | ADict _ it =>
      key <- resolved_key i it ;;
      ret (items_set (SStr key) (resolved_value i it) converted_dict)
  | _ =>
      text <- str item ;;
      ret (items_set (SStr ("item_" ++ str_of_nat i)) (Imm (SStr text)) converted_dict)
  end.

Fixpoint convert_custom_metadata (i : nat) (items : list val)
    (converted_dict : list (scalar * val)) : S (list (scalar * val)) :=
  match items with
  | [] => ret converted_dict
  | item :: rest =>
      converted_dict1 <- convert_item i item converted_dict ;;
      convert_custom_metadata (Datatypes.S i) rest converted_dict1
  end.

(** [v] when [name in properties] *)
Definition entry (properties : loc) (name : string) : S (option val) :=
  items <- items_of properties ;;
  ret (items_get (SStr name) items).

Definition clean_releases_version (properties : loc) : S unit :=
  e <- entry properties "releasesVersion" ;;
  match e with
  | Some (Imm (SStr _)) =>
      d <- alloc (ODict []) ;; setitem properties (SStr "releasesVersion") d
  | _ => ret tt
  end.

Definition clean_os_services (properties : loc) : S unit :=
  e <- entry properties "osServices" ;;
  match e with
  | Some v =>
      w <- look v ;;
      match w with
      | AList _ services =>
          converted_services <- convert_services 0 services ;;
          l <- alloc (OList converted_services) ;;
          setitem properties (SStr "osServices") l
      | _ => ret tt
      end
  | None => ret tt
  end.

Definition clean_custom_metadata (properties : loc) : S unit :=
  e <- entry properties "customPgMetadata" ;;
  match e with
  | Some v =>
      w <- look v ;;
      match w with
      | AList _ items =>
          converted_dict <- convert_custom_metadata 0 items [] ;;
          d <- alloc (ODict converted_dict) ;;
          setitem properties (SStr "customPgMetadata") d
      | ADict _ _ => ret tt
      | Scalar _ =>
          d <- alloc (ODict []) ;; setitem properties (SStr "customPgMetadata") d
      end
  | None => ret tt
  end.

Definition wrap_log_field (name : string) (properties : loc) : S unit :=
  e <- entry properties name ;;
  match e with
  | Some v =>
      w <- look v ;;
      match w with
      | AList _ _ =>
          d <- alloc (ODict [(SStr name, v)]) ;; setitem properties (SStr name) d
      | ADict _ _ => ret tt
      | Scalar _ => setitem properties (SStr name) (Imm SNone)
      end
  | None => ret tt
  end.

Definition clean_properties (properties : loc) : S unit :=
  clean_releases_version properties ;;
  clean_os_services properties ;;
  clean_custom_metadata properties ;;
  wrap_log_field "logFileStatus" properties ;;
  wrap_log_field "logSourceState" properties.

(** everything below [component = copy.deepcopy(component)]: it assigns
    into the object [component] refers to *)
Definition clean_in_place (component : val) : S val :=
  w <- look component ;;
  match w with
  | ADict c _ =>
      coerce_top_level c ;;
      e <- entry c "properties" ;;
      match e with
      | Some v =>
          pw <- look v ;;
          match pw with
          | ADict properties _ => clean_properties properties
          | _ => ret tt
          end
      | None => ret tt
      end ;;
      e <- entry c "lastSeenTimestamp" ;;
      match e with
      | Some _ => delitem c (SStr "lastSeenTimestamp")
      | None => ret tt
      end ;;
      ret component
  | _ => raise AttributeError
  end.

Definition clean_unsupported_metadata (component : val) : S val :=
  component <- deepcopy component ;;
  clean_in_place component.

(** ** Functions that only read *)

(** [extract_tags], [extract_management_zones] and the label loops of
    [process_entity_to_component] read the entity and build strings: they
    are the functions of [Topology] on what the entity holds at that
    point. *)
Definition reading {A} (entity : val) (f : pydict -> res A) : S A :=
  j <- snapshot entity ;;
  match j with
  | PDict d => lift (f d)
  | _ => raise AttributeError
  end.

(** a label, as a list item *)
Definition label (j : pyval) : val :=
  match to_scalar j with Some c => Imm c | None => Imm SNone end.

Definition extract_tags (entity : val) : S (list val) :=
  labels <- reading entity Topology.extract_tags ;; ret (map label labels).

Definition extract_management_zones (entity : val) : S (list val) :=
  labels <- reading entity Topology.extract_management_zones ;; ret (map label labels).

Definition software_tech_labels (entity : val) : S (list val) :=
  labels <- reading entity (fun d => Topology.add_software_techs d []) ;;
  ret (map label labels).

Definition monitoring_state_labels (entity : val) : S (list val) :=
  labels <- reading entity (fun d => Ok (Topology.add_monitoring_state d [])) ;;
  ret (map label labels).

(** ** normalize_process_group_v2_to_v1 *)

(** [value and isinstance(value, list)] *)
Definition nonempty_list (w : view) : bool :=
  match w with AList _ (_ :: _) => true | _ => false end.

Definition hoist (data properties : loc) (name : string) : S unit :=
  v <- pop properties name ;;
  w <- look v ;;
  if nonempty_list w then setitem data (SStr name) v else ret tt.

(** [meta_out] and its lists are new objects that nothing else holds until
    [data["metadata"] = meta_out]: their contents are gathered first *)
Definition fold_entry (meta_out : list (scalar * list val)) (entry : val)
    : S (list (scalar * list val)) :=
  w <- look entry ;;
  match w with
  | ADict _ e =>
      let raw_key := field "key" e in
      let value := field "value" e in
      t <- is_truthy raw_key ;;
      if t then
        match raw_key with
        | Imm c =>
            target <- lift (Topology.target_key_of (of_scalar c)) ;;
            match to_scalar target with
            | Some target_key =>
                let meta_out1 :=
                  match items_get target_key meta_out with
                  | Some _ => meta_out
                  | None => items_set target_key [] meta_out
                  end in
                ret (match value with
                     | Imm SNone => meta_out1
                     | _ =>
                         match items_get target_key meta_out1 with
                         | Some l => items_set target_key (l ++ [value])%list meta_out1
                         | None => meta_out1
                         end
                     end)
            | None => raise SystemError
            end
        | Ref _ => raise TypeError
        end
      else ret meta_out
  | _ => ret meta_out
  end.

Fixpoint fold_entries (metadata_entries : list val) (meta_out : list (scalar * list val))
    : S (list (scalar * list val)) :=
  match metadata_entries with
  | [] => ret meta_out
  | entry :: rest =>
      meta_out1 <- fold_entry meta_out entry ;;
      fold_entries rest meta_out1
  end.

Definition new_meta_out (meta_out : list (scalar * list val)) : S val :=
  items <- map_s (fun kl => l <- alloc (OList (snd kl)) ;; ret (fst kl, l)) meta_out ;;
  alloc (ODict items).

(** [data] is changed in place, and so is the dict under its
    ["properties"] when there is a non-empty one *)
Definition normalize_process_group_v2_to_v1 (data : loc) : S unit :=
  items <- items_of data ;;
  let held := field "properties" items in
  t <- is_truthy held ;;
  properties <- (if t then ret held else alloc (ODict [])) ;;
  w <- look properties ;;
  match w with
  | ADict p _ =>
      hoist data p "listenPorts" ;;
      hoist data p "softwareTechnologies" ;;
      pitems <- items_of p ;;
      let detected_name := field "detectedName" pitems in
      td <- is_truthy detected_name ;;
      ditems <- items_of data ;;
      tn <- is_truthy (field "discoveredName" ditems) ;;
      (if td && negb tn
       then setitem data (SStr "discoveredName") detected_name
       else ret tt) ;;
      metadata_entries <- pop p "metadata" ;;
      mw <- look metadata_entries ;;
      match mw with
      | AList _ (entry :: rest) =>
          meta_out <- fold_entries (entry :: rest) [] ;;
          match meta_out with
          | [] => ret tt
          | _ => d <- new_meta_out meta_out ;; setitem data (SStr "metadata") d
          end
      | _ => ret tt
      end
  | _ => ret tt
  end.

(** ** process_entity_to_component *)
Record processed : Type := {
  entityId : val;
  displayName : val;
  p_component_type : string;
  component : val;
  fromRelationships : val;
  toRelationships : val
}.

Definition process_entity_to_component (entity : val) (component_type : string)
    : S processed :=
  cleaned_entity <- clean_unsupported_metadata entity ;;
  w <- look cleaned_entity ;;
  match w with
  | ADict cleaned items =>
      let entity_id := field_or "entityId" (Imm (SStr "")) items in
      let display_name := field_or "displayName" entity_id items in
      id_text <- str entity_id ;;
      let identifiers := [Imm (SStr ("urn:dynatrace:/" ++ id_text))] in
      tags0 <- extract_tags cleaned_entity ;;
      management_zones <- extract_management_zones cleaned_entity ;;
      t <- is_truthy entity_id ;;
      let tags2 := (tags0 ++ management_zones ++ (if t then [entity_id] else []))%list in
      tech <- software_tech_labels cleaned_entity ;;
      monitoring <- monitoring_state_labels cleaned_entity ;;
      let tags := (tags2 ++ tech ++ monitoring)%list in
      component_data <- alloc (ODict []) ;;
      match component_data with
      | Ref data =>
          for_each items (fun kv => setitem data (fst kv) (snd kv)) ;;
          delitem data (SStr "fromRelationships") ;;
          delitem data (SStr "toRelationships") ;;
          delitem data (SStr "tags") ;;
          (if String.eqb component_type "process-group"
           then normalize_process_group_v2_to_v1 data
           else ret tt) ;;
          ids <- alloc (OList identifiers) ;;
          tgs <- alloc (OList tags) ;;
          setitem data (SStr "identifiers") ids ;;
          setitem data (SStr "tags") tgs ;;
          setitem data (SStr "component_type") (Imm (SStr component_type)) ;;
          empty1 <- alloc (ODict []) ;;
          empty2 <- alloc (ODict []) ;;
          ret {| entityId := entity_id;
                 displayName := display_name;
                 p_component_type := component_type;
                 component := component_data;
                 fromRelationships := field_or "fromRelationships" empty1 items;
                 toRelationships := field_or "toRelationships" empty2 items |}
      | Imm _ => raise SystemError
      end
  | _ => raise SystemError
  end.

(** ** process_topology: the loop over the entities *)
Record relationship : Type := {
  source : val;
  target : val;
  type : val
}.

Record warning : Type := {
  failed_entity : val;
  error : exn
}.

Record collected : Type := {
  components : list val;
  relationships : list relationship;
  warnings : list warning
}.

(** [x.get("id") if isinstance(x, dict) else x] *)
Definition id_of (x : val) : S val :=
  w <- look x ;;
  match w with
  | ADict _ d => ret (field "id" d)
  | _ => ret x
  end.

Fixpoint outgoing_targets (entity_id rel_type : val) (rel_targets : list val)
    (rels : list relationship) : S (list relationship) :=
  match rel_targets with
  | [] => ret rels
  | tgt :: rest =>
      target_id <- id_of tgt ;;
      t <- is_truthy target_id ;;
      outgoing_targets entity_id rel_type rest
        (if t
         then (rels ++ [{| source := entity_id; target := target_id; type := rel_type |}])%list
         else rels)
  end.

Fixpoint incoming_sources (entity_id rel_type : val) (rel_sources : list val)
    (rels : list relationship) : S (list relationship) :=
  match rel_sources with
  | [] => ret rels
  | src :: rest =>
      source_id <- id_of src ;;
      t <- is_truthy source_id ;;
      incoming_sources entity_id rel_type rest
        (if t
         then (rels ++ [{| source := source_id; target := entity_id; type := rel_type |}])%list
         else rels)
  end.

Fixpoint relationships_loop
    (inner : val -> list val -> list relationship -> S (list relationship))
    (rel_items : list (scalar * val)) (rels : list relationship)
    : S (list relationship) :=
  match rel_items with
  | [] => ret rels
  | (rel_type, v) :: rest =>
      w <- look v ;;
      match w with
      | AList _ l =>
          rels1 <- inner (Imm rel_type) l rels ;;
          relationships_loop inner rest rels1
      | _ => relationships_loop inner rest rels
      end
  end.

(** [.items()] *)
Definition dict_items (v : val) : S (list (scalar * val)) :=
  w <- look v ;;
  match w with
  | ADict _ items => ret items
  | _ => raise AttributeError
  end.

(** running [m] under [try:] *)
Definition caught {A} (m : S A) : S (res A) :=
  fun h => let (r, h1) := m h in (Ok r, h1).

Definition try_entity (component_type : string) (entity : val) (c : collected)
    : S (collected * option exn) :=
  r <- caught (process_entity_to_component entity component_type) ;;
  match r with
  | Raise e => ret (c, Some e)
  | Ok p =>
      let c1 := {| components := (components c ++ [component p])%list;
                   relationships := relationships c;
                   warnings := warnings c |} in
      let entity_id := entityId p in
      r1 <- caught (dict_items (fromRelationships p)) ;;
      match r1 with
      | Raise e => ret (c1, Some e)
      | Ok from_rels =>
          rels2 <- relationships_loop (outgoing_targets entity_id) from_rels
                     (relationships c1) ;;
          let c2 := {| components := components c1;
                       relationships := rels2;
                       warnings := warnings c1 |} in
          r2 <- caught (dict_items (toRelationships p)) ;;
          match r2 with
          | Raise e => ret (c2, Some e)
          | Ok to_rels =>
              rels3 <- relationships_loop (incoming_sources entity_id) to_rels
                         (relationships c2) ;;
              ret ({| components := components c2;
                      relationships := rels3;
                      warnings := warnings c2 |}, None)
          end
      end
  end.

Definition except_entity (entity : val) (e : exn) (c : collected) : S collected :=
  w <- look entity ;;
  match w with
  | ADict _ d =>
      ret {| components := components c;
             relationships := relationships c;
             warnings := (warnings c ++
                          [{| failed_entity := field_or "entityId" (Imm (SStr "UNKNOWN")) d;
                              error := e |}])%list |}
  | _ => raise AttributeError
  end.

Fixpoint entities_loop (component_type : string) (entities : list val)
    (c : collected) : S collected :=
  match entities with
  | [] => ret c
  | entity :: rest =>
      r <- try_entity component_type entity c ;;
      match r with
      | (c1, None) => entities_loop component_type rest c1
      | (c1, Some e) =>
          c2 <- except_entity entity e c1 ;;
          entities_loop component_type rest c2
      end
  end.

End WithRepr.
End Store.

(* ================================================================== *)
(** * main.py: configuration and the calls of a run *)
(* ================================================================== *)
Module MainRun.
Import Py Main.
Local Open Scope string_scope.

Definition V1_PROCESS_ENDPOINT : string := "api/v1/entity/infrastructure/processes".
Definition V1_PROCESS_GROUP_ENDPOINT : string := "api/v1/entity/infrastructure/process-groups".
Definition V1_HOST_ENDPOINT : string := "api/v1/entity/infrastructure/hosts".

(** the double quote of the selectors *)
Definition quoted (s : string) : string :=
  String (ascii_of_nat 34) (s ++ String (ascii_of_nat 34) EmptyString).

Definition V2_PROCESS_SELECTOR : string := "type(" ++ quoted "PROCESS_GROUP_INSTANCE" ++ ")".
Definition V2_PROCESS_GROUP_SELECTOR : string := "type(" ++ quoted "PROCESS_GROUP" ++ ")".
Definition V2_HOST_SELECTOR : string := "type(" ++ quoted "HOST" ++ ")".

(** ** EnvironmentConfig *)
Record EnvironmentConfig : Type := {
  name : string;
  base_url : string;
  auth : AuthSettings
}.

(** [s.rstrip(c)] for a single character [c] *)
Fixpoint rstrip (c : ascii) (s : string) : string :=
  match s with
  | EmptyString => EmptyString
  | String a s' =>
      match rstrip c s' with
      | EmptyString => if Ascii.eqb a c then EmptyString else String a EmptyString
      | r => String a r
      end
  end.

Definition normalized_base_url (env : EnvironmentConfig) : string :=
  rstrip "/" (base_url env).

(** ** The environment variables *)

(** [os.environ], as [os.getenv] reads it *)
Definition environ : Type := string -> option string.

(** what reading the configuration gives: a value, or the [RuntimeError]
    that says which variable must be configured *)
Inductive configured (A : Type) : Type :=
| Configured (a : A)
| MustBeConfigured (key : string).
Arguments Configured {A} a.
Arguments MustBeConfigured {A} key.

Definition cbind {A B} (c : configured A) (k : A -> configured B) : configured B :=
  match c with
  | Configured a => k a
  | MustBeConfigured key => MustBeConfigured key
  end.

Definition _require_env (environ : environ) (key : string) : configured string :=
  match environ key with
  | Some value => if present (Some value) then Configured value else MustBeConfigured key
  | None => MustBeConfigured key
  end.

Definition _build_auth_settings (environ : environ) (prefix : string)
    : configured AuthSettings :=
  cbind (_require_env environ (prefix ++ "_AUTH_URL")) (fun url =>
  cbind (_require_env environ (prefix ++ "_AUTH_CLIENT_ID")) (fun client_id =>
  cbind (_require_env environ (prefix ++ "_AUTH_CLIENT_SECRET")) (fun client_secret =>
  Configured {| url := url;
                client_id := client_id;
                client_secret := client_secret;
                scope := environ (prefix ++ "_AUTH_SCOPE");
                resource := environ (prefix ++ "_AUTH_RESOURCE");
                audience := environ (prefix ++ "_AUTH_AUDIENCE") |}))).

(** ** The files of a run *)

(** a file written by [dump_response]: the name joined to the working
    directory, and the content that is serialised into it *)
Record file : Type := {
  filename : string;
  content : pyval
}.

(** the authenticator and the network, and the files written so far *)
Record world : Type := {
  net : state;
  written : list file
}.

Definition W (A : Type) : Type := world -> res A * world.

Definition wret {A} (a : A) : W A := fun w => (Ok a, w).
Definition wbind {A B} (m : W A) (k : A -> W B) : W B :=
  fun w => match m w with
           | (Ok a, w1) => k a w1
           | (Raise e, w1) => (Raise e, w1)
           end.

(** a step on the authenticator and the network *)
Definition on_net {A} (m : M A) : W A :=
  fun w => match m (net w) with
           | (r, s) => (r, {| net := s; written := written w |})
           end.

Declare Scope w_scope.
Delimit Scope w_scope with W.
Notation "x <- m ;; k" := (wbind m (fun x => k))
  (at level 61, m at next level, right associativity) : w_scope.
Notation "m ;; k" := (wbind m (fun _ => k))
  (at level 61, right associativity) : w_scope.
Local Open Scope w_scope.

(** [int(x)] of a time: the integer part, towards zero *)
Definition int_of_time (x : Q) : Z := Z.quot (Qnum x) (Z.pos (Qden x)).

(** [build_filename]; the result is the name that is joined to
    [Path.cwd()] *)
Definition build_filename (system data_type : string) : W string :=
  now <- on_net time ;;
  let timestamp := int_of_time now in
  wret (system ++ "_" ++ data_type ++ "_" ++ str_of_Z timestamp ++ ".json").

(** [dump_response] *)
Definition dump_response (content : pyval) (filepath : string) : W unit :=
  fun w => (Ok tt, {| net := net w;
                      written := (written w ++ [{| filename := filepath;
                                                   content := content |}])%list |}).

(** ** run_v1_calls *)

(** one [if include_...:] block of [run_v1_calls] *)
Definition v1_call (env : EnvironmentConfig) (params : pydict)
    (endpoint data_type : string) : W unit :=
  let base := normalized_base_url env in
  let to := base ++ "/" ++ endpoint in
  fetched <- on_net (fetch_paginated_v1 to params) ;;
  filepath <- build_filename (name env) data_type ;;
  dump_response (PList fetched) filepath.

Definition run_v1_calls (env : EnvironmentConfig) (page_size : Z)
    (include_processes include_process_groups include_hosts : bool) : W unit :=
  let params := [ (PStr "relativeTime", PStr "hour");
                  (PStr "pageSize", PStr (str_of_Z page_size)) ] in
  (if include_processes
   then v1_call env params V1_PROCESS_ENDPOINT "process_v1" else wret tt) ;;
  (if include_process_groups
   then v1_call env params V1_PROCESS_GROUP_ENDPOINT "process-group_v1" else wret tt) ;;
  (if include_hosts
   then v1_call env params V1_HOST_ENDPOINT "host_v1" else wret tt).

(** ** run_v2_calls *)

(** one [if include_...:] block of [run_v2_calls] *)
Definition v2_call (env : EnvironmentConfig) (relative_time selector fields data_type : string)
    : W unit :=
  let base := normalized_base_url env in
  let params := [ (PStr "entitySelector", PStr selector);
                  (PStr "from", PStr relative_time);
                  (PStr "fields", PStr fields) ] in
  fetched <- on_net (fetch_paginated_entities base params) ;;
  filepath <- build_filename (name env) data_type ;;
  dump_response (PDict fetched) filepath.

Definition run_v2_calls (env : EnvironmentConfig)
    (relative_time process_fields process_group_fields host_fields : string)
    (include_process_groups include_processes include_hosts : bool) : W unit :=
  (if include_processes
   then v2_call env relative_time V2_PROCESS_SELECTOR process_fields "process_v2"
   else wret tt) ;;
  (if include_process_groups
   then v2_call env relative_time V2_PROCESS_GROUP_SELECTOR process_group_fields
          "process-group_v2"
   else wret tt) ;;
  (if include_hosts
   then v2_call env relative_time V2_HOST_SELECTOR host_fields "host_v2"
   else wret tt).

End MainRun.

(* ================================================================== *)
(** * main.py: the token lifecycle and the paginated fetches *)
(* ================================================================== *)
Module MainSpec.
Import Py Main.
Local Open Scope string_scope.

(** ** The token exchange *)

(** the reply the next [requests.post] gets *)
Definition next_reply (s : state) : option post_response :=
  match posts s with r :: _ => r | [] => None end.

(** the one event a token exchange leaves: the POST to the authorization
    endpoint, with what the network answered *)
Definition exchange (s : state) : event :=
  EvPost (url (auth_config s)) (token_request (auth_config s)) (next_reply s).

(** the token and lifetime a reply of the token endpoint grants, if
    [_refresh_token] accepts it *)
Definition granted (reply : option post_response) : option (string * Z) :=
  match reply with
  | Some r =>
      if is_error_status (post_status r) then None
      else match post_json r with
           | Some p =>
               match access_token p with
               | Some tk =>
                   if String.eqb tk "" then None
                   else Some (tk, match expires_in p with Some e => e | None => 300%Z end)
               | None => None
               end
           | None => None
           end
  | None => None
  end.

Lemma refresh_trace s :
  trace (snd (_refresh_token s)) = (trace s ++ [exchange s])%list.
Proof.
  unfold _refresh_token, exchange, next_reply, bind, requests_post.
  destruct (posts s) as [|[r|] rest]; simpl; try reflexivity.
  unfold raise_for_status. destruct (is_error_status (post_status r)); simpl; try reflexivity.
  destruct (post_json r) as [p|]; simpl; try reflexivity.
  destruct (present (access_token p)); simpl; reflexivity.
Qed.

Lemma present_Some tk : tk <> "" -> present (Some tk) = true.
Proof.
  intros H. simpl. destruct (String.eqb tk "") eqn:E; [|reflexivity].
  apply String.eqb_eq in E. contradiction.
Qed.

Lemma refresh_granted s tk lifetime :
  granted (next_reply s) = Some (tk, lifetime) ->
  _refresh_token s =
  (Ok tt,
   with_credential (Some tk)
     (clock s (ticks s) + inject_Z (Z.max (lifetime - 30) 30))
     (snd (time (log (exchange s) (with_posts (tl (posts s)) s))))).
Proof.
  unfold granted, exchange, next_reply.
  unfold _refresh_token, bind, requests_post, raise_for_status.
  destruct (posts s) as [|[r|] rest]; try discriminate. cbn.
  destruct (is_error_status (post_status r)); try discriminate.
  destruct (post_json r) as [p|]; try discriminate. cbn.
  destruct (access_token p) as [tk'|]; try discriminate. cbn.
  destruct (String.eqb tk' ""); try discriminate. cbn.
  intros H. inversion H; subst. reflexivity.
Qed.

Lemma refresh_refused s :
  granted (next_reply s) = None ->
  exists e, fst (_refresh_token s) = Raise e.
Proof.
  unfold granted, next_reply.
  unfold _refresh_token, bind, requests_post, raise_for_status.
  destruct (posts s) as [|[r|] rest]; cbn; try (eexists; reflexivity).
  destruct (is_error_status (post_status r)); cbn; try (eexists; reflexivity).
  destruct (post_json r) as [p|]; cbn; try (eexists; reflexivity).
  destruct (access_token p) as [tk'|]; cbn; try (eexists; reflexivity).
  destruct (String.eqb tk' ""); cbn; try discriminate; eexists; reflexivity.
Qed.

Lemma get_token_cached s tk :
  _token s = Some tk -> tk <> "" ->
  (clock s (ticks s) < _expiry_epoch s)%Q ->
  get_token s = (Ok (Some tk), snd (time s)).
Proof.
  intros Ht Hne Hlt. unfold get_token, bind, time, get_state. cbn.
  rewrite Ht. rewrite (present_Some _ Hne). cbn.
  destruct (Qle_bool (_expiry_epoch s) (clock s (ticks s))) eqn:E.
  - apply Qle_bool_iff in E. exfalso. apply (Qlt_not_le _ _ Hlt). exact E.
  - reflexivity.
Qed.

Lemma get_token_refreshes s :
  negb (present (_token s)) || Qle_bool (_expiry_epoch s) (clock s (ticks s)) = true ->
  trace (snd (get_token s)) = (trace s ++ [exchange s])%list.
Proof.
  intros H. unfold get_token, bind, time, get_state. cbn. rewrite H.
  match goal with |- context [_refresh_token ?s1] =>
    pose proof (refresh_trace s1) as T; destruct (_refresh_token s1) as [[[]|e] s2] end;
  cbn in *; exact T.
Qed.


(** ** Authentication rejections *)

Lemma get_token_cases s :
  (present (_token s) = true /\
   fst (get_token s) = Ok (_token s) /\
   trace (snd (get_token s)) = trace s) \/
  (trace (snd (get_token s)) = (trace s ++ [exchange s])%list /\
   match granted (next_reply s) with
   | Some (tk, _) => fst (get_token s) = Ok (Some tk)
   | None => exists e, fst (get_token s) = Raise e
   end).
Proof.
  destruct (negb (present (_token s)) || Qle_bool (_expiry_epoch s) (clock s (ticks s)))
    eqn:C.
  - right. split; [apply get_token_refreshes; exact C|].
    unfold get_token, bind, time, get_state. cbn. rewrite C.
    match goal with |- context [_refresh_token ?s1] => set (s0 := s1) end.
    change (granted (next_reply s)) with (granted (next_reply s0)).
    destruct (granted (next_reply s0)) as [[tk l]|] eqn:G.
    + rewrite (refresh_granted s0 tk l G). reflexivity.
    + destruct (refresh_refused s0 G) as (e & He).
      destruct (_refresh_token s0) as [[[]|e'] s2]; cbn in *; try discriminate.
      exists e'. reflexivity.
  - left. apply orb_false_iff in C as (C1 & C2).
    apply negb_false_iff in C1. split; [exact C1|].
    unfold get_token, bind, time, get_state. cbn. rewrite C1, C2. cbn.
    split; reflexivity.
Qed.

Lemma get_token_after_invalidate s :
  present (_token s) = false ->
  trace (snd (get_token s)) = (trace s ++ [exchange s])%list /\
  match granted (next_reply s) with
  | Some (tk, _) => fst (get_token s) = Ok (Some tk)
  | None => exists e, fst (get_token s) = Raise e
  end.
Proof.
  intros H. destruct (get_token_cases s) as [(C & _)|C]; [congruence | exact C].
Qed.

(** [session.get] leaves one event, and answers with the reply it names *)
Definition reply_result (reply : option response) : res response :=
  match reply with Some r => Ok r | None => Raise ConnectionError end.

Lemma session_get_cases to p a s :
  exists reply,
    fst (session_get to p a s) = reply_result reply /\
    trace (snd (session_get to p a s)) = (trace s ++ [EvGet to p a reply])%list /\
    _token (snd (session_get to p a s)) = _token s /\
    posts (snd (session_get to p a s)) = posts s /\
    auth_config (snd (session_get to p a s)) = auth_config s.
Proof.
  unfold session_get.
  destruct (gets s) as [|[r|] rest].
  - exists None. cbn. auto.
  - exists (Some r). cbn. auto.
  - exists None. cbn. auto.
Qed.

(** Where a fetch stands with respect to authentication rejections. *)
Inductive phase : Type :=
| Idle
| Rejected (to : string) (params : pydict)
| Invalidated (to : string) (params : pydict)
| Refreshed (to : string) (params : pydict) (tk : string)
| Fatal
| Lost.

(** the response is an authentication rejection *)
Definition rejected (reply : option response) : bool :=
  match reply with
  | Some r => (status_code r =? 401)%Z
  | None => false
  end.

(** What a fetch may do next: outside a rejection it exchanges tokens and
    sends requests freely; a rejected request must be followed by one
    invalidation, then one token exchange, then (if a token was granted) the
    same request once more with the new token; a second rejection, or a
    failed exchange, allows nothing further. *)
Inductive step : phase -> event -> phase -> Prop :=
| step_exchange to d reply :
    step Idle (EvPost to d reply) Idle
| step_request to p a reply :
    rejected reply = false ->
    step Idle (EvGet to p a reply) Idle
| step_rejected to p a reply :
    rejected reply = true ->
    step Idle (EvGet to p a reply) (Rejected to p)
| step_invalidate to p :
    step (Rejected to p) EvInvalidate (Invalidated to p)
| step_refresh to p u d reply tk lifetime :
    granted reply = Some (tk, lifetime) ->
    step (Invalidated to p) (EvPost u d reply) (Refreshed to p tk)
| step_refused to p u d reply :
    granted reply = None ->
    step (Invalidated to p) (EvPost u d reply) Lost
| step_retry to p tk reply :
    rejected reply = false ->
    step (Refreshed to p tk) (EvGet to p (bearer (Some tk)) reply) Idle
| step_rejected_again to p tk reply :
    rejected reply = true ->
    step (Refreshed to p tk) (EvGet to p (bearer (Some tk)) reply) Fatal.

Inductive run : phase -> list event -> phase -> Prop :=
| run_nil ph : run ph [] ph
| run_cons ph1 ev ph2 tr ph3 :
    step ph1 ev ph2 -> run ph2 tr ph3 -> run ph1 (ev :: tr) ph3.

Lemma run_app ph1 tr1 ph2 tr2 ph3 :
  run ph1 tr1 ph2 -> run ph2 tr2 ph3 -> run ph1 (tr1 ++ tr2)%list ph3.
Proof.
  induction 1; intros R; cbn; [exact R|].
  econstructor; eauto.
Qed.

Lemma run_one ph1 ev ph2 : step ph1 ev ph2 -> run ph1 [ev] ph2.
Proof. intros H. econstructor; [exact H | constructor]. Qed.

(** how a fetch that stops in phase [ph] has ended *)
Definition ended {A} (ph : phase) (r : res A) : Prop :=
  match ph with
  | Idle => True
  | Fatal => exists e, r = Raise e
  | Lost => exists e, r = Raise e
  | _ => False
  end.

(** [m] keeps the discipline: the events it adds form a run from [Idle] *)
Definition keeps_discipline {A} (m : M A) : Prop :=
  forall s r s', m s = (r, s') ->
  exists tr ph,
    trace s' = (trace s ++ tr)%list /\ run Idle tr ph /\ ended ph r.

(** the retry sequence, from a rejected request on *)
Lemma retry_run to params s r s' :
  bind invalidate (fun _ =>
    bind get_token (fun token => session_get to params (bearer token))) s = (r, s') ->
  exists tr ph,
    trace s' = (trace s ++ tr)%list /\
    run (Rejected to params) tr ph /\
    match r with
    | Ok resp => ph = if (status_code resp =? 401)%Z then Fatal else Idle
    | Raise _ => ph = Lost \/ ph = Idle
    end.
Proof.
  unfold bind, invalidate.
  remember (log EvInvalidate (with_credential None 0 s)) as s1 eqn:Hs1.
  assert (T1 : trace s1 = (trace s ++ [EvInvalidate])%list) by (subst s1; reflexivity).
  assert (P1 : present (_token s1) = false) by (subst s1; reflexivity).
  clear Hs1.
  destruct (get_token_after_invalidate s1 P1) as (T2 & G).
  destruct (get_token s1) as [[tok|e] s2] eqn:E; cbn [fst snd] in T2, G.
  - destruct (granted (next_reply s1)) as [[tk l]|] eqn:Gr;
      [| destruct G as (e & G); discriminate].
    inversion G; subst tok.
    destruct (session_get_cases to params (bearer (Some tk)) s2)
      as (reply & R & T3 & _).
    intros H. rewrite H in R, T3. cbn [fst snd] in R, T3. subst r.
    exists [EvInvalidate; exchange s1; EvGet to params (bearer (Some tk)) reply].
    destruct (rejected reply) eqn:Rej.
    + exists Fatal. split; [| split].
      * rewrite T3, T2, T1. rewrite <- !app_assoc. reflexivity.
      * econstructor; [constructor|]. econstructor; [eapply step_refresh; exact Gr|].
        apply run_one. apply step_rejected_again. exact Rej.
      * destruct reply as [resp|]; cbn in *; [rewrite Rej; reflexivity | discriminate].
    + exists Idle. split; [| split].
      * rewrite T3, T2, T1. rewrite <- !app_assoc. reflexivity.
      * econstructor; [constructor|]. econstructor; [eapply step_refresh; exact Gr|].
        apply run_one. apply step_retry. exact Rej.
      * destruct reply as [resp|]; cbn in *; [rewrite Rej; reflexivity | auto].
  - destruct (granted (next_reply s1)) as [[tk l]|] eqn:Gr; [discriminate|].
    intros H. inversion H; subst.
    exists [EvInvalidate; exchange s1], Lost. split; [| split].
    + rewrite T2, T1. rewrite <- !app_assoc. reflexivity.
    + econstructor; [constructor|]. apply run_one. apply step_refused. exact Gr.
    + auto.
Qed.

Lemma get_token_run s :
  exists tr,
    trace (snd (get_token s)) = (trace s ++ tr)%list /\ run Idle tr Idle.
Proof.
  destruct (get_token_cases s) as [(_ & _ & T)|(T & _)].
  - exists []. rewrite app_nil_r. split; [exact T | constructor].
  - exists [exchange s]. split; [exact T|]. apply run_one. constructor.
Qed.

(** what follows the requests in [fetch_json] adds no event *)
Lemma decode_trace to (resp : response) s r s' :
  bind (raise_for_status (status_code resp)) (fun _ =>
    match json resp with
    | Some v => ret v
    | None => raise (RuntimeError (JsonParseFailed to))
    end) s = (r, s') ->
  s' = s /\ (is_error_status (status_code resp) = true -> exists e, r = Raise e).
Proof.
  unfold bind, raise_for_status.
  destruct (is_error_status (status_code resp)); cbn.
  - intros H; inversion H; subst. split; eauto.
  - destruct (json resp); cbn; intros H; inversion H; subst; split; auto; discriminate.
Qed.

Lemma status_401_is_error z : (z =? 401)%Z = true -> is_error_status z = true.
Proof. intros H. apply Z.eqb_eq in H. subst. reflexivity. Qed.

(** [fetch_json]: a rejected request is retried once, as the discipline
    demands *)
Lemma fetch_json_discipline to params : keeps_discipline (fetch_json to params).
Proof.
  intros s r s' H. unfold fetch_json, do_request in H.
  unfold bind at 1 in H. unfold bind at 1 in H.
  destruct (get_token_run s) as (tr1 & T1 & R1).
  destruct (get_token s) as [[tok|e] s1]; cbn [fst snd] in T1.
  2:{ inversion H; subst. exists tr1, Idle; cbn; auto. }
  destruct (session_get_cases to params (bearer tok) s1) as (reply & R & T2 & _).
  destruct (session_get to params (bearer tok) s1) as [r1 s2]; cbn [fst snd] in R, T2.
  destruct reply as [resp|]; cbn in R; subst r1.
  2:{ inversion H; subst.
      exists (tr1 ++ [EvGet to params (bearer tok) None])%list, Idle.
      split; [rewrite T2, T1, <- app_assoc; reflexivity|].
      split; [|exact I]. eapply run_app; [exact R1|]. apply run_one. constructor. reflexivity. }
  unfold bind at 1 in H.
  destruct (status_code resp =? 401)%Z eqn:S401.
  - match type of H with
    | match ?m s2 with _ => _ end = _ => destruct (m s2) as [[r2|e2] s3] eqn:E
    end.
    + apply retry_run in E as (tr3 & ph & T3 & R3 & F).
      apply decode_trace in H as (-> & Err).
      exists (tr1 ++ [EvGet to params (bearer tok) (Some resp)] ++ tr3)%list, ph.
      split; [| split].
      * rewrite T3, T2, T1. rewrite <- !app_assoc. reflexivity.
      * eapply run_app; [exact R1|]. econstructor; [|exact R3].
        apply step_rejected. cbn. exact S401.
      * subst ph. destruct (status_code r2 =? 401)%Z eqn:S2; [|exact I].
        cbn. apply Err. apply status_401_is_error. exact S2.
    + apply retry_run in E as (tr3 & ph & T3 & R3 & F).
      inversion H; subst.
      exists (tr1 ++ [EvGet to params (bearer tok) (Some resp)] ++ tr3)%list, ph.
      split; [| split].
      * rewrite T3, T2, T1. rewrite <- !app_assoc. reflexivity.
      * eapply run_app; [exact R1|]. econstructor; [|exact R3].
        apply step_rejected. cbn. exact S401.
      * destruct F; subst ph; cbn; eauto.
  - cbn [ret] in H. apply decode_trace in H as (-> & _).
    exists (tr1 ++ [EvGet to params (bearer tok) (Some resp)])%list, Idle.
    split; [| split; [|exact I]].
    + rewrite T2, T1, <- app_assoc. reflexivity.
    + eapply run_app; [exact R1|]. apply run_one. constructor. cbn. exact S401.
Qed.

(** *** The loops, turn by turn *)

Lemma v1_loop_unfold to initial_params v s :
  v1_loop to initial_params v s =
  match v1_page to initial_params v s with
  | (Ok (Again v1), s1) => v1_loop to initial_params v1 s1
  | (Ok (Break aggregated_items), s1) => (Ok aggregated_items, s1)
  | (Raise e, s1) => (Raise e, s1)
  end.
Proof.
  funelim (v1_loop to initial_params v s);
    match goal with H : v1_page _ _ _ _ = _ |- _ => rewrite H end; reflexivity.
Qed.

Lemma v2_loop_unfold to v s :
  v2_loop to v s =
  match v2_page to v s with
  | (Ok (Again v1), s1) => v2_loop to v1 s1
  | (Ok (Break out), s1) => (Ok out, s1)
  | (Raise e, s1) => (Raise e, s1)
  end.
Proof.
  funelim (v2_loop to v s);
    match goal with H : v2_page _ _ _ = _ |- _ => rewrite H end; reflexivity.
Qed.

(** induction over the turns of a loop that uses up a reply at each turn *)
Section LoopInduction.
Context {V B : Type} (page : V -> M (turn V B)) (loop : V -> M B).
Hypothesis loop_unfold : forall v s,
  loop v s =
  match page v s with
  | (Ok (Again v1), s1) => loop v1 s1
  | (Ok (Break b), s1) => (Ok b, s1)
  | (Raise e, s1) => (Raise e, s1)
  end.
Hypothesis page_Ok : forall v s t s',
  page v s = (Ok t, s') -> (List.length (gets s') < List.length (gets s))%nat.
Variable P : V -> state -> res B -> state -> Prop.
Hypothesis at_break : forall v s b s1,
  page v s = (Ok (Break b), s1) -> P v s (Ok b) s1.
Hypothesis at_raise : forall v s e s1,
  page v s = (Raise e, s1) -> P v s (Raise e) s1.
Hypothesis at_again : forall v s v1 s1 r s',
  page v s = (Ok (Again v1), s1) -> loop v1 s1 = (r, s') ->
  P v1 s1 r s' -> P v s r s'.

Lemma loop_induction v s r s' : loop v s = (r, s') -> P v s r s'.
Proof.
  remember (List.length (gets s)) as n eqn:Hn.
  revert v s r s' Hn.
  induction n as [n IH] using lt_wf_ind. intros v s r s' Hn H.
  rewrite loop_unfold in H.
  destruct (page v s) as [[[v1|b]|e] s1] eqn:E.
  - eapply at_again; [exact E | exact H |].
    eapply (IH (List.length (gets s1))); [|reflexivity | exact H].
    subst n. eapply page_Ok. exact E.
  - inversion H; subst. apply at_break. exact E.
  - inversion H; subst. apply at_raise. exact E.
Qed.
End LoopInduction.

Lemma ended_Ok {A} ph (a : A) : ended ph (Ok a) -> ph = Idle.
Proof.
  destruct ph; cbn; try tauto; intros (e & H); discriminate.
Qed.

Lemma loop_discipline {V B} (page : V -> M (turn V B)) (loop : V -> M B) :
  (forall v s,
     loop v s =
     match page v s with
     | (Ok (Again v1), s1) => loop v1 s1
     | (Ok (Break b), s1) => (Ok b, s1)
     | (Raise e, s1) => (Raise e, s1)
     end) ->
  (forall v s t s',
     page v s = (Ok t, s') -> (List.length (gets s') < List.length (gets s))%nat) ->
  (forall v, keeps_discipline (page v)) ->
  forall v, keeps_discipline (loop v).
Proof.
  intros U D K v s r s' H.
  revert v s r s' H.
  apply (loop_induction page loop U D
           (fun v s r s' => exists tr ph,
              trace s' = (trace s ++ tr)%list /\ run Idle tr ph /\ ended ph r)).
  - intros v s b s1 E. destruct (K v s _ _ E) as (tr & ph & T & R & F).
    apply ended_Ok in F. subst ph. exists tr, Idle. cbn. auto.
  - intros v s e s1 E. destruct (K v s _ _ E) as (tr & ph & T & R & F).
    exists tr, ph. split; [exact T|]. split; [exact R|].
    destruct ph; cbn in *; eauto.
  - intros v s v1 s1 r s' E _ (tr2 & ph2 & T2 & R2 & F2).
    destruct (K v s _ _ E) as (tr & ph & T & R & F).
    apply ended_Ok in F. subst ph.
    exists (tr ++ tr2)%list, ph2. split; [|split; [|exact F2]].
    + rewrite T2, T, app_assoc. reflexivity.
    + eapply run_app; eassumption.
Qed.

(** the part of a turn of [fetch_paginated_entities] after [fetch_json] *)
Definition v2_rest (v : v2_vars) (response : pyval)
    : M (turn v2_vars (list pyval * option pydict)) :=
  match response with
  | PDict r =>
      let meta := match v2_meta v with
                  | None => Some (filter (fun kv => is_meta_key (fst kv)) r)
                  | Some m => Some m
                  end in
      bind (lift (py_iter (get_or "entities" (PList []) r))) (fun page =>
      let aggregated_entities := (v2_aggregated_entities v ++ page)%list in
      let next_key := get "nextPageKey" r in
      if truthy next_key
      then ret (Again {| v2_aggregated_entities := aggregated_entities;
                         v2_meta := meta;
                         v2_params := [(PStr "nextPageKey", next_key)] |})
      else ret (Break (aggregated_entities, meta)))
  | _ => raise AttributeError
  end.

Lemma v2_page_split to v : v2_page to v = bind (fetch_json to (v2_params v)) (v2_rest v).
Proof. reflexivity. Qed.

Lemma v2_rest_state v response s : snd (v2_rest v response s) = s.
Proof.
  unfold v2_rest. destruct response; try reflexivity.
  unfold bind, lift. destruct (py_iter _); cbn; [|reflexivity].
  destruct (truthy _); reflexivity.
Qed.

Lemma v2_page_discipline to v : keeps_discipline (v2_page to v).
Proof.
  intros s r s' H. rewrite v2_page_split in H. unfold bind in H.
  destruct (fetch_json to (v2_params v) s) as [[resp|e] s1] eqn:E.
  - destruct (fetch_json_discipline _ _ _ _ _ E) as (tr & ph & T & R & F).
    apply ended_Ok in F. subst ph.
    pose proof (v2_rest_state v resp s1) as St. rewrite H in St. cbn in St. subst s'.
    exists tr, Idle. cbn. auto.
  - inversion H; subst.
    destruct (fetch_json_discipline _ _ _ _ _ E) as (tr & ph & T & R & F).
    exists tr, ph. split; [exact T|]. split; [exact R|].
    destruct ph; cbn in *; eauto.
Qed.

(** the part of a turn of [fetch_paginated_v1] after the request and its
    possible retry *)
Definition v1_rest (to : string) (initial_params : pydict) (v : v1_vars)
    (rh : response * string) : M (turn v1_vars (list pyval)) :=
  let response := fst rh in
  let headers := snd rh in
  bind (if is_error_status (status_code response)
        then raise (RuntimeError (RequestFailed to (status_code response) (text response)))
        else ret tt) (fun _ =>
  bind (match json response with
        | Some v => ret v
        | None => raise (RuntimeError (JsonParseFailed to))
        end) (fun page_data =>
  let aggregated_items :=
    match page_data with
    | PList l => (v1_aggregated_items v ++ l)%list
    | _ => (v1_aggregated_items v ++ [page_data])%list
    end in
  match next_page_key response with
  | Some key =>
      if present (Some key)
      then ret (Again {| v1_aggregated_items := aggregated_items;
                         v1_params := dict_set (PStr "nextPageKey") (PStr key) initial_params;
                         v1_headers := headers |})
      else ret (Break aggregated_items)
  | None => ret (Break aggregated_items)
  end)).

Definition v1_retry (to : string) (v : v1_vars) (resp : response)
    : M (response * string) :=
  if (status_code resp =? 401)%Z
  then bind invalidate (fun _ =>
       bind get_token (fun token =>
       let headers := bearer token in
       bind (session_get to (v1_params v) headers) (fun resp1 =>
       ret (resp1, headers))))
  else ret (resp, v1_headers v).

Lemma v1_page_split to initial_params v :
  v1_page to initial_params v =
  bind (session_get to (v1_params v) (v1_headers v)) (fun response =>
  bind (v1_retry to v response) (v1_rest to initial_params v)).
Proof. reflexivity. Qed.

Lemma v1_rest_state to initial_params v rh s :
  snd (v1_rest to initial_params v rh s) = s /\
  (is_error_status (status_code (fst rh)) = true ->
   exists e, fst (v1_rest to initial_params v rh s) = Raise e).
Proof.
  unfold v1_rest, bind.
  destruct (is_error_status (status_code (fst rh))); cbn; [eauto|].
  split; [|discriminate].
  destruct (json (fst rh)); cbn; [|reflexivity].
  destruct (next_page_key (fst rh)) as [key|]; [|reflexivity].
  destruct (negb (String.eqb key "")); reflexivity.
Qed.

(** the retry of [fetch_paginated_v1] is the retry of [fetch_json], with
    the new header remembered *)
Lemma v1_retry_as_fetch_json to params s r s' :
  bind invalidate (fun _ =>
    bind get_token (fun token =>
    let headers := bearer token in
    bind (session_get to params headers) (fun response =>
    ret (response, headers)))) s = (r, s') ->
  bind invalidate (fun _ =>
    bind get_token (fun token => session_get to params (bearer token))) s =
  (match r with Ok rh => Ok (fst rh) | Raise e => Raise e end, s').
Proof.
  unfold bind, invalidate.
  destruct (get_token _) as [[tok|e] s1]; [|intros H; inversion H; reflexivity].
  cbn zeta. destruct (session_get _ _ _ s1) as [[resp|e] s2];
    intros H; inversion H; reflexivity.
Qed.

Lemma v1_page_discipline to initial_params v :
  keeps_discipline (v1_page to initial_params v).
Proof.
  intros s r s' H. rewrite v1_page_split in H. unfold bind at 1 in H.
  destruct (session_get_cases to (v1_params v) (v1_headers v) s) as (reply & R & T1 & _).
  destruct (session_get to (v1_params v) (v1_headers v) s) as [r1 s1];
    cbn [fst snd] in R, T1.
  destruct reply as [resp|]; cbn in R; subst r1.
  2:{ inversion H; subst. exists [EvGet to (v1_params v) (v1_headers v) None], Idle.
      split; [exact T1|]. split; [|exact I]. apply run_one. constructor. reflexivity. }
  unfold bind at 1, v1_retry in H.
  destruct (status_code resp =? 401)%Z eqn:S401.
  - match type of H with
    | match ?m s1 with _ => _ end = _ => destruct (m s1) as [r2 s2] eqn:E
    end.
    apply v1_retry_as_fetch_json in E.
    apply retry_run in E as (tr3 & ph & T3 & R3 & F).
    exists (EvGet to (v1_params v) (v1_headers v) (Some resp) :: tr3), ph.
    destruct r2 as [rh|e2].
    + destruct (v1_rest_state to initial_params v rh s2) as (St & Err).
      rewrite H in St, Err. cbn [fst snd] in St, Err. subst s'.
      split; [| split].
      * rewrite T3, T1, <- app_assoc. reflexivity.
      * econstructor; [|exact R3]. apply step_rejected. cbn. exact S401.
      * subst ph. destruct (status_code (fst rh) =? 401)%Z eqn:S2; [|exact I].
        cbn. apply Err. apply status_401_is_error. exact S2.
    + inversion H; subst.
      split; [| split].
      * rewrite T3, T1, <- app_assoc. reflexivity.
      * econstructor; [|exact R3]. apply step_rejected. cbn. exact S401.
      * destruct F; subst ph; cbn; eauto.
  - cbn [ret] in H.
    destruct (v1_rest_state to initial_params v (resp, v1_headers v) s1) as (St & _).
    rewrite H in St. cbn [fst snd] in St. subst s'.
    exists [EvGet to (v1_params v) (v1_headers v) (Some resp)], Idle.
    split; [exact T1|]. split; [|exact I].
    apply run_one. constructor. cbn. exact S401.
Qed.

Lemma bind_discipline {A B} (m : M A) (k : A -> M B) :
  keeps_discipline m -> (forall a, keeps_discipline (k a)) ->
  keeps_discipline (bind m k).
Proof.
  intros Hm Hk s r s' H. unfold bind in H.
  destruct (m s) as [[a|e] s1] eqn:E.
  - destruct (Hm _ _ _ E) as (tr1 & ph1 & T1 & R1 & F1).
    apply ended_Ok in F1. subst ph1.
    destruct (Hk a _ _ _ H) as (tr2 & ph2 & T2 & R2 & F2).
    exists (tr1 ++ tr2)%list, ph2. split; [|split; [|exact F2]].
    + rewrite T2, T1, app_assoc. reflexivity.
    + eapply run_app; eassumption.
  - inversion H; subst.
    destruct (Hm _ _ _ E) as (tr1 & ph1 & T1 & R1 & F1).
    exists tr1, ph1. split; [exact T1|]. split; [exact R1|].
    destruct ph1; cbn in *; eauto.
Qed.

Lemma get_token_discipline : keeps_discipline get_token.
Proof.
  intros s r s' H. destruct (get_token_run s) as (tr & T & R).
  rewrite H in T. exists tr, Idle. cbn. auto.
Qed.

Lemma ret_discipline {A} (a : A) : keeps_discipline (ret a).
Proof.
  intros s r s' H. inversion H; subst. exists [], Idle.
  rewrite app_nil_r. split; [reflexivity|]. split; [constructor | exact I].
Qed.

(** C2. In both paginated fetches, the events of a whole fetch follow the
    retry discipline of [step]: every request answered 401 is followed by
    exactly one [invalidate], then one token exchange, then (a token being
    granted) the same request, to the same URL with the same parameters,
    once more under the new token; when that retry is answered 401 too,
    nothing further is sent and the fetch ends by raising. *)
Theorem auth_rejection_retried_once :
  (forall base_url initial_params,
     keeps_discipline (fetch_paginated_entities base_url initial_params)) /\
  (forall to initial_params,
     keeps_discipline (fetch_paginated_v1 to initial_params)).
Proof.
  split.
  - intros base_url initial_params. unfold fetch_paginated_entities.
    apply bind_discipline; [| intros a; apply ret_discipline].
    apply (loop_discipline (v2_page (base_url ++ "/" ++ V2_ENTITIES_PATH))
                           (v2_loop (base_url ++ "/" ++ V2_ENTITIES_PATH))).
    + intros v s. apply v2_loop_unfold.
    + intros v s t s'. apply v2_page_Ok.
    + intros v. apply v2_page_discipline.
  - intros to initial_params. unfold fetch_paginated_v1.
    apply bind_discipline; [apply get_token_discipline|]. intros token.
    apply (loop_discipline (v1_page to initial_params) (v1_loop to initial_params)).
    + intros v s. apply v1_loop_unfold.
    + intros v s t s'. apply v1_page_Ok.
    + intros v. apply v1_page_discipline.
Qed.

(** ** The requests of a page *)

(** the events of one page request: the request, and when it is rejected
    the retry sequence; with the reply the page is then read from *)
Inductive attempt (to : string) (params : pydict)
    : list event -> option response -> Prop :=
| attempt_plain a reply :
    rejected reply = false ->
    attempt to params [EvGet to params a reply] reply
| attempt_retry a reply u d granting tk lifetime reply2 :
    rejected reply = true ->
    granted granting = Some (tk, lifetime) ->
    attempt to params
      [EvGet to params a reply; EvInvalidate; EvPost u d granting;
       EvGet to params (bearer (Some tk)) reply2] reply2
| attempt_lost a reply u d refusing :
    rejected reply = true ->
    granted refusing = None ->
    attempt to params
      [EvGet to params a reply; EvInvalidate; EvPost u d refusing] None.

Lemma retry_shape to params s r s' :
  bind invalidate (fun _ =>
    bind get_token (fun token => session_get to params (bearer token))) s = (r, s') ->
  exists u d preply,
    (exists tk lifetime reply2,
       granted preply = Some (tk, lifetime) /\
       trace s' = (trace s ++ [EvInvalidate; EvPost u d preply;
                               EvGet to params (bearer (Some tk)) reply2])%list /\
       r = reply_result reply2) \/
    (granted preply = None /\
     trace s' = (trace s ++ [EvInvalidate; EvPost u d preply])%list /\
     exists e, r = Raise e).
Proof.
  unfold bind, invalidate. intros H.
  remember (log EvInvalidate (with_credential None 0 s)) as s1 eqn:Hs1.
  assert (T1 : trace s1 = (trace s ++ [EvInvalidate])%list) by (subst s1; reflexivity).
  assert (P1 : present (_token s1) = false) by (subst s1; reflexivity).
  clear Hs1.
  destruct (get_token_after_invalidate s1 P1) as (T2 & G).
  exists (url (auth_config s1)), (token_request (auth_config s1)), (next_reply s1).
  fold (exchange s1).
  destruct (get_token s1) as [[tok|e] s2] eqn:E; cbn [fst snd] in T2, G, H.
  - destruct (granted (next_reply s1)) as [[tk l]|] eqn:Gr;
      [| destruct G as (e & G); discriminate].
    inversion G; subst tok.
    destruct (session_get_cases to params (bearer (Some tk)) s2)
      as (reply & R & T3 & _).
    rewrite H in R, T3. cbn [fst snd] in R, T3. subst r.
    left. exists tk, l, reply. split; [reflexivity|]. split; [|reflexivity].
    rewrite T3, T2, T1. rewrite <- !app_assoc. reflexivity.
  - destruct (granted (next_reply s1)) as [[tk l]|] eqn:Gr; [discriminate|].
    inversion H; subst.
    right. split; [reflexivity|]. split; [|eauto].
    rewrite T2, T1. rewrite <- !app_assoc. reflexivity.
Qed.

(** events that are no request *)
Definition no_get (tr : list event) : Prop :=
  Forall (fun ev => match ev with EvGet _ _ _ _ => False | _ => True end) tr.

Lemma get_token_no_get s :
  exists tr, trace (snd (get_token s)) = (trace s ++ tr)%list /\ no_get tr.
Proof.
  destruct (get_token_cases s) as [(_ & _ & T)|(T & _)].
  - exists []. rewrite app_nil_r. split; [exact T | constructor].
  - exists [exchange s]. split; [exact T|]. repeat constructor.
Qed.

(** the reply a successful page was decoded from *)
Definition decoded (final : option response) (v : pyval) : Prop :=
  exists resp, final = Some resp /\ json resp = Some v /\
               is_error_status (status_code resp) = false.

Lemma fetch_json_shape to params s r s' :
  fetch_json to params s = (r, s') ->
  exists pre tr,
    trace s' = (trace s ++ pre ++ tr)%list /\ no_get pre /\
    match r with
    | Ok v => exists final, attempt to params tr final /\ decoded final v
    | Raise _ => tr = [] \/ exists final, attempt to params tr final
    end.
Proof.
  intros H. unfold fetch_json, do_request in H.
  unfold bind at 1 in H. unfold bind at 1 in H.
  destruct (get_token_no_get s) as (pre & T1 & N1).
  destruct (get_token s) as [[tok|e] s1]; cbn [fst snd] in T1.
  2:{ inversion H; subst. exists pre, []. rewrite app_nil_r. auto. }
  destruct (session_get_cases to params (bearer tok) s1) as (reply & R & T2 & _).
  destruct (session_get to params (bearer tok) s1) as [r1 s2]; cbn [fst snd] in R, T2.
  destruct reply as [resp|]; cbn in R; subst r1.
  2:{ inversion H; subst. exists pre, [EvGet to params (bearer tok) None].
      split; [rewrite T2, T1, <- app_assoc; reflexivity|]. split; [exact N1|].
      right. exists None. constructor. reflexivity. }
  unfold bind at 1 in H.
  destruct (status_code resp =? 401)%Z eqn:S401.
  - match type of H with
    | match ?m s2 with _ => _ end = _ => destruct (m s2) as [r2 s3] eqn:E
    end.
    apply retry_shape in E as (u & d & preply & [(tk & l & reply2 & G & T3 & R2)|(G & T3 & e & R2)]).
    + exists pre, [EvGet to params (bearer tok) (Some resp); EvInvalidate;
                   EvPost u d preply; EvGet to params (bearer (Some tk)) reply2].
      assert (A : attempt to params
                [EvGet to params (bearer tok) (Some resp); EvInvalidate;
                 EvPost u d preply; EvGet to params (bearer (Some tk)) reply2] reply2)
        by (econstructor; [exact S401 | exact G]).
      subst r2. destruct reply2 as [resp2|]; cbn in H.
      * pose proof H as H'. apply decode_trace in H' as (-> & _).
        split; [rewrite T3, T2, T1, <- !app_assoc; reflexivity|]. split; [exact N1|].
        unfold bind, raise_for_status in H.
        destruct (is_error_status (status_code resp2)) eqn:Er; cbn in H.
        { inversion H; subst. right. eauto. }
        destruct (json resp2) eqn:J; cbn in H; inversion H; subst.
        { exists (Some resp2). split; [exact A|]. exists resp2. auto. }
        { right. eauto. }
      * inversion H; subst.
        split; [rewrite T3, T2, T1, <- !app_assoc; reflexivity|]. split; [exact N1|].
        right. eauto.
    + subst r2. inversion H; subst.
      exists pre, [EvGet to params (bearer tok) (Some resp); EvInvalidate; EvPost u d preply].
      split; [rewrite T3, T2, T1, <- !app_assoc; reflexivity|]. split; [exact N1|].
      right. exists None. econstructor; [exact S401 | exact G].
  - cbn [ret] in H. pose proof H as H'. apply decode_trace in H' as (-> & _).
    exists pre, [EvGet to params (bearer tok) (Some resp)].
    split; [rewrite T2, T1, <- app_assoc; reflexivity|]. split; [exact N1|].
    assert (A : attempt to params [EvGet to params (bearer tok) (Some resp)] (Some resp))
      by (constructor; exact S401).
    unfold bind, raise_for_status in H.
    destruct (is_error_status (status_code resp)) eqn:Er; cbn in H.
    { inversion H; subst. right. eauto. }
    destruct (json resp) eqn:J; cbn in H; inversion H; subst.
    { exists (Some resp). split; [exact A|]. exists resp. auto. }
    { right. eauto. }
Qed.

Lemma v1_page_shape to initial_params v s r s' :
  v1_page to initial_params v s = (r, s') ->
  exists tr final,
    trace s' = (trace s ++ tr)%list /\ attempt to (v1_params v) tr final /\
    forall t, r = Ok t ->
      exists resp page_data headers,
        final = Some resp /\ json resp = Some page_data /\
        is_error_status (status_code resp) = false /\
        v1_rest to initial_params v (resp, headers) s' = (Ok t, s').
Proof.
  intros H. rewrite v1_page_split in H. unfold bind at 1 in H.
  destruct (session_get_cases to (v1_params v) (v1_headers v) s) as (reply & R & T1 & _).
  destruct (session_get to (v1_params v) (v1_headers v) s) as [r1 s1];
    cbn [fst snd] in R, T1.
  destruct reply as [resp|]; cbn in R; subst r1.
  2:{ inversion H; subst. exists [EvGet to (v1_params v) (v1_headers v) None], None.
      split; [exact T1|]. split; [constructor; reflexivity | discriminate]. }
  unfold bind at 1, v1_retry in H.
  assert (Rest : forall rh t, v1_rest to initial_params v rh s' = (Ok t, s') ->
            exists page_data, json (fst rh) = Some page_data /\
                              is_error_status (status_code (fst rh)) = false).
  { intros rh t. unfold v1_rest, bind.
    destruct (is_error_status (status_code (fst rh))); cbn; [discriminate|].
    destruct (json (fst rh)); cbn; [eauto | discriminate]. }
  destruct (status_code resp =? 401)%Z eqn:S401.
  - match type of H with
    | match ?m s1 with _ => _ end = _ => destruct (m s1) as [r2 s2] eqn:E
    end.
    apply v1_retry_as_fetch_json in E.
    apply retry_shape in E as (u & d & preply & [(tk & l & reply2 & G & T3 & R2)|(G & T3 & e & R2)]).
    + exists [EvGet to (v1_params v) (v1_headers v) (Some resp); EvInvalidate;
              EvPost u d preply; EvGet to (v1_params v) (bearer (Some tk)) reply2], reply2.
      assert (St : s' = s2).
      { destruct r2 as [rh|e2]; [|inversion H; reflexivity].
        pose proof (proj1 (v1_rest_state to initial_params v rh s2)) as St.
        rewrite H in St. exact St. }
      subst s2.
      split; [rewrite T3, T1, <- app_assoc; reflexivity|].
      split; [econstructor; [exact S401 | exact G]|].
      intros t ->. destruct r2 as [[resp2 h]|e2]; [|discriminate].
      destruct reply2 as [resp2'|]; cbn in R2; inversion R2; subst resp2'.
      destruct (Rest _ _ H) as (page_data & J & Er). cbn in J, Er.
      exists resp2, page_data, h. auto.
    + destruct r2 as [rh|e2]; [discriminate|]. inversion H; subst.
      exists [EvGet to (v1_params v) (v1_headers v) (Some resp); EvInvalidate;
              EvPost u d preply], None.
      split; [rewrite T3, T1, <- app_assoc; reflexivity|].
      split; [econstructor; [exact S401 | exact G] | discriminate].
  - cbn [ret] in H.
    pose proof (proj1 (v1_rest_state to initial_params v (resp, v1_headers v) s1)) as St.
    rewrite H in St. cbn [snd] in St. subst s1.
    exists [EvGet to (v1_params v) (v1_headers v) (Some resp)], (Some resp).
    split; [exact T1|]. split; [constructor; exact S401|].
    intros t ->. destruct (Rest _ _ H) as (page_data & J & Er). cbn in J, Er.
    exists resp, page_data, (v1_headers v). auto.
Qed.

(** ** The parameters of continuation requests *)

Section Follow.
(** [next expected reply]: the parameters the protocol dictates for the
    requests after [reply], [expected] being those of the request it
    answers *)
Variable next : pydict -> option response -> pydict.

(** every request of the trace carries the parameters dictated so far *)
Fixpoint follows (expected : pydict) (tr : list event) : Prop :=
  match tr with
  | [] => True
  | EvGet _ params _ reply :: tr' =>
      params = expected /\ follows (next expected reply) tr'
  | _ :: tr' => follows expected tr'
  end.

Fixpoint after (expected : pydict) (tr : list event) : pydict :=
  match tr with
  | [] => expected
  | EvGet _ _ _ reply :: tr' => after (next expected reply) tr'
  | _ :: tr' => after expected tr'
  end.

Lemma follows_app expected tr1 tr2 :
  follows expected tr1 -> follows (after expected tr1) tr2 ->
  follows expected (tr1 ++ tr2)%list.
Proof.
  revert expected. induction tr1 as [|ev tr1 IH]; intros expected; cbn; [auto|].
  destruct ev; cbn; auto. intros (-> & F1) F2. split; [reflexivity|]. auto.
Qed.

Lemma after_app expected tr1 tr2 :
  after expected (tr1 ++ tr2)%list = after (after expected tr1) tr2.
Proof.
  revert expected. induction tr1 as [|ev tr1 IH]; intros expected; cbn; [auto|].
  destruct ev; cbn; auto.
Qed.

Lemma follows_no_get expected tr :
  no_get tr -> follows expected tr /\ after expected tr = expected.
Proof.
  induction 1 as [|ev tr Hev _ IH]; cbn; [auto|].
  destruct ev; cbn; tauto.
Qed.

Hypothesis next_rejected : forall expected reply,
  rejected reply = true -> next expected reply = expected.
Hypothesis next_None : forall expected, next expected None = expected.

Lemma follows_attempt to params tr final :
  attempt to params tr final ->
  follows params tr /\ after params tr = next params final.
Proof.
  destruct 1; cbn.
  - auto.
  - rewrite (next_rejected _ _ H). auto.
  - rewrite (next_rejected _ _ H). rewrite next_None. auto.
Qed.
End Follow.

(** protocol A: the initial parameters, with the cursor of the page just
    read *)
Definition next_params_v1 (initial_params expected : pydict)
    (reply : option response) : pydict :=
  match reply with
  | Some r =>
      if (status_code r =? 401)%Z then expected
      else match next_page_key r with
           | Some key => dict_set (PStr "nextPageKey") (PStr key) initial_params
           | None => expected
           end
  | None => expected
  end.

(** protocol B: the cursor of the page just read, and nothing else *)
Definition next_params_v2 (expected : pydict) (reply : option response) : pydict :=
  match reply with
  | Some r =>
      if (status_code r =? 401)%Z then expected
      else match json r with
           | Some (PDict body) =>
               if truthy (get "nextPageKey" body)
               then [(PStr "nextPageKey", get "nextPageKey" body)]
               else expected
           | _ => expected
           end
  | None => expected
  end.

Lemma not_error_not_401 z : is_error_status z = false -> (z =? 401)%Z = false.
Proof.
  intros H. destruct (z =? 401)%Z eqn:E; [|reflexivity].
  apply status_401_is_error in E. congruence.
Qed.

Lemma next_v1_rejected initial_params expected reply :
  rejected reply = true -> next_params_v1 initial_params expected reply = expected.
Proof. destruct reply as [r|]; cbn; [intros ->; reflexivity | reflexivity]. Qed.

Lemma next_v2_rejected expected reply :
  rejected reply = true -> next_params_v2 expected reply = expected.
Proof. destruct reply as [r|]; cbn; [intros ->; reflexivity | reflexivity]. Qed.

Lemma v1_loop_follows to initial_params v s r s' :
  v1_loop to initial_params v s = (r, s') ->
  exists tr, trace s' = (trace s ++ tr)%list /\
             follows (next_params_v1 initial_params) (v1_params v) tr.
Proof.
  revert v s r s'.
  apply (loop_induction (v1_page to initial_params) (v1_loop to initial_params)
           (v1_loop_unfold to initial_params) (v1_page_Ok to initial_params)
           (fun v s r s' => exists tr, trace s' = (trace s ++ tr)%list /\
              follows (next_params_v1 initial_params) (v1_params v) tr)).
  - intros v s b s1 E. apply v1_page_shape in E as (tr & final & T & A & _).
    exists tr. split; [exact T|].
    eapply follows_attempt; [apply next_v1_rejected | reflexivity | exact A].
  - intros v s e s1 E. apply v1_page_shape in E as (tr & final & T & A & _).
    exists tr. split; [exact T|].
    eapply follows_attempt; [apply next_v1_rejected | reflexivity | exact A].
  - intros v s v1 s1 r s' E _ (tr2 & T2 & F2).
    apply v1_page_shape in E as (tr & final & T & A & K).
    destruct (K _ eq_refl) as (resp & page_data & headers & -> & J & Er & Rest).
    exists (tr ++ tr2)%list. split; [rewrite T2, T, app_assoc; reflexivity|].
    destruct (follows_attempt (next_params_v1 initial_params)
                (next_v1_rejected initial_params) (fun _ => eq_refl) _ _ _ _ A) as (F1 & Af).
    apply follows_app; [exact F1|]. rewrite Af.
    replace (next_params_v1 initial_params (v1_params v) (Some resp)) with (v1_params v1);
      [exact F2|].
    unfold v1_rest, bind in Rest. cbn [fst snd] in Rest.
    rewrite Er, J in Rest. cbn in Rest.
    unfold next_params_v1. rewrite (not_error_not_401 _ Er).
    destruct (next_page_key resp) as [key|]; [|discriminate].
    destruct (negb (String.eqb key "")); inversion Rest. reflexivity.
Qed.

Lemma v2_page_shape to v s r s' :
  v2_page to v s = (r, s') ->
  exists pre tr,
    trace s' = (trace s ++ pre ++ tr)%list /\ no_get pre /\
    match r with
    | Ok t => exists final response,
        attempt to (v2_params v) tr final /\ decoded final response /\
        v2_rest v response s' = (Ok t, s')
    | Raise _ => tr = [] \/ exists final, attempt to (v2_params v) tr final
    end.
Proof.
  intros H. rewrite v2_page_split in H. unfold bind in H.
  destruct (fetch_json to (v2_params v) s) as [[response|e] s1] eqn:E;
    apply fetch_json_shape in E as (pre & tr & T & N & K).
  - pose proof (v2_rest_state v response s1) as St. rewrite H in St. cbn in St. subst s1.
    exists pre, tr. split; [exact T|]. split; [exact N|].
    destruct K as (final & A & D).
    destruct r as [t|e]; [exists final, response; auto | right; eauto].
  - inversion H; subst. exists pre, tr. auto.
Qed.

Lemma v2_loop_follows to v s r s' :
  v2_loop to v s = (r, s') ->
  exists tr, trace s' = (trace s ++ tr)%list /\
             follows next_params_v2 (v2_params v) tr.
Proof.
  revert v s r s'.
  assert (Page : forall v s r s1, v2_page to v s = (r, s1) ->
            exists tr, trace s1 = (trace s ++ tr)%list /\
              follows next_params_v2 (v2_params v) tr /\
              forall v1, r = Ok (Again v1) ->
                after next_params_v2 (v2_params v) tr = v2_params v1).
  { intros v s r s1 E. apply v2_page_shape in E as (pre & tr & T & N & K).
    exists (pre ++ tr)%list. split; [exact T|].
    destruct (follows_no_get next_params_v2 (v2_params v) pre N) as (F0 & A0).
    assert (At : forall final, attempt to (v2_params v) tr final ->
              follows next_params_v2 (v2_params v) (pre ++ tr) /\
              after next_params_v2 (v2_params v) (pre ++ tr) =
              next_params_v2 (v2_params v) final).
    { intros final A.
      destruct (follows_attempt next_params_v2 next_v2_rejected (fun _ => eq_refl) _ _ _ _ A)
        as (F1 & A1).
      split; [apply follows_app; [exact F0 | rewrite A0; exact F1]|].
      rewrite after_app, A0. exact A1. }
    destruct r as [t|e].
    - destruct K as (final & response & A & (resp & -> & J & Er) & Rest).
      destruct (At _ A) as (F & Af). split; [exact F|].
      intros v1 Heq. inversion Heq; subst t. rewrite Af.
      unfold next_params_v2. rewrite (not_error_not_401 _ Er), J.
      unfold v2_rest in Rest. destruct response; try discriminate.
      unfold bind, lift in Rest. destruct (py_iter _); [|discriminate]. cbn in Rest.
      destruct (truthy (get "nextPageKey" d)); inversion Rest. reflexivity.
    - split; [|discriminate].
      destruct K as [-> | (final & A)]; [rewrite app_nil_r; exact F0 | apply (At _ A)]. }
  apply (loop_induction (v2_page to) (v2_loop to) (v2_loop_unfold to) (v2_page_Ok to)
           (fun v s r s' => exists tr, trace s' = (trace s ++ tr)%list /\
              follows next_params_v2 (v2_params v) tr)).
  - intros v s b s1 E. apply Page in E as (tr & T & F & _). eauto.
  - intros v s e s1 E. apply Page in E as (tr & T & F & _). eauto.
  - intros v s v1 s1 r s' E _ (tr2 & T2 & F2).
    apply Page in E as (tr & T & F & K).
    exists (tr ++ tr2)%list. split; [rewrite T2, T, app_assoc; reflexivity|].
    apply follows_app; [exact F|]. rewrite (K _ eq_refl). exact F2.
Qed.

(** C4. In a fetch session every request carries the parameters the
    protocol dictates at that point ([follows]): the initial parameters up
    to the first page; then, under protocol A, the initial parameters with
    [nextPageKey] set to the cursor of the page just read (never the
    parameters of the previous request), and under protocol B the single
    parameter [nextPageKey] holding the cursor of the page just read; a
    retried request repeats the parameters of the rejected one. *)
Theorem continuation_parameters :
  (forall to initial_params s,
     exists tr,
       trace (snd (fetch_paginated_v1 to initial_params s)) = (trace s ++ tr)%list /\
       follows (next_params_v1 initial_params) initial_params tr) /\
  (forall base_url initial_params s,
     exists tr,
       trace (snd (fetch_paginated_entities base_url initial_params s)) = (trace s ++ tr)%list /\
       follows next_params_v2 initial_params tr).
Proof.
  split.
  - intros to initial_params s. unfold fetch_paginated_v1, bind.
    destruct (get_token_no_get s) as (pre & T0 & N0).
    destruct (follows_no_get (next_params_v1 initial_params) initial_params pre N0) as (F0 & A0).
    destruct (get_token s) as [[token|e] s1]; cbn [fst snd] in *.
    + match goal with |- context [v1_loop ?a ?b ?c ?d] =>
        destruct (v1_loop a b c d) as [r s'] eqn:E end.
      apply v1_loop_follows in E as (tr & T & F). cbn in F.
      exists (pre ++ tr)%list. cbn [snd].
      split; [rewrite T, T0, app_assoc; reflexivity|].
      apply follows_app; [exact F0 | rewrite A0; exact F].
    + exists pre. auto.
  - intros base_url initial_params s. unfold fetch_paginated_entities, bind.
    match goal with |- context [v2_loop ?a ?b ?c] =>
      destruct (v2_loop a b c) as [r s'] eqn:E end.
    apply v2_loop_follows in E as (tr & T & F). cbn in F.
    exists tr. destruct r; cbn [snd]; auto.
Qed.

(** ** The aggregated result of protocol B *)

(** the pages of a session, in the order they were served: the bodies of
    the accepted replies *)
Definition page_of (ev : event) : list pydict :=
  match ev with
  | EvGet _ _ _ (Some r) =>
      if is_error_status (status_code r) then []
      else match json r with Some (PDict body) => [body] | _ => [] end
  | _ => []
  end.

Definition pages (tr : list event) : list pydict := flat_map page_of tr.

(** the entity list of a page *)
Definition page_entities (page : pydict) : list pyval :=
  match py_iter (get_or "entities" (PList []) page) with
  | Ok l => l
  | Raise _ => []
  end.

(** a page without its entity-list field and its cursor field *)
Definition strip (page : pydict) : pydict :=
  filter (fun kv => is_meta_key (fst kv)) page.

(** the aggregated result the specification describes: the metadata of the
    first page, then all entities in page order *)
Definition aggregated (first : pydict) (later : list pydict) : pydict :=
  dict_set (PStr "entities")
    (PList (page_entities first ++ flat_map page_entities later)%list)
    (strip first).

Lemma pages_app tr1 tr2 : pages (tr1 ++ tr2)%list = (pages tr1 ++ pages tr2)%list.
Proof. apply flat_map_app. Qed.

Lemma pages_no_get tr : no_get tr -> pages tr = [].
Proof.
  induction 1 as [|ev tr Hev _ IH]; [reflexivity|].
  unfold pages in *. cbn. rewrite IH. destruct ev; cbn; tauto.
Qed.

Lemma rejected_no_page to p a reply :
  rejected reply = true -> page_of (EvGet to p a reply) = [].
Proof.
  destruct reply as [r|]; cbn; [|discriminate].
  intros H. rewrite (status_401_is_error _ H). reflexivity.
Qed.

Lemma pages_attempt to params tr final body :
  attempt to params tr final -> decoded final (PDict body) -> pages tr = [body].
Proof.
  intros A (resp & -> & J & Er). inversion A; subst; unfold pages; cbn [flat_map].
  - cbn. rewrite Er, J. reflexivity.
  - rewrite (rejected_no_page to params a reply) by assumption.
    cbn. rewrite Er, J. reflexivity.
Qed.

Lemma v2_page_pages to v s t s' :
  v2_page to v s = (Ok t, s') ->
  exists tr page,
    trace s' = (trace s ++ tr)%list /\ pages tr = [page] /\
    let meta := match v2_meta v with Some m => m | None => strip page end in
    let entities := (v2_aggregated_entities v ++ page_entities page)%list in
    match t with
    | Again v1 => v2_aggregated_entities v1 = entities /\ v2_meta v1 = Some meta
    | Break out => out = (entities, Some meta)
    end.
Proof.
  intros H. apply v2_page_shape in H as (pre & tr & T & N & K).
  destruct K as (final & response & A & D & Rest).
  unfold v2_rest in Rest. destruct response as [| | | | | |body]; try discriminate.
  exists (pre ++ tr)%list, body. split; [exact T|].
  split; [rewrite pages_app, (pages_no_get _ N), (pages_attempt _ _ _ _ _ A D); reflexivity|].
  unfold bind, lift in Rest. unfold page_entities, strip.
  destruct (py_iter (get_or "entities" (PList []) body)) as [l|]; [|discriminate].
  cbn in Rest.
  destruct (truthy (get "nextPageKey" body)); inversion Rest; subst; cbn;
    destruct (v2_meta v); auto.
Qed.

Lemma v2_loop_aggregates to v s out s' :
  v2_loop to v s = (Ok out, s') ->
  exists tr first later,
    trace s' = (trace s ++ tr)%list /\ pages tr = first :: later /\
    out = ((v2_aggregated_entities v ++ page_entities first
             ++ flat_map page_entities later)%list,
           Some (match v2_meta v with Some m => m | None => strip first end)).
Proof.
  revert out.
  pose (P := fun (v : v2_vars) (s : state)
               (r : res (list pyval * option pydict)) (s' : state) =>
               forall out, r = Ok out ->
               exists tr first later,
                 trace s' = (trace s ++ tr)%list /\ pages tr = first :: later /\
                 out = ((v2_aggregated_entities v ++ page_entities first
                          ++ flat_map page_entities later)%list,
                        Some (match v2_meta v with Some m => m | None => strip first end))).
  assert (G : forall v s r s', v2_loop to v s = (r, s') -> P v s r s');
    [| intros out H; exact (G _ _ _ _ H _ eq_refl)].
  clear v s s'.
  apply (loop_induction (v2_page to) (v2_loop to) (v2_loop_unfold to) (v2_page_Ok to) P);
    unfold P.
  - intros v s b s1 E out Heq. inversion Heq; subst b.
    apply v2_page_pages in E as (tr & page & T & Pg & K). cbn in K.
    exists tr, page, []. cbn. rewrite app_nil_r. auto.
  - discriminate.
  - intros v s v1 s1 r s' E _ IH out ->.
    destruct (IH _ eq_refl) as (tr2 & first2 & later2 & T2 & Pg2 & ->).
    apply v2_page_pages in E as (tr & page & T & Pg & (Hagg & Hmeta)).
    exists (tr ++ tr2)%list, page, (first2 :: later2).
    split; [rewrite T2, T, app_assoc; reflexivity|].
    split; [rewrite pages_app, Pg, Pg2; reflexivity|].
    rewrite Hagg, Hmeta. cbn. rewrite <- !app_assoc. reflexivity.
Qed.


(** ** The token provider on a run *)

Definition test_settings : AuthSettings :=
  {| url := "https://login.example.com/token"; client_id := "client";
     client_secret := "secret"; scope := None; resource := None; audience := None |}.

Definition token_reply (tk : string) (e : Z) : option post_response :=
  Some {| post_status := 200;
          post_json := Some {| access_token := Some tk; expires_in := Some e |} |}.

(** an authenticator at second 1000 of a clock that stands still, whose
    endpoint will grant ["token-1"] for 60 seconds *)
Definition fresh_authenticator : state :=
  JwtAuthenticator test_settings [] [token_reply "token-1" 60] (fun _ => 1000%Q).


End MainSpec.

(* ================================================================== *)
(** * main_process_topology.py: normalisation and relationships *)
(* ================================================================== *)
Module TopologySpec.
Import Py Topology.
Local Open Scope string_scope.

(** ** Facts about dicts looked up by a string key *)

Lemma key_eqb_str_l k k' : key_eqb (PStr k) k' = true <-> k' = PStr k.
Proof.
  destruct k'; cbn; split; try discriminate; intros H.
  - apply String.eqb_eq in H. subst. reflexivity.
  - inversion H. apply String.eqb_refl.
Qed.

Lemma key_eqb_str_r k k' : key_eqb k' (PStr k) = true <-> k' = PStr k.
Proof.
  destruct k'; cbn; split; try discriminate; intros H.
  - apply String.eqb_eq in H. subst. reflexivity.
  - inversion H. apply String.eqb_refl.
Qed.

Lemma key_eqb_str_sym k k' : key_eqb (PStr k) k' = key_eqb k' (PStr k).
Proof.
  destruct (key_eqb (PStr k) k') eqn:E1, (key_eqb k' (PStr k)) eqn:E2; try reflexivity.
  - apply key_eqb_str_l in E1. subst. rewrite (proj2 (key_eqb_str_r k _) eq_refl) in E2.
    discriminate.
  - apply key_eqb_str_r in E2. subst. rewrite (proj2 (key_eqb_str_l k _) eq_refl) in E1.
    discriminate.
Qed.

Lemma dict_get_set q k v d :
  dict_get (PStr q) (dict_set k v d) =
  if key_eqb (PStr q) k then Some v else dict_get (PStr q) d.
Proof.
  induction d as [|[k' v'] d IH]; cbn [dict_get dict_set].
  - reflexivity.
  - destruct (key_eqb k k') eqn:E; cbn [dict_get].
    + destruct (key_eqb (PStr q) k') eqn:E1.
      * apply key_eqb_str_l in E1. subst k'. apply key_eqb_str_r in E. subst k.
        rewrite (proj2 (key_eqb_str_l q _) eq_refl). reflexivity.
      * destruct (key_eqb (PStr q) k) eqn:E2; [|reflexivity].
        apply key_eqb_str_l in E2. subst k. congruence.
    + destruct (key_eqb (PStr q) k') eqn:E1; [|exact IH].
      apply key_eqb_str_l in E1. subst k'.
      destruct (key_eqb (PStr q) k) eqn:E2; [|reflexivity].
      apply key_eqb_str_l in E2. subst k. cbn in E. rewrite String.eqb_refl in E.
      discriminate.
Qed.

Lemma dict_get_set_same q v d : dict_get (PStr q) (dict_set (PStr q) v d) = Some v.
Proof. rewrite dict_get_set. cbn. rewrite String.eqb_refl. reflexivity. Qed.

Lemma dict_get_set_other q k v d :
  q <> k -> dict_get (PStr q) (dict_set (PStr k) v d) = dict_get (PStr q) d.
Proof.
  intros H. rewrite dict_get_set. cbn.
  destruct (String.eqb q k) eqn:E; [apply String.eqb_eq in E; contradiction | reflexivity].
Qed.

Lemma dict_get_del_other q k d :
  q <> k -> dict_get (PStr q) (dict_del (PStr k) d) = dict_get (PStr q) d.
Proof.
  intros H. induction d as [|[k' v'] d IH]; cbn [dict_get dict_del]; [reflexivity|].
  destruct (key_eqb (PStr k) k') eqn:E; cbn [dict_get].
  - apply key_eqb_str_l in E. subst k'. cbn.
    destruct (String.eqb q k) eqn:E1; [apply String.eqb_eq in E1; contradiction | reflexivity].
  - rewrite IH. reflexivity.
Qed.

Lemma dict_get_update_set q d kvs :
  dict_get (PStr q) (dict_update d kvs) =
  match dict_get (PStr q) (rev kvs) with
  | Some v => Some v
  | None => dict_get (PStr q) d
  end.
Proof.
  unfold dict_update. revert d.
  induction kvs as [|[k v] kvs IH]; intros d; cbn [fold_left rev fst snd]; [reflexivity|].
  rewrite IH. rewrite dict_get_set.
  assert (A : forall l, dict_get (PStr q) (l ++ [(k, v)])%list =
            match dict_get (PStr q) l with
            | Some w => Some w
            | None => if key_eqb (PStr q) k then Some v else None
            end).
  { induction l as [|[k1 v1] l IHl]; cbn [dict_get app]; [reflexivity|].
    destruct (key_eqb (PStr q) k1); [reflexivity | exact IHl]. }
  rewrite A. destruct (dict_get (PStr q) (rev kvs)); [reflexivity|].
  destruct (key_eqb (PStr q) k); reflexivity.
Qed.

Section WithRepr.
Context {R : Repr}.

(** ** What cleaning leaves under a top-level key *)

(** the effect of the first loop on one value *)
Definition coerced (v : pyval) : pyval :=
  if is_number v then PStr (py_str v) else v.

Lemma coerced_idem v : coerced (coerced v) = coerced v.
Proof. destruct v; reflexivity. Qed.

Lemma coerce_key_get q c k :
  dict_get (PStr q) (coerce_key c k) =
  if key_eqb (PStr q) k then option_map coerced (dict_get (PStr q) c)
  else dict_get (PStr q) c.
Proof.
  unfold coerce_key.
  destruct (key_eqb (PStr q) k) eqn:E.
  - apply key_eqb_str_l in E. subst k.
    destruct (dict_get (PStr q) c) as [v|] eqn:G; cbn [option_map].
    + unfold coerced. destruct (is_number v); [apply dict_get_set_same | exact G].
    + exact G.
  - destruct (dict_get k c) as [v|]; [|reflexivity].
    destruct (is_number v); [|reflexivity].
    rewrite dict_get_set, E. reflexivity.
Qed.

Lemma coerce_fold_get q ks c :
  dict_get (PStr q) (fold_left coerce_key ks c) =
  if existsb (key_eqb (PStr q)) ks then option_map coerced (dict_get (PStr q) c)
  else dict_get (PStr q) c.
Proof.
  revert c. induction ks as [|k ks IH]; intros c; cbn [fold_left existsb]; [reflexivity|].
  rewrite IH, coerce_key_get.
  destruct (key_eqb (PStr q) k); cbn [orb].
  - destruct (existsb (key_eqb (PStr q)) ks); [|reflexivity].
    destruct (dict_get (PStr q) c); cbn; [rewrite coerced_idem|]; reflexivity.
  - reflexivity.
Qed.

Lemma dict_get_key_listed q (c : pydict) v :
  dict_get (PStr q) c = Some v -> existsb (key_eqb (PStr q)) (map fst c) = true.
Proof.
  induction c as [|[k w] c IH]; cbn [dict_get map existsb fst]; [discriminate|].
  destruct (key_eqb (PStr q) k); [reflexivity | exact IH].
Qed.

Lemma coerce_top_level_get q c :
  dict_get (PStr q) (coerce_top_level c) = option_map coerced (dict_get (PStr q) c).
Proof.
  unfold coerce_top_level. rewrite coerce_fold_get.
  destruct (dict_get (PStr q) c) as [v|] eqn:G.
  - rewrite (dict_get_key_listed _ _ _ G). reflexivity.
  - destruct (existsb _ _); reflexivity.
Qed.

Lemma clean_nested_get q c :
  q <> "properties" -> dict_get (PStr q) (clean_nested c) = dict_get (PStr q) c.
Proof.
  intros H. unfold clean_nested.
  destruct (dict_get (PStr "properties") c) as [[]|]; try reflexivity.
  apply dict_get_set_other. exact H.
Qed.

Lemma drop_last_seen_get q c :
  q <> "lastSeenTimestamp" -> dict_get (PStr q) (drop_last_seen c) = dict_get (PStr q) c.
Proof.
  intros H. unfold drop_last_seen.
  destruct (dict_mem _ c); [apply dict_get_del_other; exact H | reflexivity].
Qed.

(** a top-level field other than ["properties"] and ["lastSeenTimestamp"]
    comes out of [clean_unsupported_metadata] coerced, and otherwise as it
    went in *)
Lemma clean_get q entity cleaned :
  clean_unsupported_metadata (PDict entity) = Ok cleaned ->
  q <> "properties" -> q <> "lastSeenTimestamp" ->
  dict_get (PStr q) cleaned = option_map coerced (dict_get (PStr q) entity).
Proof.
  cbn. intros H H1 H2. inversion H; subst.
  rewrite drop_last_seen_get, clean_nested_get, coerce_top_level_get by assumption.
  reflexivity.
Qed.

Lemma clean_get_or q default entity cleaned :
  clean_unsupported_metadata (PDict entity) = Ok cleaned ->
  q <> "properties" -> q <> "lastSeenTimestamp" ->
  coerced default = default ->
  get_or q default cleaned = coerced (get_or q default entity).
Proof.
  intros H H1 H2 Hd. unfold get_or. rewrite (clean_get q entity cleaned H H1 H2).
  destruct (dict_get (PStr q) entity); cbn; [reflexivity | symmetry; exact Hd].
Qed.

(** ** Relationship extraction *)

(** the edge one entry of an outgoing list stands for, if it names an id *)
Definition edge_out (entity_id rel_type x : pyval) : list relationship :=
  if truthy (id_of x)
  then [{| source := entity_id; target := id_of x; type := rel_type |}]
  else [].

Definition edge_in (entity_id rel_type x : pyval) : list relationship :=
  if truthy (id_of x)
  then [{| source := id_of x; target := entity_id; type := rel_type |}]
  else [].

(** the edges of a relationships map, entry by entry; only list values
    count *)
Definition edges_of (edge : pyval -> pyval -> list relationship) (rels : pydict)
    : list relationship :=
  flat_map (fun kv => match snd kv with
                      | PList l => flat_map (edge (fst kv)) l
                      | _ => []
                      end) rels.

Lemma outgoing_targets_spec entity_id rel_type l rels :
  outgoing_targets entity_id rel_type l rels =
  (rels ++ flat_map (edge_out entity_id rel_type) l)%list.
Proof.
  revert rels. induction l as [|x l IH]; intros rels; cbn [outgoing_targets flat_map].
  - rewrite app_nil_r. reflexivity.
  - rewrite IH. unfold edge_out at 2.
    destruct (truthy (id_of x)); cbn [app]; [rewrite <- app_assoc|]; reflexivity.
Qed.

Lemma incoming_sources_spec entity_id rel_type l rels :
  incoming_sources entity_id rel_type l rels =
  (rels ++ flat_map (edge_in entity_id rel_type) l)%list.
Proof.
  revert rels. induction l as [|x l IH]; intros rels; cbn [incoming_sources flat_map].
  - rewrite app_nil_r. reflexivity.
  - rewrite IH. unfold edge_in at 2.
    destruct (truthy (id_of x)); cbn [app]; [rewrite <- app_assoc|]; reflexivity.
Qed.

Lemma outgoing_loop_spec entity_id from_rels rels :
  outgoing_loop entity_id from_rels rels =
  (rels ++ edges_of (edge_out entity_id) from_rels)%list.
Proof.
  unfold edges_of. revert rels.
  induction from_rels as [|[rel_type v] rest IH]; intros rels;
    cbn [outgoing_loop flat_map fst snd].
  - rewrite app_nil_r. reflexivity.
  - destruct v; rewrite IH; try reflexivity.
    rewrite outgoing_targets_spec, <- app_assoc. reflexivity.
Qed.

Lemma incoming_loop_spec entity_id to_rels rels :
  incoming_loop entity_id to_rels rels =
  (rels ++ edges_of (edge_in entity_id) to_rels)%list.
Proof.
  unfold edges_of. revert rels.
  induction to_rels as [|[rel_type v] rest IH]; intros rels;
    cbn [incoming_loop flat_map fst snd].
  - rewrite app_nil_r. reflexivity.
  - destruct v; rewrite IH; try reflexivity.
    rewrite incoming_sources_spec, <- app_assoc. reflexivity.
Qed.

Lemma in_edges_of edge rels r :
  In r (edges_of edge rels) <->
  exists rel_type l x,
    In (rel_type, PList l) rels /\ In x l /\ In r (edge rel_type x).
Proof.
  unfold edges_of. rewrite in_flat_map. split.
  - intros ([rel_type v] & Hin & Hr). cbn [fst snd] in Hr.
    destruct v; try contradiction.
    apply in_flat_map in Hr as (x & Hx & Hr). eauto 6.
  - intros (rel_type & l & x & Hin & Hx & Hr).
    exists (rel_type, PList l). split; [exact Hin|]. cbn [fst snd].
    apply in_flat_map. eauto.
Qed.

(** ** The steps of a successful [process_entity_to_component] *)

Definition id_tag (entity_id : pyval) : list pyval :=
  if truthy entity_id then [entity_id] else [].

Lemma process_entity_inv entity component_type p :
  process_entity_to_component entity component_type = Ok p ->
  exists cleaned tags0 zones tags3 data2,
    clean_unsupported_metadata entity = Ok cleaned /\
    extract_tags cleaned = Ok tags0 /\
    extract_management_zones cleaned = Ok zones /\
    let entity_id := get_or "entityId" (PStr "") cleaned in
    add_software_techs cleaned (tags0 ++ zones ++ id_tag entity_id)%list = Ok tags3 /\
    (if String.eqb component_type "process-group"
     then normalize_process_group_v2_to_v1
            (dict_del (PStr "tags")
               (dict_del (PStr "toRelationships")
                  (dict_del (PStr "fromRelationships") (dict_update [] cleaned))))
     else Ok (dict_del (PStr "tags")
                (dict_del (PStr "toRelationships")
                   (dict_del (PStr "fromRelationships") (dict_update [] cleaned)))))
    = Ok data2 /\
    p = {| entityId := entity_id;
           displayName := get_or "displayName" entity_id cleaned;
           p_component_type := component_type;
           component :=
             dict_update data2
               [ (PStr "identifiers", PList [PStr (create_component_identifier entity_id)]);
                 (PStr "tags", PList (add_monitoring_state cleaned tags3));
                 (PStr "component_type", PStr component_type) ];
           fromRelationships := get_or "fromRelationships" (PDict []) cleaned;
           toRelationships := get_or "toRelationships" (PDict []) cleaned |}.
Proof.
  unfold process_entity_to_component, rbind.
  destruct (clean_unsupported_metadata entity) as [cleaned|] eqn:E0; [|discriminate].
  destruct (extract_tags cleaned) as [tags0|] eqn:E1; [|discriminate].
  destruct (extract_management_zones cleaned) as [zones|] eqn:E2; [|discriminate].
  cbn zeta.
  replace (if truthy (get_or "entityId" (PStr "") cleaned)
           then ((tags0 ++ zones) ++ [get_or "entityId" (PStr "") cleaned])%list
           else (tags0 ++ zones)%list)
    with (tags0 ++ zones ++ id_tag (get_or "entityId" (PStr "") cleaned))%list.
  2:{ unfold id_tag. destruct (truthy _); [rewrite app_assoc | rewrite app_nil_r]; reflexivity. }
  destruct (add_software_techs cleaned _) as [tags3|] eqn:E3; [|discriminate].
  match goal with
  | |- match ?n with Ok _ => _ | Raise _ => _ end = _ -> _ =>
      destruct n as [data2|] eqn:E4; [|discriminate]
  end.
  intros H. injection H as <-.
  exists cleaned, tags0, zones, tags3, data2.
  split; [reflexivity|]. split; [exact E1|]. split; [exact E2|].
  split; [exact E3|]. split; [exact E4 | reflexivity].
Qed.

Lemma coerced_dict d : coerced (PDict d) = PDict d.
Proof. reflexivity. Qed.

Lemma coerced_to_dict v d : v = PDict d -> coerced v = PDict d.
Proof. intros ->. reflexivity. Qed.

(** C8. For an entity that [process_entity_to_component] accepts and whose
    relationship fields are maps, the turn of the loop appends its component
    and appends to [relationships], in order, one edge
    [{source: entityId, target: id, type: relation type}] per entry of every
    list of the outgoing map and then one edge
    [{source: id, target: entityId, type: relation type}] per entry of every
    list of the incoming map, where the id of an entry is its ["id"] field
    when it is a record and the entry itself otherwise, and is there
    (truthy); it raises nothing.  A relation type whose value is not a list
    contributes no edge. *)
Theorem relationships_of_entity component_type (entity : pydict) p from_rels to_rels c :
  process_entity_to_component (PDict entity) component_type = Ok p ->
  get_or "fromRelationships" (PDict []) entity = PDict from_rels ->
  get_or "toRelationships" (PDict []) entity = PDict to_rels ->
  let entity_id := entityId p in
  let outgoing := edges_of (edge_out entity_id) from_rels in
  let incoming := edges_of (edge_in entity_id) to_rels in
  entity_id = coerced (get_or "entityId" (PStr "") entity) /\
  try_entity component_type (PDict entity) c =
    ({| components := (components c ++ [component p])%list;
        relationships := (relationships c ++ outgoing ++ incoming)%list;
        warnings := warnings c |}, None) /\
  (forall rel_type l x,
     In (rel_type, PList l) from_rels -> In x l -> truthy (id_of x) = true ->
     In {| source := entity_id; target := id_of x; type := rel_type |} outgoing) /\
  (forall rel_type l x,
     In (rel_type, PList l) to_rels -> In x l -> truthy (id_of x) = true ->
     In {| source := id_of x; target := entity_id; type := rel_type |} incoming) /\
  (forall r, In r outgoing ->
     exists rel_type l x,
       In (rel_type, PList l) from_rels /\ In x l /\
       r = {| source := entity_id; target := id_of x; type := rel_type |}) /\
  (forall r, In r incoming ->
     exists rel_type l x,
       In (rel_type, PList l) to_rels /\ In x l /\
       r = {| source := id_of x; target := entity_id; type := rel_type |}) /\
  (forall d, id_of (PDict d) = get "id" d) /\
  (forall s, id_of (PStr s) = PStr s).
Proof.
  intros Hp Hf Ht entity_id outgoing incoming.
  destruct (process_entity_inv _ _ _ Hp)
    as (cleaned & tags0 & zones & tags3 & data2 & Hc & _ & _ & _ & _ & Hpe).
  assert (Hid : entity_id = coerced (get_or "entityId" (PStr "") entity)).
  { subst entity_id. rewrite Hpe. cbn [entityId].
    apply (clean_get_or _ _ _ _ Hc); [discriminate | discriminate | reflexivity]. }
  assert (Hfrom : fromRelationships p = PDict from_rels).
  { rewrite Hpe. cbn [fromRelationships].
    rewrite (clean_get_or _ _ _ _ Hc); [|discriminate | discriminate | reflexivity].
    apply coerced_to_dict. exact Hf. }
  assert (Hto : toRelationships p = PDict to_rels).
  { rewrite Hpe. cbn [toRelationships].
    rewrite (clean_get_or _ _ _ _ Hc); [|discriminate | discriminate | reflexivity].
    apply coerced_to_dict. exact Ht. }
  split; [exact Hid|]. split.
  { unfold try_entity. rewrite Hp, Hfrom, Hto. cbn [components relationships warnings].
    rewrite incoming_loop_spec, outgoing_loop_spec, <- app_assoc. reflexivity. }
  split; [| split; [| split; [| split; [| split]]]].
  - intros rel_type l x Hin Hx Hy. apply in_edges_of.
    exists rel_type, l, x. split; [exact Hin|]. split; [exact Hx|].
    unfold edge_out. rewrite Hy. left. reflexivity.
  - intros rel_type l x Hin Hx Hy. apply in_edges_of.
    exists rel_type, l, x. split; [exact Hin|]. split; [exact Hx|].
    unfold edge_in. rewrite Hy. left. reflexivity.
  - intros r Hr. apply in_edges_of in Hr as (rel_type & l & x & Hin & Hx & Hr).
    unfold edge_out in Hr. destruct (truthy (id_of x)); [|contradiction].
    destruct Hr as [<-|[]]. eauto 6.
  - intros r Hr. apply in_edges_of in Hr as (rel_type & l & x & Hin & Hx & Hr).
    unfold edge_in in Hr. destruct (truthy (id_of x)); [|contradiction].
    destruct Hr as [<-|[]]. eauto 6.
  - reflexivity.
  - reflexivity.
Qed.

Lemma truthy_not_empty v : truthy v = true -> v <> PStr "" /\ v <> PNone.
Proof. intros H. split; intros ->; discriminate. Qed.


(** ** The labels of software technologies and monitoring state *)

Definition text_of (v : pyval) : list string :=
  match v with PStr s => [s] | _ => [] end.

(** the segments of a software-technology record that are there, in the
    order type, edition, version *)
Definition segments (tech : pydict) : list string :=
  flat_map text_of
    (filter truthy [get "type" tech; get "edition" tech; get "version" tech]).

(** the label of one item of the software-technology list, if it has one *)
Definition tech_label_of (item : pyval) : list pyval :=
  match item with
  | PDict tech =>
      if String.eqb (join ":" (segments tech)) "" then []
      else [PStr (join ":" (segments tech))]
  | _ => []
  end.

Definition tech_labels (software_techs : pyval) : list pyval :=
  match py_iter software_techs with
  | Ok items => flat_map tech_label_of items
  | Raise _ => []
  end.

Definition monitoring_labels (monitoring_state : pyval) : list pyval :=
  match monitoring_state with
  | PDict ms =>
      ((if truthy (get "actualMonitoringState" ms)
        then [PStr ("actualMonitoringState:" ++ py_str (get "actualMonitoringState" ms))]
        else []) ++
       (if truthy (get "expectedMonitoringState" ms)
        then [PStr ("expectedMonitoringState:" ++ py_str (get "expectedMonitoringState" ms))]
        else []))%list
  | _ => []
  end.

Lemma as_strings_spec l ss : as_strings l = Ok ss -> ss = flat_map text_of l.
Proof.
  revert ss. induction l as [|v l IH]; intros ss; cbn [as_strings flat_map].
  - intros H. inversion H. reflexivity.
  - destruct v; try discriminate. unfold rbind.
    destruct (as_strings l) as [ss'|]; [|discriminate].
    intros H. inversion H. cbn. rewrite (IH ss' eq_refl). reflexivity.
Qed.

Lemma tech_label_spec tech label :
  tech_label tech = Ok label -> label = join ":" (segments tech).
Proof.
  unfold tech_label, rbind, segments.
  destruct (as_strings _) as [ss|] eqn:E; [|discriminate].
  intros H. inversion H. rewrite (as_strings_spec _ _ E). reflexivity.
Qed.

Lemma tech_loop_spec l tags tags3 :
  tech_loop l tags = Ok tags3 -> tags3 = (tags ++ flat_map tech_label_of l)%list.
Proof.
  revert tags. induction l as [|item l IH]; intros tags; cbn [tech_loop flat_map].
  - intros H. inversion H. rewrite app_nil_r. reflexivity.
  - destruct item; try (intros H; rewrite (IH _ H); reflexivity).
    unfold rbind. destruct (tech_label d) as [label|] eqn:E; [|discriminate].
    intros H. rewrite (IH _ H). apply tech_label_spec in E. subst label.
    cbn [tech_label_of truthy].
    destruct (String.eqb (join ":" (segments d)) ""); cbn [negb app];
      [|rewrite <- app_assoc]; reflexivity.
Qed.

Lemma no_label_in_chars s : flat_map tech_label_of (chars s) = [].
Proof. induction s as [|c s IH]; cbn; [reflexivity | exact IH]. Qed.

Lemma tech_labels_falsy v : truthy v = false -> tech_labels v = [].
Proof.
  destruct v as [| | | |s|[|? ?]|[|? ?]]; try reflexivity; try discriminate.
  cbn. destruct s; [reflexivity | discriminate].
Qed.

Lemma tech_labels_coerced v : tech_labels (coerced v) = tech_labels v.
Proof.
  destruct v; try reflexivity; unfold coerced, tech_labels; cbn [is_number py_iter];
    apply no_label_in_chars.
Qed.

Lemma monitoring_labels_coerced v : monitoring_labels (coerced v) = monitoring_labels v.
Proof. destruct v; reflexivity. Qed.

Lemma add_software_techs_spec cleaned tags tags3 :
  add_software_techs cleaned tags = Ok tags3 ->
  tags3 = (tags ++ tech_labels (get_or "softwareTechnologies" (PList []) cleaned))%list.
Proof.
  unfold add_software_techs.
  destruct (truthy (get_or "softwareTechnologies" (PList []) cleaned)) eqn:T.
  - unfold rbind, tech_labels.
    destruct (py_iter _) as [items|]; [|discriminate]. apply tech_loop_spec.
  - intros H. inversion H. rewrite (tech_labels_falsy _ T), app_nil_r. reflexivity.
Qed.

Lemma add_monitoring_state_spec cleaned tags :
  add_monitoring_state cleaned tags =
  (tags ++ monitoring_labels (get "monitoringState" cleaned))%list.
Proof.
  unfold add_monitoring_state, monitoring_labels.
  destruct (get "monitoringState" cleaned); try (rewrite app_nil_r; reflexivity).
  destruct (truthy (get "actualMonitoringState" d)),
           (truthy (get "expectedMonitoringState" d)); cbn [app];
    rewrite <- ?app_assoc, ?app_nil_r; reflexivity.
Qed.

(** ** The two metadata folds *)

(** the key and the value an item of [customPgMetadata] is stored under *)
Definition item_key (i : nat) (item : pyval) : string :=
  match item with
  | PDict it => resolved_key i it
  | _ => "item_" ++ str_of_nat i
  end.

Definition item_value (i : nat) (item : pyval) : pyval :=
  match item with
  | PDict it => resolved_value i it
  | _ => PStr (py_str item)
  end.

(** last-write-wins: the value of the last item stored under [k], the items
    being numbered from [i] *)
Fixpoint last_write (k : string) (i : nat) (items : list pyval) : option pyval :=
  match items with
  | [] => None
  | item :: rest =>
      match last_write k (S i) rest with
      | Some v => Some v
      | None => if String.eqb k (item_key i item) then Some (item_value i item) else None
      end
  end.

Lemma convert_item_set i item d :
  convert_item i item d = dict_set (PStr (item_key i item)) (item_value i item) d.
Proof. destruct item; reflexivity. Qed.

Lemma convert_custom_metadata_get k i items acc :
  dict_get (PStr k) (convert_custom_metadata i items acc) =
  match last_write k i items with
  | Some v => Some v
  | None => dict_get (PStr k) acc
  end.
Proof.
  revert i acc. induction items as [|item rest IH]; intros i acc;
    cbn [convert_custom_metadata last_write]; [reflexivity|].
  rewrite IH. destruct (last_write k (S i) rest); [reflexivity|].
  rewrite convert_item_set, dict_get_set. cbn [key_eqb].
  destruct (String.eqb k (item_key i item)); reflexivity.
Qed.

Lemma dict_set_keys k v d k0 :
  In k0 (map fst (dict_set k v d)) -> In k0 (map fst d) \/ k0 = k.
Proof.
  induction d as [|[k' v'] d IH]; cbn [dict_set map fst In].
  - intros [<-|[]]. auto.
  - destruct (key_eqb k k'); cbn [map fst In]; [tauto|].
    intros [H|H]; [tauto|]. destruct (IH H); tauto.
Qed.

Lemma dict_set_NoDup k v d :
  NoDup (map fst d) -> NoDup (map fst (dict_set (PStr k) v d)).
Proof.
  induction d as [|[k' v'] d IH]; cbn [dict_set map fst]; intros H.
  - repeat constructor. intros [].
  - inversion H as [|? ? Hn Hd]; subst.
    destruct (key_eqb (PStr k) k') eqn:E; cbn [map fst]; [exact H|].
    constructor; [|apply IH; exact Hd].
    intros Hin. apply dict_set_keys in Hin as [Hin | ->]; [contradiction|].
    cbn in E. rewrite String.eqb_refl in E. discriminate.
Qed.

Lemma convert_custom_metadata_NoDup i items acc :
  NoDup (map fst acc) -> NoDup (map fst (convert_custom_metadata i items acc)).
Proof.
  revert i acc. induction items as [|item rest IH]; intros i acc H;
    cbn [convert_custom_metadata]; [exact H|].
  apply IH. rewrite convert_item_set. apply dict_set_NoDup. exact H.
Qed.

Lemma clean_properties_custom properties items :
  dict_get (PStr "customPgMetadata") properties = Some (PList items) ->
  dict_get (PStr "customPgMetadata") (clean_properties properties) =
  Some (PDict (convert_custom_metadata 0 items [])).
Proof.
  intros H. unfold clean_properties.
  assert (W : forall name p, name <> "customPgMetadata" ->
            dict_get (PStr "customPgMetadata") (wrap_log_field name p) =
            dict_get (PStr "customPgMetadata") p).
  { intros name p Hn. unfold wrap_log_field.
    destruct (dict_get (PStr name) p) as [[]|]; try reflexivity;
      apply dict_get_set_other; congruence. }
  rewrite !W by discriminate.
  assert (P2 : dict_get (PStr "customPgMetadata")
                 (clean_os_services (clean_releases_version properties)) =
               Some (PList items)).
  { unfold clean_os_services, clean_releases_version.
    repeat match goal with
    | |- context [match dict_get ?k ?p with _ => _ end] =>
        destruct (dict_get k p) as [[]|]
    end; rewrite ?dict_get_set_other by discriminate; exact H. }
  unfold clean_custom_metadata. rewrite P2. apply dict_get_set_same.
Qed.

(** the target key and the value of an entry of [metadata] that counts *)
Definition entry_target (entry : pyval) : option (pyval * pyval) :=
  match entry with
  | PDict e =>
      if truthy (get "key" e) then
        match target_key_of (get "key" e) with
        | Ok t => Some (t, get "value" e)
        | Raise _ => None
        end
      else None
  | _ => None
  end.

(** some entry maps to the target key [t] *)
Definition targeted (t : string) (entries : list pyval) : bool :=
  existsb (fun entry => match entry_target entry with
                        | Some (t', _) => key_eqb (PStr t) t'
                        | None => false
                        end) entries.

(** the values of the entries that map to [t], in the order of the
    entries; [None] is no value *)
Definition values_for (t : string) (entries : list pyval) : list pyval :=
  flat_map (fun entry => match entry_target entry with
                         | Some (t', v) =>
                             if key_eqb (PStr t) t'
                             then match v with PNone => [] | _ => [v] end
                             else []
                         | None => []
                         end) entries.

(** under [t] the dict holds the list [l], or nothing when [l] is [None] *)
Definition holds (t : string) (d : pydict) (l : option (list pyval)) : Prop :=
  dict_get (PStr t) d = option_map PList l.

Lemma fold_entry_holds t meta_out entry meta_out1 l :
  fold_entry meta_out entry = Ok meta_out1 ->
  holds t meta_out l ->
  holds t meta_out1
    (match entry_target entry with
     | Some (t', v) =>
         if key_eqb (PStr t) t'
         then Some (match l with Some old => old | None => [] end
                    ++ match v with PNone => [] | _ => [v] end)%list
         else l
     | None => l
     end).
Proof.
  unfold fold_entry, entry_target, holds.
  destruct entry as [| | | | | |e]; try (intros H; inversion H; subst; auto; fail).
  destruct (truthy (get "key" e)); [|intros H; inversion H; subst; auto].
  unfold rbind. destruct (target_key_of (get "key" e)) as [tk|]; [|discriminate].
  intros H Hl. inversion H; subst meta_out1; clear H.
  destruct (key_eqb (PStr t) tk) eqn:E.
  - apply key_eqb_str_l in E. subst tk.
    assert (M1 : dict_get (PStr t)
                   (if dict_mem (PStr t) meta_out then meta_out
                    else dict_set (PStr t) (PList []) meta_out) =
                 Some (PList match l with Some old => old | None => [] end)).
    { unfold dict_mem. rewrite Hl. destruct l; cbn [option_map].
      - rewrite Hl. reflexivity.
      - apply dict_get_set_same. }
    destruct (get "value" e); cbn [option_map]; rewrite ?app_nil_r; try exact M1;
      unfold dict_append; rewrite M1; apply dict_get_set_same.
  - assert (M1 : dict_get (PStr t)
                   (if dict_mem tk meta_out then meta_out
                    else dict_set tk (PList []) meta_out) = option_map PList l).
    { destruct (dict_mem tk meta_out); [exact Hl|].
      rewrite dict_get_set, E. exact Hl. }
    destruct (get "value" e); try exact M1;
      unfold dict_append;
      match goal with |- context [match dict_get tk ?d with _ => _ end] =>
        destruct (dict_get tk d) as [[]|]; try exact M1;
        rewrite dict_get_set, E; exact M1 end.
Qed.

Lemma values_for_untargeted t entries :
  targeted t entries = false -> values_for t entries = [].
Proof.
  unfold targeted, values_for.
  induction entries as [|entry rest IH]; cbn [existsb flat_map]; [reflexivity|].
  intros H. apply orb_false_iff in H as (H1 & H2). rewrite (IH H2).
  destruct (entry_target entry) as [[t' v]|]; [|reflexivity].
  rewrite H1. reflexivity.
Qed.

Lemma fold_entries_holds t entries meta_out meta_out1 l :
  fold_entries entries meta_out = Ok meta_out1 ->
  holds t meta_out l ->
  holds t meta_out1
    (if targeted t entries
     then Some (match l with Some old => old | None => [] end ++ values_for t entries)%list
     else l).
Proof.
  revert meta_out l. induction entries as [|entry rest IH]; intros meta_out l;
    cbn [fold_entries targeted values_for existsb flat_map].
  - intros H Hl. inversion H; subst. exact Hl.
  - unfold rbind. destruct (fold_entry meta_out entry) as [m1|] eqn:E; [|discriminate].
    intros H Hl. pose proof (fold_entry_holds t _ _ _ l E Hl) as H1.
    specialize (IH _ _ H H1). fold (targeted t rest) (values_for t rest) in *.
    destruct (entry_target entry) as [[t' v]|]; [|exact IH].
    destruct (key_eqb (PStr t) t'); cbn [orb]; [|exact IH].
    destruct (targeted t rest) eqn:Tr; [rewrite <- app_assoc in IH; exact IH|].
    rewrite (values_for_untargeted _ _ Tr), app_nil_r. exact IH.
Qed.

Lemma clean_properties_of entity properties cleaned :
  dict_get (PStr "properties") entity = Some (PDict properties) ->
  clean_unsupported_metadata (PDict entity) = Ok cleaned ->
  dict_get (PStr "properties") cleaned = Some (PDict (clean_properties properties)).
Proof.
  intros Hp H. cbn in H. inversion H; subst cleaned.
  rewrite drop_last_seen_get by discriminate.
  unfold clean_nested. rewrite coerce_top_level_get, Hp. cbn [option_map coerced is_number].
  apply dict_get_set_same.
Qed.

Lemma normalize_metadata data properties entries data' :
  get "properties" data = PDict properties -> properties <> [] ->
  dict_get (PStr "metadata") properties = Some (PList entries) ->
  normalize_process_group_v2_to_v1 data = Ok data' ->
  exists meta_out,
    fold_entries entries [] = Ok meta_out /\
    (meta_out <> [] -> dict_get (PStr "metadata") data' = Some (PDict meta_out)).
Proof.
  intros Hp Hne Hm. unfold normalize_process_group_v2_to_v1.
  rewrite Hp. unfold py_or.
  assert (T : truthy (PDict properties) = true) by (destruct properties; [contradiction | reflexivity]).
  rewrite T. cbn zeta.
  assert (G : get "metadata"
                (dict_del (PStr "softwareTechnologies")
                   (dict_del (PStr "listenPorts") properties)) = PList entries).
  { unfold get, get_or. rewrite !dict_get_del_other by discriminate.
    rewrite Hm. reflexivity. }
  rewrite G. unfold rbind.
  destruct entries as [|entry rest].
  - intros H. exists []. split; [reflexivity|]. intros C. contradiction.
  - destruct (fold_entries (entry :: rest) []) as [meta_out|]; [|discriminate].
    intros H. inversion H; subst data'. exists meta_out. split; [reflexivity|].
    intros C. rewrite dict_get_set_other by discriminate.
    destruct meta_out; [contradiction|]. cbn [truthy]. apply dict_get_set_same.
Qed.

(** the two inputs of the specification *)
Definition custom_metadata_example : pyval :=
  PDict [ (PStr "entityId", PStr "E1");
          (PStr "properties",
           PDict [(PStr "customPgMetadata",
                   PList [PDict [(PStr "key", PStr "a"); (PStr "value", PInt 1)];
                          PDict [(PStr "key", PStr "a"); (PStr "value", PInt 2)]])]) ].

Definition process_group_example : pyval :=
  PDict [ (PStr "entityId", PStr "PG1");
          (PStr "properties",
           PDict [(PStr "metadata",
                   PList [PDict [(PStr "key", PStr "EXE_NAME"); (PStr "value", PStr "x")];
                          PDict [(PStr "key", PStr "EXE_NAME"); (PStr "value", PStr "y")]])]) ].

(** a field of a field of the component of a processed entity *)
Definition component_field (r : res processed) (k : string) : option pyval :=
  match r with
  | Ok p => dict_get (PStr k) (component p)
  | Raise _ => None
  end.

Definition nested (k : string) (v : option pyval) : option pyval :=
  match v with
  | Some (PDict d) => dict_get (PStr k) d
  | _ => None
  end.

(** C7. The two folds differ.  [clean_unsupported_metadata] turns a
    [properties.customPgMetadata] list into one record with distinct keys in
    which each key holds the value of the last item stored under it
    ([{key:a,value:1},{key:a,value:2}] becomes [{a: 2}]).
    [normalize_process_group_v2_to_v1] turns a [properties.metadata] list
    into a top-level [metadata] record in which each target key holds the
    list of the values (those that are not [None]) of all the entries mapped
    to it, in the order of the entries (two [EXE_NAME] entries with values
    x and y become [{executables: [x, y]}]). *)
Theorem metadata_folds :
  (forall entity properties items cleaned,
     dict_get (PStr "properties") entity = Some (PDict properties) ->
     dict_get (PStr "customPgMetadata") properties = Some (PList items) ->
     clean_unsupported_metadata (PDict entity) = Ok cleaned ->
     exists properties' folded,
       dict_get (PStr "properties") cleaned = Some (PDict properties') /\
       dict_get (PStr "customPgMetadata") properties' = Some (PDict folded) /\
       NoDup (map fst folded) /\
       forall k, dict_get (PStr k) folded = last_write k 0 items) /\
  nested "customPgMetadata"
    (component_field (process_entity_to_component custom_metadata_example "process")
       "properties")
  = Some (PDict [(PStr "a", PInt 2)]) /\
  (forall data properties entries data',
     get "properties" data = PDict properties -> properties <> [] ->
     dict_get (PStr "metadata") properties = Some (PList entries) ->
     normalize_process_group_v2_to_v1 data = Ok data' ->
     exists meta_out,
       fold_entries entries [] = Ok meta_out /\
       (meta_out <> [] -> dict_get (PStr "metadata") data' = Some (PDict meta_out)) /\
       forall t, dict_get (PStr t) meta_out =
                 if targeted t entries then Some (PList (values_for t entries)) else None) /\
  component_field (process_entity_to_component process_group_example "process-group")
    "metadata"
  = Some (PDict [(PStr "executables", PList [PStr "x"; PStr "y"])]).
Proof.
  split; [| split; [| split]].
  - intros entity properties items cleaned Hp Hc H.
    exists (clean_properties properties), (convert_custom_metadata 0 items []).
    split; [eapply clean_properties_of; eassumption|].
    split; [apply clean_properties_custom; exact Hc|].
    split; [apply convert_custom_metadata_NoDup; constructor|].
    intros k. rewrite convert_custom_metadata_get.
    destruct (last_write k 0 items); reflexivity.
  - reflexivity.
  - intros data properties entries data' Hp Hne Hm H.
    destruct (normalize_metadata _ _ _ _ Hp Hne Hm H) as (meta_out & Hf & Hd).
    exists meta_out. split; [exact Hf|]. split; [exact Hd|].
    intros t. pose proof (fold_entries_holds t entries [] meta_out None Hf eq_refl) as Hh.
    unfold holds in Hh. rewrite Hh.
    destruct (targeted t entries); reflexivity.
  - reflexivity.
Qed.

(** the tag list of a processed entity *)
Definition tags_of (p : processed) : option pyval :=
  dict_get (PStr "tags") (component p).

Lemma tags_of_processed data2 identifiers tags component_type :
  dict_get (PStr "tags")
    (dict_update data2
       [ (PStr "identifiers", identifiers); (PStr "tags", tags);
         (PStr "component_type", PStr component_type) ]) = Some tags.
Proof. rewrite dict_get_update_set. reflexivity. Qed.

(** the tags every kind of entity gets: those of [extract_tags] and
    [extract_management_zones], then the entity id *)
Definition plain_tags (p : processed) (cleaned : pydict) (tags : list pyval) : Prop :=
  exists tags0 zones,
    extract_tags cleaned = Ok tags0 /\
    extract_management_zones cleaned = Ok zones /\
    tags = (tags0 ++ zones ++ id_tag (entityId p))%list.

(** C6, as the code has it.  Whatever the kind, the tag list of a processed
    entity is its plain tags followed by one label per record of its
    top-level [softwareTechnologies] that has a segment (the segments that
    are there, joined by colons, in the order type, edition, version),
    followed by the [actualMonitoringState:] and [expectedMonitoringState:]
    labels of its top-level [monitoringState] record for the fields it
    carries.  The kind plays no part: another kind gives the same tags. *)
Theorem labels_for_every_kind component_type (entity : pydict) p :
  process_entity_to_component (PDict entity) component_type = Ok p ->
  (exists cleaned plain,
     clean_unsupported_metadata (PDict entity) = Ok cleaned /\
     plain_tags p cleaned plain /\
     tags_of p =
       Some (PList (plain
                    ++ tech_labels (get_or "softwareTechnologies" (PList []) entity)
                    ++ monitoring_labels (get "monitoringState" entity))%list)) /\
  (forall component_type' p',
     process_entity_to_component (PDict entity) component_type' = Ok p' ->
     tags_of p' = tags_of p).
Proof.
  assert (K : forall ct q,
            process_entity_to_component (PDict entity) ct = Ok q ->
            exists cleaned tags0 zones,
              clean_unsupported_metadata (PDict entity) = Ok cleaned /\
              extract_tags cleaned = Ok tags0 /\
              extract_management_zones cleaned = Ok zones /\
              entityId q = get_or "entityId" (PStr "") cleaned /\
              tags_of q =
                Some (PList ((tags0 ++ zones ++ id_tag (entityId q))
                     ++ tech_labels (get_or "softwareTechnologies" (PList []) entity)
                     ++ monitoring_labels (get "monitoringState" entity))%list)).
  { intros ct q Hq.
    destruct (process_entity_inv _ _ _ Hq)
      as (cleaned & tags0 & zones & tags3 & data2 & Hc & H0 & Hz & H3 & _ & Hpe).
    exists cleaned, tags0, zones. split; [exact Hc|]. split; [exact H0|]. split; [exact Hz|].
    rewrite Hpe. cbn [entityId]. split; [reflexivity|].
    unfold tags_of. cbn [component]. rewrite tags_of_processed.
    rewrite add_monitoring_state_spec.
    apply add_software_techs_spec in H3. rewrite H3.
    rewrite (clean_get_or "softwareTechnologies" _ _ _ Hc);
      [| discriminate | discriminate | reflexivity].
    unfold get. rewrite (clean_get_or "monitoringState" _ _ _ Hc);
      [| discriminate | discriminate | reflexivity].
    rewrite tech_labels_coerced, monitoring_labels_coerced.
    rewrite <- !app_assoc. reflexivity. }
  intros Hp. destruct (K _ _ Hp) as (cleaned & tags0 & zones & Hc & H0 & Hz & Hid & Ht).
  split.
  - exists cleaned, (tags0 ++ zones ++ id_tag (entityId p))%list.
    split; [exact Hc|]. split; [|exact Ht]. exists tags0, zones. auto.
  - intros ct' p' Hp'.
    destruct (K _ _ Hp') as (cleaned' & tags0' & zones' & Hc' & H0' & Hz' & Hid' & Ht').
    rewrite Hc in Hc'. inversion Hc'; subst cleaned'.
    rewrite H0 in H0'. inversion H0'; subst tags0'.
    rewrite Hz in Hz'. inversion Hz'; subst zones'.
    rewrite Ht, Ht', Hid, Hid'. reflexivity.
Qed.

(** ** Entities that fail *)

(** an entity [process_entity_to_component] rejects is skipped: its error
    is caught, a warning names its id (or [UNKNOWN]), nothing of it reaches
    the lists, and the loop goes on with the next entity *)
Lemma rejected_entity_is_skipped component_type (entity : pydict) e rest c :
  process_entity_to_component (PDict entity) component_type = Raise e ->
  entities_loop component_type (PDict entity :: rest) c =
  entities_loop component_type rest
    {| components := components c;
       relationships := relationships c;
       warnings := (warnings c ++
                    [{| failed_entity := get_or "entityId" (PStr "UNKNOWN") entity;
                        error := e |}])%list |}.
Proof.
  intros H. cbn [entities_loop]. unfold try_entity. rewrite H. reflexivity.
Qed.

End WithRepr.

#[local] Existing Instance fixed_repr.

(** ** C6 as stated fails *)

(** the claim as stated: an entity of another kind than process-group has
    its plain tags only *)
Definition labels_only_for_process_groups : Prop :=
  forall component_type entity p cleaned plain,
    component_type <> "process-group" ->
    process_entity_to_component (PDict entity) component_type = Ok p ->
    clean_unsupported_metadata (PDict entity) = Ok cleaned ->
    plain_tags p cleaned plain ->
    tags_of p = Some (PList plain).

Definition java_process : pydict :=
  [ (PStr "entityId", PStr "P1");
    (PStr "softwareTechnologies",
     PList [PDict [(PStr "type", PStr "JAVA"); (PStr "edition", PStr "OpenJDK");
                   (PStr "version", PStr "11")]]);
    (PStr "monitoringState",
     PDict [(PStr "actualMonitoringState", PStr "ON");
            (PStr "expectedMonitoringState", PStr "ON")]) ].

(** an entity processed as kind ["process"] gets the labels all the same *)
Lemma process_entity_is_labelled_too : ~ labels_only_for_process_groups.
Proof.
  intros H.
  assert (E : exists p,
            process_entity_to_component (PDict java_process) "process" = Ok p /\
            plain_tags p (drop_last_seen (clean_nested (coerce_top_level java_process)))
              [PStr "P1"] /\
            tags_of p =
              Some (PList [PStr "P1"; PStr "JAVA:OpenJDK:11";
                           PStr "actualMonitoringState:ON";
                           PStr "expectedMonitoringState:ON"])).
  { eexists. split; [vm_compute; reflexivity|]. split; [|reflexivity].
    exists [], []. repeat split. }
  destruct E as (p & Hp & Hplain & Ht).
  assert (A : "process" <> "process-group") by discriminate.
  specialize (H "process" java_process p _ _ A Hp eq_refl Hplain).
  rewrite Ht in H. discriminate.
Qed.

(** the same entity at work: whatever the kind, its tags are those of kind
    ["process"] *)
Lemma labels_for_every_kind_witness :
  exists p,
    process_entity_to_component (PDict java_process) "process" = Ok p /\
    tags_of p = Some (PList [PStr "P1"; PStr "JAVA:OpenJDK:11";
                             PStr "actualMonitoringState:ON";
                             PStr "expectedMonitoringState:ON"]) /\
    forall component_type' p',
      process_entity_to_component (PDict java_process) component_type' = Ok p' ->
      tags_of p' = tags_of p.
Proof.
  eexists. split; [vm_compute; reflexivity|]. split; [reflexivity|].
  apply (proj2 (labels_for_every_kind "process" java_process _ eq_refl)).
Defined.

(** ** C8 on an entity *)

Definition outgoing_example : pydict :=
  [ (PStr "runsOn", PList [PDict [(PStr "id", PStr "H1")]]);
    (PStr "calls", PStr "S1") ].

Definition incoming_example : pydict :=
  [ (PStr "isInstanceOf", PList [PStr "PG1"]) ].

Definition linked_entity : pydict :=
  [ (PStr "entityId", PStr "E1");
    (PStr "fromRelationships", PDict outgoing_example);
    (PStr "toRelationships", PDict incoming_example) ].

(** [E1] running on the record [H1], with the bare id [PG1] as an incoming
    instance and a relation type whose value is no list: two edges, none for
    ["calls"] *)
Lemma relationships_of_entity_witness :
  exists p,
    process_entity_to_component (PDict linked_entity) "process" = Ok p /\
    try_entity "process" (PDict linked_entity)
      {| components := []; relationships := []; warnings := [] |} =
    ({| components := [component p];
        relationships :=
          [ {| source := PStr "E1"; target := PStr "H1"; type := PStr "runsOn" |};
            {| source := PStr "PG1"; target := PStr "E1"; type := PStr "isInstanceOf" |} ];
        warnings := [] |}, None).
Proof.
  eexists. split; [vm_compute; reflexivity|].
  exact (proj1 (proj2 (relationships_of_entity "process" linked_entity _
                         outgoing_example incoming_example
                         {| components := []; relationships := []; warnings := [] |}
                         eq_refl eq_refl eq_refl))).
Defined.

(** ** C1: an entity that fails after its component was appended *)

(** an entity whose [toRelationships] is a list, not a map *)
Definition half_processed : pyval :=
  PDict [ (PStr "entityId", PStr "E1");
          (PStr "fromRelationships", PDict [(PStr "runsOn", PList [PStr "H1"])]);
          (PStr "toRelationships", PList []) ].

Definition well_formed (n : nat) : pyval :=
  PDict [ (PStr "entityId", PStr ("G" ++ str_of_nat n)) ].

(** an entity whose [tags] is [None] *)
Definition without_tags : pyval :=
  PDict [ (PStr "entityId", PStr "E2"); (PStr "tags", PNone) ].

Definition summary (r : res (topology * list warning))
    : option (nat * nat * list warning) :=
  match r with
  | Ok (t, w) => Some (List.length (t_components t), List.length (t_relationships t), w)
  | Raise _ => None
  end.

(** C1, against the code.  Processing [half_processed] raises ([.items()]
    on a list) and the error is caught and reported, yet its component and its outgoing edge are in
    the output: alone it gives one component and one relationship, and with
    nine well-formed entities the batch of ten has ten components. *)
Theorem failed_entity_keeps_its_component :
  summary (process_topology "in.json" "in.json" (PList [half_processed]) (Some "process") 0)
  = Some (1, 1, [{| failed_entity := PStr "E1"; error := AttributeError |}])%nat /\
  summary (process_topology "in.json" "in.json"
             (PList (map well_formed (seq 0 9) ++ [half_processed])) (Some "process") 0)
  = Some (10, 1, [{| failed_entity := PStr "E1"; error := AttributeError |}])%nat.
Proof. split; vm_compute; reflexivity. Qed.

(** when it is the normalisation that raises, the batch of ten has nine
    components *)
Example entity_without_tags_is_left_out :
  summary (process_topology "in.json" "in.json"
             (PList (map well_formed (seq 0 9) ++ [without_tags])) (Some "process") 0)
  = Some (9, 0, [{| failed_entity := PStr "E2"; error := TypeError |}])%nat.
Proof. vm_compute. reflexivity. Qed.

End TopologySpec.

(* ================================================================== *)
(** * main_process_topology.py on the store: what is written where *)
(* ================================================================== *)
Module StoreSpec.
Import Py Store.
Local Open Scope string_scope.
Local Open Scope store_scope.

(** ** Objects made since a point in time *)

(** With [b] the size of the store at some point, the objects at [b] and
    beyond are those made since.  A value is new when it is immutable or
    refers to such an object. *)
Class Fresh (A : Type) : Type := fresh_at : nat -> A -> Prop.

#[local] Instance fresh_val : Fresh val :=
  fun b v => match v with Ref l => (b <= l)%nat | Imm _ => True end.
#[local] Instance fresh_scalar : Fresh scalar := fun _ _ => True.
#[local] Instance fresh_string : Fresh string := fun _ _ => True.
#[local] Instance fresh_bool : Fresh bool := fun _ _ => True.
#[local] Instance fresh_unit : Fresh unit := fun _ _ => True.
#[local] Instance fresh_nat : Fresh nat := fun _ _ => True.
#[local] Instance fresh_pyval : Fresh pyval := fun _ _ => True.
#[local] Instance fresh_exn : Fresh exn := fun _ _ => True.
#[local] Instance fresh_list {A} `{Fresh A} : Fresh (list A) :=
  fun b l => Forall (fresh_at b) l.
#[local] Instance fresh_prod {A B} `{Fresh A} `{Fresh B} : Fresh (A * B) :=
  fun b p => fresh_at b (fst p) /\ fresh_at b (snd p).
#[local] Instance fresh_option {A} `{Fresh A} : Fresh (option A) :=
  fun b o => match o with Some a => fresh_at b a | None => True end.
#[local] Instance fresh_res {A} `{Fresh A} : Fresh (res A) :=
  fun b r => match r with Ok a => fresh_at b a | Raise _ => True end.
#[local] Instance fresh_obj : Fresh obj :=
  fun b o => match o with
             | OList items => fresh_at b items
             | ODict items => fresh_at b items
             end.
#[local] Instance fresh_view : Fresh view :=
  fun b w => match w with
             | Scalar _ => True
             | AList l items => (b <= l)%nat /\ fresh_at b items
             | ADict l items => (b <= l)%nat /\ fresh_at b items
             end.
#[local] Instance fresh_processed : Fresh processed :=
  fun b p => fresh_at b (entityId p) /\ fresh_at b (displayName p) /\
             fresh_at b (component p) /\ fresh_at b (fromRelationships p) /\
             fresh_at b (toRelationships p).
#[local] Instance fresh_relationship : Fresh relationship :=
  fun b r => fresh_at b (source r) /\ fresh_at b (target r) /\ fresh_at b (type r).
#[local] Instance fresh_warning : Fresh warning := fun _ _ => True.
#[local] Instance fresh_collected : Fresh collected :=
  fun b c => fresh_at b (components c) /\ fresh_at b (relationships c) /\
             fresh_at b (warnings c).

(** new objects hold new values only *)
Definition closed (b : nat) (h : heap) : Prop :=
  forall l o, (b <= l)%nat -> nth_error h l = Some o -> fresh_at b o.

(** the objects that were there are as they were *)
Definition frame (b : nat) (h h' : heap) : Prop :=
  forall l, (l < b)%nat -> nth_error h' l = nth_error h l.

(** [m] leaves the objects before [b] alone, keeps the new ones closed,
    and its result satisfies [post] *)
Definition keeps {A} (b : nat) (post : A -> Prop) (m : S A) : Prop :=
  forall h, (b <= List.length h)%nat -> closed b h ->
    frame b h (snd (m h)) /\ closed b (snd (m h)) /\
    (List.length h <= List.length (snd (m h)))%nat /\
    forall a, fst (m h) = Ok a -> post a.

(** ... and its result is new *)
Definition safe {A} `{Fresh A} (b : nat) (m : S A) : Prop :=
  keeps b (fresh_at b) m.

Lemma frame_refl b h : frame b h h.
Proof. intros l _. reflexivity. Qed.

Lemma frame_trans b h1 h2 h3 : frame b h1 h2 -> frame b h2 h3 -> frame b h1 h3.
Proof. intros H1 H2 l Hl. rewrite (H2 l Hl). apply H1. exact Hl. Qed.

Lemma kept_ret {A} b (post : A -> Prop) a : post a -> keeps b post (ret a).
Proof.
  intros Ha h Hb Hc. cbn. split; [apply frame_refl|]. split; [exact Hc|].
  split; [lia|]. intros a' E. inversion E; subst. exact Ha.
Qed.

Lemma kept_raise {A} b (post : A -> Prop) e : keeps b post (raise e).
Proof.
  intros h Hb Hc. cbn. split; [apply frame_refl|]. split; [exact Hc|].
  split; [lia|]. discriminate.
Qed.

Lemma kept_lift {A} b (post : A -> Prop) (r : res A) :
  (forall a, r = Ok a -> post a) -> keeps b post (lift r).
Proof.
  intros Hr h Hb Hc. cbn. split; [apply frame_refl|]. split; [exact Hc|].
  split; [lia | exact Hr].
Qed.

Lemma kept_bind {A B} b (mid : A -> Prop) (post : B -> Prop) (m : S A) (k : A -> S B) :
  keeps b mid m -> (forall a, mid a -> keeps b post (k a)) ->
  keeps b post (bind m k).
Proof.
  intros Hm Hk h Hb Hc. unfold bind.
  destruct (Hm h Hb Hc) as (F1 & C1 & L1 & P1).
  destruct (m h) as [[a|e] h1]; cbn [fst snd] in *.
  - destruct (Hk a (P1 a eq_refl) h1 ltac:(lia) C1) as (F2 & C2 & L2 & P2).
    split; [eapply frame_trans; eassumption|]. split; [exact C2|].
    split; [lia | exact P2].
  - split; [exact F1|]. split; [exact C1|]. split; [exact L1 | discriminate].
Qed.

Lemma keeps_weaken {A} b (post post' : A -> Prop) (m : S A) :
  keeps b post m -> (forall a, post a -> post' a) -> keeps b post' m.
Proof.
  intros Hm Hw h Hb Hc. destruct (Hm h Hb Hc) as (F & C & L & P).
  split; [exact F|]. split; [exact C|]. split; [exact L|]. intros a E. auto.
Qed.

(** ** The store operations *)

Lemma nth_error_app_new {A} (h : list A) o l :
  nth_error (h ++ [o]) l = Some o \/ nth_error (h ++ [o]) l = nth_error h l.
Proof.
  destruct (Nat.lt_ge_cases l (List.length h)) as [Hl|Hl].
  - right. apply nth_error_app1. exact Hl.
  - rewrite nth_error_app2 by exact Hl.
    destruct (l - List.length h)%nat as [|n] eqn:E; cbn.
    + left. reflexivity.
    + right. destruct n; cbn; symmetry; apply nth_error_None; lia.
Qed.

Lemma safe_alloc b o : fresh_at b o -> safe b (alloc o).
Proof.
  intros Ho h Hb Hc. cbn. split; [| split; [| split]].
  - intros l Hl. apply nth_error_app1. lia.
  - intros l o' Hl E.
    destruct (nth_error_app_new h o l) as [E'|E']; rewrite E' in E.
    + inversion E; subst. exact Ho.
    + apply (Hc l); assumption.
  - rewrite length_app. cbn. lia.
  - intros a E. inversion E; subst. exact Hb.
Qed.

Lemma keeps_read_any b l : keeps b (fun _ => True) (read l).
Proof.
  intros h Hb Hc. unfold read.
  destruct (nth_error h l); cbn; (split; [apply frame_refl|]; split; [exact Hc|];
    split; [lia | auto]).
Qed.

Lemma safe_read b l : (b <= l)%nat -> safe b (read l).
Proof.
  intros Hl h Hb Hc. unfold read.
  destruct (nth_error h l) as [o|] eqn:E; cbn;
    (split; [apply frame_refl|]; split; [exact Hc|]; split; [lia|]).
  - intros a Ea. inversion Ea; subst. apply (Hc l); assumption.
  - discriminate.
Qed.

Lemma replace_length l o h : List.length (replace l o h) = List.length h.
Proof.
  revert l. induction h as [|o' h IH]; intros l; cbn; [reflexivity|].
  destruct l; cbn; [reflexivity | rewrite IH; reflexivity].
Qed.

Lemma replace_other l o h l' :
  l' <> l -> nth_error (replace l o h) l' = nth_error h l'.
Proof.
  revert l l'. induction h as [|o' h IH]; intros l l' Hne; cbn; [reflexivity|].
  destruct l; cbn.
  - destruct l'; [contradiction | reflexivity].
  - destruct l'; cbn; [reflexivity|]. apply IH. lia.
Qed.

Lemma replace_same l o h o' :
  nth_error (replace l o h) l = Some o' -> o' = o.
Proof.
  revert l. induction h as [|o0 h IH]; intros l; cbn.
  - destruct l; discriminate.
  - destruct l; cbn; [intros E; inversion E; reflexivity | apply IH].
Qed.

Lemma safe_write b l o : (b <= l)%nat -> fresh_at b o -> safe b (write l o).
Proof.
  intros Hl Ho h Hb Hc. cbn. split; [| split; [| split]].
  - intros l' Hl'. apply replace_other. lia.
  - intros l' o' Hl' E. destruct (Nat.eq_dec l' l) as [->|Hne].
    + apply replace_same in E. subst. exact Ho.
    + rewrite replace_other in E by exact Hne. apply (Hc l'); assumption.
  - rewrite replace_length. lia.
  - intros a _. exact I.
Qed.

Lemma safe_size b : safe b size.
Proof.
  intros h Hb Hc. cbn. split; [apply frame_refl|]. split; [exact Hc|].
  split; [lia|]. intros a _. exact I.
Qed.

Lemma safe_ret {A} `{Fresh A} b (a : A) : fresh_at b a -> safe b (ret a).
Proof. apply kept_ret. Qed.

Lemma safe_raise {A} `{Fresh A} b e : safe b (@raise A e).
Proof. apply kept_raise. Qed.

Lemma safe_bind {A B} `{Fresh A} `{Fresh B} b (m : S A) (k : A -> S B) :
  safe b m -> (forall a, fresh_at b a -> safe b (k a)) -> safe b (bind m k).
Proof. apply kept_bind. Qed.

(** a result that holds no reference is new whatever was read *)
Lemma safe_of_keeps {A} `{Fresh A} b (m : S A) :
  (forall a, fresh_at b a) -> keeps b (fun _ => True) m -> safe b m.
Proof. intros Ha Hm. eapply keeps_weaken; [exact Hm | auto]. Qed.

Lemma keeps_look_any b v : keeps b (fun _ => True) (look v).
Proof.
  destruct v as [c|l]; cbn [look]; [apply kept_ret; exact I|].
  eapply kept_bind; [apply keeps_read_any|]. intros o _. apply kept_ret. exact I.
Qed.

Lemma safe_look b v : fresh_at b v -> safe b (look v).
Proof.
  destruct v as [c|l]; cbn [look]; intros Hv; [apply safe_ret; exact I|].
  eapply safe_bind; [apply safe_read; exact Hv|].
  intros o Ho. apply safe_ret. destruct o; split; assumption.
Qed.

Lemma safe_is_truthy b v : safe b (is_truthy v).
Proof.
  apply safe_of_keeps; [intros a; exact I|]. unfold is_truthy.
  eapply kept_bind; [apply keeps_look_any|]. intros w _. apply kept_ret. exact I.
Qed.

Lemma safe_items_of b l : (b <= l)%nat -> safe b (items_of l).
Proof.
  intros Hl. unfold items_of. eapply safe_bind; [apply safe_read; exact Hl|].
  intros o Ho. destruct o; [apply safe_raise | apply safe_ret; exact Ho].
Qed.

Lemma items_get_fresh {V} `{Fresh V} b k (d : list (scalar * V)) :
  fresh_at b d -> fresh_at b (items_get k d).
Proof.
  induction d as [|[k' v] d IH]; cbn [items_get]; intros Hd; [exact I|].
  inversion Hd as [|? ? Hv Hd']; subst.
  destruct (skey_eqb k k'); [exact (proj2 Hv) | apply IH; exact Hd'].
Qed.

Lemma items_set_fresh {V} `{Fresh V} b k (v : V) (d : list (scalar * V)) :
  fresh_at b d -> fresh_at b v -> fresh_at b (items_set k v d).
Proof.
  intros Hd Hv. induction d as [|[k' v'] d IH]; cbn [items_set].
  - constructor; [split; [exact I | exact Hv] | constructor].
  - inversion Hd as [|? ? Hv' Hd']; subst.
    destruct (skey_eqb k k'); constructor; try assumption.
    + split; [exact I | exact Hv].
    + apply IH. exact Hd'.
Qed.

Lemma items_del_fresh {V} `{Fresh V} b k (d : list (scalar * V)) :
  fresh_at b d -> fresh_at b (items_del k d).
Proof.
  induction d as [|[k' v'] d IH]; cbn [items_del]; intros Hd; [constructor|].
  inversion Hd as [|? ? Hv' Hd']; subst.
  destruct (skey_eqb k k'); [exact Hd'|]. constructor; [exact Hv' | apply IH; exact Hd'].
Qed.

Lemma field_or_fresh b k default (d : list (scalar * val)) :
  fresh_at b d -> fresh_at b default -> fresh_at b (field_or k default d).
Proof.
  intros Hd Hv. unfold field_or.
  pose proof (items_get_fresh b (SStr k) d Hd) as G.
  destruct (items_get (SStr k) d); [exact G | exact Hv].
Qed.

Lemma field_fresh b k (d : list (scalar * val)) :
  fresh_at b d -> fresh_at b (field k d).
Proof. intros Hd. apply field_or_fresh; [exact Hd | exact I]. Qed.

Lemma safe_setitem b l k v : (b <= l)%nat -> fresh_at b v -> safe b (setitem l k v).
Proof.
  intros Hl Hv. unfold setitem. eapply safe_bind; [apply safe_items_of; exact Hl|].
  intros items Hi. apply safe_write; [exact Hl|]. apply items_set_fresh; assumption.
Qed.

Lemma safe_delitem b l k : (b <= l)%nat -> safe b (delitem l k).
Proof.
  intros Hl. unfold delitem. eapply safe_bind; [apply safe_items_of; exact Hl|].
  intros items Hi. apply safe_write; [exact Hl|]. apply items_del_fresh; assumption.
Qed.

Lemma safe_pop b l k : (b <= l)%nat -> safe b (pop l k).
Proof.
  intros Hl. unfold pop. eapply safe_bind; [apply safe_items_of; exact Hl|].
  intros items Hi. eapply safe_bind.
  - apply safe_write; [exact Hl|]. apply items_del_fresh; assumption.
  - intros _ _. apply safe_ret. apply field_fresh. exact Hi.
Qed.

Lemma safe_entry b l name : (b <= l)%nat -> safe b (entry l name).
Proof.
  intros Hl. unfold entry. eapply safe_bind; [apply safe_items_of; exact Hl|].
  intros items Hi. apply safe_ret. apply items_get_fresh. exact Hi.
Qed.

Lemma keeps_snapshot b v : keeps b (fun _ => True) (snapshot v).
Proof.
  intros h Hb Hc. unfold snapshot.
  destruct (snap _ h v); cbn; (split; [apply frame_refl|]; split; [exact Hc|];
    split; [lia | auto]).
Qed.

Lemma safe_str {R : Repr} b v : safe b (str v).
Proof.
  apply safe_of_keeps; [intros a; exact I|].
  destruct v; cbn [str]; [apply kept_ret; exact I|].
  eapply kept_bind; [apply keeps_snapshot|]. intros j _. apply kept_ret. exact I.
Qed.

Lemma keeps_reading {A} b (entity : val) (f : pydict -> res A) :
  keeps b (fun _ => True) (reading entity f).
Proof.
  unfold reading. eapply kept_bind; [apply keeps_snapshot|].
  intros j _. destruct j; try apply kept_raise. apply kept_lift. auto.
Qed.

Lemma labels_fresh b (labels : list pyval) : fresh_at b (map label labels).
Proof.
  induction labels as [|j labels IH]; cbn [map]; constructor; [|exact IH].
  unfold label. destruct (to_scalar j); exact I.
Qed.

Lemma safe_labels {R : Repr} b (entity : val) (f : pydict -> res (list pyval)) :
  safe b (bind (reading entity f) (fun labels => ret (map label labels))).
Proof.
  eapply kept_bind; [apply keeps_reading|].
  intros labels _. apply safe_ret. apply labels_fresh.
Qed.

Lemma safe_for_each {A} `{Fresh A} b (l : list A) (f : A -> S unit) :
  fresh_at b l -> (forall x, fresh_at b x -> safe b (f x)) -> safe b (for_each l f).
Proof.
  intros Hl Hf. induction l as [|x l IH]; cbn [for_each]; [apply safe_ret; exact I|].
  inversion Hl; subst. eapply safe_bind; [apply Hf; assumption|].
  intros _ _. apply IH. assumption.
Qed.

Lemma safe_map_s {A B} `{Fresh A} `{Fresh B} b (f : A -> S B) (l : list A) :
  fresh_at b l -> (forall x, fresh_at b x -> safe b (f x)) -> safe b (map_s f l).
Proof.
  intros Hl Hf. induction l as [|x l IH]; cbn [map_s]; [apply safe_ret; constructor|].
  inversion Hl; subst. eapply safe_bind; [apply Hf; assumption|].
  intros y Hy. eapply safe_bind; [apply IH; assumption|].
  intros ys Hys. apply safe_ret. constructor; assumption.
Qed.

(** [copy] reads what it is given and writes nothing: whatever it is
    given, its result is new *)
Lemma safe_copy b fuel v : safe b (copy fuel v).
Proof.
  revert v. induction fuel as [|fuel IH]; intros v; destruct v as [c|l]; cbn [copy];
    try (apply safe_ret; exact I); try apply safe_raise.
  eapply kept_bind; [apply keeps_read_any|]. intros o _.
  assert (M : forall items : list val, safe b (map_s (copy fuel) items)).
  { induction items as [|x items IHi]; cbn [map_s]; [apply safe_ret; constructor|].
    eapply safe_bind; [apply IH|]. intros y Hy.
    eapply safe_bind; [apply IHi|]. intros ys Hys. apply safe_ret. constructor; assumption. }
  destruct o as [items|items].
  - eapply safe_bind; [apply M|]. intros items' Hi. apply safe_alloc. exact Hi.
  - eapply safe_bind.
    + induction items as [|[k x] items IHi]; cbn [map_s]; [apply safe_ret; constructor|].
      eapply safe_bind.
      * eapply safe_bind; [apply IH|]. intros y Hy. apply safe_ret. split; [exact I | exact Hy].
      * intros y Hy. eapply safe_bind; [apply IHi|].
        intros ys Hys. apply safe_ret. constructor; assumption.
    + intros items' Hi. apply safe_alloc. exact Hi.
Qed.

Lemma safe_deepcopy b v : safe b (deepcopy v).
Proof.
  unfold deepcopy. eapply safe_bind; [apply safe_size|]. intros n _. apply safe_copy.
Qed.

(** ** The functions of the program *)

Create HintDb safe.
#[local] Hint Resolve safe_is_truthy safe_deepcopy safe_size : safe.
#[local] Hint Resolve field_fresh field_or_fresh items_get_fresh items_set_fresh
  items_del_fresh labels_fresh : safe.

(** what the hypotheses say of the parts of a value *)
Ltac fresh_hyps :=
  repeat match goal with
  | H : fresh_at _ (ADict _ _) |- _ => destruct H as [? ?]
  | H : fresh_at _ (AList _ _) |- _ => destruct H as [? ?]
  | H : fresh_at _ (Some _) |- _ => change (fresh_at ?b (Some ?a)) with (fresh_at b a) in H
  | H : fresh_at _ (_ :: _) |- _ => inversion H; subst; clear H
  | H : fresh_at _ (Ref _) |- _ => change (fresh_at ?b (Ref ?l)) with (b <= l)%nat in H
  | H : fresh_at _ (_, _) |- _ => destruct H as [? ?]
  end.

Ltac newness :=
  fresh_hyps;
  first
    [ assumption
    | exact I
    | solve [ auto with safe ]
    | solve [ repeat (first [ split | constructor ]); auto with safe ] ].

Ltac safe_step :=
  lazymatch goal with
  | |- safe _ (bind _ _) => eapply safe_bind; [ | intros ? ? ]
  | |- safe _ (ret _) => apply safe_ret; newness
  | |- safe _ (raise _) => apply safe_raise
  | |- safe _ (look _) => apply safe_look; newness
  | |- safe _ (is_truthy _) => apply safe_is_truthy
  | |- safe _ (str _) => apply safe_str
  | |- safe _ (items_of _) => apply safe_items_of; newness
  | |- safe _ (entry _ _) => apply safe_entry; newness
  | |- safe _ (setitem _ _ _) => apply safe_setitem; newness
  | |- safe _ (delitem _ _) => apply safe_delitem; newness
  | |- safe _ (pop _ _) => apply safe_pop; newness
  | |- safe _ (alloc _) => apply safe_alloc; newness
  | |- safe _ (match ?x with _ => _ end) => destruct x
  | |- safe _ (if ?x then _ else _) => destruct x
  | |- safe _ _ => fresh_hyps; solve [ auto with safe ]
  end.

Ltac safe := repeat safe_step.

Section WithRepr.
Context {R : Repr}.

Lemma safe_coerce_key b c key : (b <= c)%nat -> safe b (coerce_key c key).
Proof.
  intros Hc. unfold coerce_key. safe.
Qed.
#[local] Hint Resolve safe_coerce_key : safe.

Lemma safe_coerce_top_level b c : (b <= c)%nat -> safe b (coerce_top_level c).
Proof.
  intros Hc. unfold coerce_top_level. safe.
  apply safe_for_each; [|intros x _; apply safe_coerce_key; exact Hc].
  apply Forall_forall. intros x _. exact I.
Qed.
#[local] Hint Resolve safe_coerce_top_level : safe.

Lemma safe_service_name b i service : fresh_at b service -> safe b (service_name i service).
Proof.
  intros Hs. unfold service_name. safe.
Qed.
#[local] Hint Resolve safe_service_name : safe.

Lemma safe_convert_services b i services :
  fresh_at b services -> safe b (convert_services i services).
Proof.
  revert i. induction services as [|service rest IH]; intros i Hs; cbn [convert_services].
  - safe.
  - inversion Hs; subst. eapply safe_bind; [apply safe_service_name; assumption|].
    intros name Hn. eapply safe_bind; [apply IH; assumption|]. intros names Hns. safe.
Qed.
#[local] Hint Resolve safe_convert_services : safe.

Lemma safe_resolved_key b i item : fresh_at b item -> safe b (resolved_key i item).
Proof.
  intros Hi. unfold resolved_key. safe.
Qed.
#[local] Hint Resolve safe_resolved_key : safe.

Lemma resolved_value_fresh b i item : fresh_at b item -> fresh_at b (resolved_value i item).
Proof.
  intros Hi. unfold resolved_value. apply field_or_fresh; [exact Hi|].
  apply field_or_fresh; [exact Hi | exact I].
Qed.
#[local] Hint Resolve resolved_value_fresh : safe.

Lemma safe_convert_item b i item converted_dict :
  fresh_at b item -> fresh_at b converted_dict ->
  safe b (convert_item i item converted_dict).
Proof.
  intros Hi Hd. unfold convert_item. safe.
Qed.
#[local] Hint Resolve safe_convert_item : safe.

Lemma safe_convert_custom_metadata b i items converted_dict :
  fresh_at b items -> fresh_at b converted_dict ->
  safe b (convert_custom_metadata i items converted_dict).
Proof.
  revert i converted_dict.
  induction items as [|item rest IH]; intros i converted_dict Hi Hd;
    cbn [convert_custom_metadata].
  - safe.
  - inversion Hi; subst. eapply safe_bind; [apply safe_convert_item; assumption|].
    intros d1 Hd1. apply IH; assumption.
Qed.
#[local] Hint Resolve safe_convert_custom_metadata : safe.

Lemma safe_clean_releases_version b p : (b <= p)%nat -> safe b (clean_releases_version p).
Proof.
  intros Hp. unfold clean_releases_version. safe.
Qed.
#[local] Hint Resolve safe_clean_releases_version : safe.

Lemma safe_clean_os_services b p : (b <= p)%nat -> safe b (clean_os_services p).
Proof.
  intros Hp. unfold clean_os_services. safe.
Qed.
#[local] Hint Resolve safe_clean_os_services : safe.

Lemma safe_clean_custom_metadata b p : (b <= p)%nat -> safe b (clean_custom_metadata p).
Proof.
  intros Hp. unfold clean_custom_metadata. safe.
  all: try (apply safe_convert_custom_metadata; [newness | constructor]).
Qed.
#[local] Hint Resolve safe_clean_custom_metadata : safe.

Lemma safe_wrap_log_field b name p : (b <= p)%nat -> safe b (wrap_log_field name p).
Proof.
  intros Hp. unfold wrap_log_field. safe.
Qed.
#[local] Hint Resolve safe_wrap_log_field : safe.

Lemma safe_clean_properties b p : (b <= p)%nat -> safe b (clean_properties p).
Proof.
  intros Hp. unfold clean_properties.
  eapply safe_bind; [apply safe_clean_releases_version; exact Hp | intros _ _].
  eapply safe_bind; [apply safe_clean_os_services; exact Hp | intros _ _].
  eapply safe_bind; [apply safe_clean_custom_metadata; exact Hp | intros _ _].
  eapply safe_bind; [apply safe_wrap_log_field; exact Hp | intros _ _].
  apply safe_wrap_log_field; exact Hp.
Qed.
#[local] Hint Resolve safe_clean_properties : safe.

Lemma safe_clean_in_place b component :
  fresh_at b component -> safe b (clean_in_place component).
Proof.
  intros Hc. unfold clean_in_place. safe.
Qed.
#[local] Hint Resolve safe_clean_in_place : safe.

(** whatever [component] refers to, what [clean_unsupported_metadata]
    changes and returns is new *)
Lemma safe_clean_unsupported_metadata b component :
  safe b (clean_unsupported_metadata component).
Proof.
  unfold clean_unsupported_metadata.
  eapply safe_bind; [apply safe_deepcopy | intros c Hc].
  apply safe_clean_in_place. exact Hc.
Qed.
#[local] Hint Resolve safe_clean_unsupported_metadata : safe.

Lemma safe_hoist b data p name :
  (b <= data)%nat -> (b <= p)%nat -> safe b (hoist data p name).
Proof.
  intros Hd Hp. unfold hoist. safe.
Qed.
#[local] Hint Resolve safe_hoist : safe.

Lemma safe_fold_entry b meta_out entry :
  fresh_at b meta_out -> fresh_at b entry -> safe b (fold_entry meta_out entry).
Proof.
  intros Hm He. unfold fold_entry.
  eapply safe_bind; [apply safe_look; exact He | intros w Hw].
  destruct w as [?|? ?|l e]; try (apply safe_ret; exact Hm).
  destruct Hw as [Hl Hi].
  eapply safe_bind; [apply safe_is_truthy | intros t _].
  destruct t; [|apply safe_ret; exact Hm].
  destruct (field "key" e) as [c|r]; [|apply safe_raise].
  eapply kept_bind; [apply kept_lift; intros; exact I | intros target _].
  destruct (to_scalar target) as [target_key|]; [|apply safe_raise].
  apply safe_ret.
  assert (H1 : fresh_at b
            (match items_get target_key meta_out with
             | Some _ => meta_out
             | None => items_set target_key [] meta_out
             end)).
  { destruct (items_get target_key meta_out); [exact Hm|].
    apply items_set_fresh; [exact Hm | constructor]. }
  pose proof (field_fresh b "value" e Hi) as Hv.
  destruct (field "value" e) as [[]|r]; try exact H1;
    match goal with
    | |- fresh_at b (match items_get ?k ?d with _ => _ end) =>
        pose proof (items_get_fresh b k d H1) as Hg;
        destruct (items_get k d) as [old|]; [|exact H1];
        apply items_set_fresh; [exact H1|];
        apply Forall_app; split; [exact Hg | constructor; [exact Hv | constructor]]
    end.
Qed.
#[local] Hint Resolve safe_fold_entry : safe.

Lemma safe_fold_entries b entries meta_out :
  fresh_at b entries -> fresh_at b meta_out -> safe b (fold_entries entries meta_out).
Proof.
  revert meta_out. induction entries as [|entry rest IH]; intros meta_out He Hm;
    cbn [fold_entries].
  - apply safe_ret. exact Hm.
  - inversion He; subst. eapply safe_bind; [apply safe_fold_entry; assumption|].
    intros m1 Hm1. apply IH; assumption.
Qed.
#[local] Hint Resolve safe_fold_entries : safe.

Lemma safe_new_meta_out b meta_out : fresh_at b meta_out -> safe b (new_meta_out meta_out).
Proof.
  intros Hm. unfold new_meta_out. eapply safe_bind.
  - apply safe_map_s; [exact Hm|]. intros [k l] [_ Hl]. cbn [fst snd] in *.
    eapply safe_bind; [apply safe_alloc; exact Hl | intros v Hv].
    apply safe_ret. split; [exact I | exact Hv].
  - intros items Hi. apply safe_alloc. exact Hi.
Qed.
#[local] Hint Resolve safe_new_meta_out : safe.

Lemma safe_normalize b data :
  (b <= data)%nat -> safe b (normalize_process_group_v2_to_v1 data).
Proof.
  intros Hd. unfold normalize_process_group_v2_to_v1.
  eapply safe_bind; [apply safe_items_of; exact Hd | intros items Hi].
  eapply safe_bind; [apply safe_is_truthy | intros t _].
  eapply safe_bind.
  { destruct t; [apply safe_ret; apply field_fresh; exact Hi | apply safe_alloc; constructor]. }
  intros properties Hp.
  eapply safe_bind; [apply safe_look; exact Hp | intros w Hw].
  destruct w as [?|? ?|p pitems0]; try (apply safe_ret; exact I).
  destruct Hw as [Hl _].
  eapply safe_bind; [apply safe_hoist; assumption | intros _ _].
  eapply safe_bind; [apply safe_hoist; assumption | intros _ _].
  eapply safe_bind; [apply safe_items_of; exact Hl | intros pitems Hpi].
  eapply safe_bind; [apply safe_is_truthy | intros td _].
  eapply safe_bind; [apply safe_items_of; exact Hd | intros ditems Hdi].
  eapply safe_bind; [apply safe_is_truthy | intros tn _].
  eapply safe_bind.
  { destruct (td && negb tn); [|apply safe_ret; exact I].
    apply safe_setitem; [exact Hd | apply field_fresh; exact Hpi]. }
  intros _ _.
  eapply safe_bind; [apply safe_pop; exact Hl | intros entries He].
  eapply safe_bind; [apply safe_look; exact He | intros mw Hmw].
  destruct mw as [?|? [|entry rest]|? ?]; try (apply safe_ret; exact I).
  destruct Hmw as [_ Hes].
  eapply safe_bind; [apply safe_fold_entries; [exact Hes | constructor] | intros meta_out Hm].
  destruct meta_out as [|kv more]; [apply safe_ret; exact I|].
  eapply safe_bind; [apply safe_new_meta_out; exact Hm | intros d Hdv].
  apply safe_setitem; assumption.
Qed.
#[local] Hint Resolve safe_normalize : safe.

Lemma safe_process_entity_to_component b entity component_type :
  safe b (process_entity_to_component entity component_type).
Proof.
  unfold process_entity_to_component.
  eapply safe_bind; [apply safe_clean_unsupported_metadata | intros cleaned Hc].
  eapply safe_bind; [apply safe_look; exact Hc | intros w Hw].
  destruct w as [?|? ?|c items]; try apply safe_raise.
  destruct Hw as [Hl Hi].
  assert (Hid : fresh_at b (field_or "entityId" (Imm (SStr "")) items))
    by (apply field_or_fresh; [exact Hi | exact I]).
  eapply safe_bind; [apply safe_str | intros id_text _].
  eapply safe_bind; [apply safe_labels | intros tags0 H0].
  eapply safe_bind; [apply safe_labels | intros zones Hz].
  eapply safe_bind; [apply safe_is_truthy | intros t _].
  eapply safe_bind; [apply safe_labels | intros tech Ht].
  eapply safe_bind; [apply safe_labels | intros monitoring Hm].
  eapply safe_bind; [apply safe_alloc; constructor | intros component_data Hd].
  destruct component_data as [?|data]; [apply safe_raise|].
  eapply safe_bind.
  { apply safe_for_each; [exact Hi|]. intros [k v] [_ Hv]. apply safe_setitem; assumption. }
  intros _ _.
  eapply safe_bind; [apply safe_delitem; exact Hd | intros _ _].
  eapply safe_bind; [apply safe_delitem; exact Hd | intros _ _].
  eapply safe_bind; [apply safe_delitem; exact Hd | intros _ _].
  eapply safe_bind.
  { destruct (String.eqb component_type "process-group");
      [apply safe_normalize; exact Hd | apply safe_ret; exact I]. }
  intros _ _.
  eapply safe_bind; [apply safe_alloc; repeat constructor | intros ids Hids].
  eapply safe_bind.
  { apply safe_alloc. repeat (apply Forall_app; split); try assumption.
    destruct t; [constructor; [exact Hid | constructor] | constructor]. }
  intros tgs Htgs.
  eapply safe_bind; [apply safe_setitem; assumption | intros _ _].
  eapply safe_bind; [apply safe_setitem; assumption | intros _ _].
  eapply safe_bind; [apply safe_setitem; [exact Hd | exact I] | intros _ _].
  eapply safe_bind; [apply safe_alloc; constructor | intros empty1 He1].
  eapply safe_bind; [apply safe_alloc; constructor | intros empty2 He2].
  apply safe_ret. repeat split; cbn [entityId displayName component fromRelationships toRelationships].
  - exact Hid.
  - apply field_or_fresh; assumption.
  - exact Hd.
  - apply field_or_fresh; assumption.
  - apply field_or_fresh; assumption.
Qed.

Lemma safe_id_of b x : fresh_at b x -> safe b (id_of x).
Proof.
  intros Hx. unfold id_of. safe.
Qed.

Lemma safe_outgoing_targets b entity_id rel_type l rels :
  fresh_at b entity_id -> fresh_at b rel_type -> fresh_at b l -> fresh_at b rels ->
  safe b (outgoing_targets entity_id rel_type l rels).
Proof.
  intros He Ht. revert rels. induction l as [|x l IH]; intros rels Hl Hr;
    cbn [outgoing_targets]; [apply safe_ret; exact Hr|].
  inversion Hl; subst.
  eapply safe_bind; [apply safe_id_of; assumption | intros target_id Hid].
  eapply safe_bind; [apply safe_is_truthy | intros t _].
  apply IH; [assumption|]. destruct t; [|exact Hr].
  apply Forall_app. split; [exact Hr|]. constructor; [|constructor].
  repeat split; assumption.
Qed.

Lemma safe_incoming_sources b entity_id rel_type l rels :
  fresh_at b entity_id -> fresh_at b rel_type -> fresh_at b l -> fresh_at b rels ->
  safe b (incoming_sources entity_id rel_type l rels).
Proof.
  intros He Ht. revert rels. induction l as [|x l IH]; intros rels Hl Hr;
    cbn [incoming_sources]; [apply safe_ret; exact Hr|].
  inversion Hl; subst.
  eapply safe_bind; [apply safe_id_of; assumption | intros source_id Hid].
  eapply safe_bind; [apply safe_is_truthy | intros t _].
  apply IH; [assumption|]. destruct t; [|exact Hr].
  apply Forall_app. split; [exact Hr|]. constructor; [|constructor].
  repeat split; assumption.
Qed.

Lemma safe_relationships_loop b inner rel_items rels :
  (forall rel_type l rels,
     fresh_at b rel_type -> fresh_at b l -> fresh_at b rels ->
     safe b (inner rel_type l rels)) ->
  fresh_at b rel_items -> fresh_at b rels ->
  safe b (relationships_loop inner rel_items rels).
Proof.
  intros Hin. revert rels.
  induction rel_items as [|[rel_type v] rest IH]; intros rels Hi Hr;
    cbn [relationships_loop]; [apply safe_ret; exact Hr|].
  inversion Hi as [|? ? [_ Hv] Hrest]; subst. cbn [snd] in Hv.
  eapply safe_bind; [apply safe_look; exact Hv | intros w Hw].
  destruct w as [?|? l|? ?]; try (apply IH; assumption).
  destruct Hw as [_ Hl].
  eapply safe_bind; [apply Hin; [exact I | exact Hl | exact Hr] | intros rels1 Hr1].
  apply IH; assumption.
Qed.

Lemma safe_dict_items b v : fresh_at b v -> safe b (dict_items v).
Proof.
  intros Hv. unfold dict_items. safe.
Qed.

Lemma safe_caught {A} `{Fresh A} b (m : S A) : safe b m -> safe b (caught m).
Proof.
  intros Hm h Hb Hc. destruct (Hm h Hb Hc) as (F & C & L & P).
  unfold caught. destruct (m h) as [r h1]; cbn [fst snd] in *.
  split; [exact F|]. split; [exact C|]. split; [exact L|].
  intros a E. inversion E; subst. destruct a; [apply P; reflexivity | exact I].
Qed.

Lemma safe_try_entity b component_type entity c :
  fresh_at b c -> safe b (try_entity component_type entity c).
Proof.
  intros (Hcs & Hrs & Hws). unfold try_entity.
  eapply safe_bind; [apply safe_caught; apply safe_process_entity_to_component | intros r Hr].
  destruct r as [p|e]; [|apply safe_ret; repeat split; assumption].
  destruct Hr as (Hid & _ & Hcomp & Hfrom & Hto).
  assert (Hc1 : fresh_at b (components c ++ [component p])%list)
    by (apply Forall_app; split; [exact Hcs | constructor; [exact Hcomp | constructor]]).
  eapply safe_bind; [apply safe_caught; apply safe_dict_items; exact Hfrom | intros r1 Hr1].
  destruct r1 as [from_rels|e]; [|apply safe_ret; repeat split; assumption].
  eapply safe_bind.
  { apply safe_relationships_loop; [|exact Hr1 | exact Hrs].
    intros. apply safe_outgoing_targets; assumption. }
  intros rels2 Hr2. cbn [components relationships warnings].
  eapply safe_bind; [apply safe_caught; apply safe_dict_items; exact Hto | intros r2 Hr2'].
  destruct r2 as [to_rels|e]; [|apply safe_ret; repeat split; assumption].
  eapply safe_bind.
  { apply safe_relationships_loop; [|exact Hr2' | exact Hr2].
    intros. apply safe_incoming_sources; assumption. }
  intros rels3 Hr3. apply safe_ret. repeat split; assumption.
Qed.

Lemma safe_except_entity b entity e c :
  fresh_at b c -> safe b (except_entity entity e c).
Proof.
  intros (Hcs & Hrs & Hws). unfold except_entity.
  eapply kept_bind; [apply keeps_look_any | intros w _].
  destruct w; try apply safe_raise. apply safe_ret.
  split; [exact Hcs|]. split; [exact Hrs|].
  apply Forall_forall. intros x _. exact I.
Qed.

Lemma safe_entities_loop b component_type entities c :
  fresh_at b c -> safe b (entities_loop component_type entities c).
Proof.
  revert c. induction entities as [|entity rest IH]; intros c Hc; cbn [entities_loop].
  - apply safe_ret. exact Hc.
  - eapply safe_bind; [apply safe_try_entity; exact Hc | intros [c1 [e|]] [Hc1 _]].
    + eapply safe_bind; [apply safe_except_entity; exact Hc1 | intros c2 Hc2].
      apply IH. exact Hc2.
    + apply IH. exact Hc1.
Qed.

(** ** The input is left as it was *)

Lemma closed_at_size h : closed (List.length h) h.
Proof.
  intros l o Hl E. assert (l < List.length h)%nat by (apply nth_error_Some; congruence). lia.
Qed.

Lemma all_some_map {A B} (f g : A -> option B) (l : list A) r :
  (forall x y, In x l -> f x = Some y -> g x = Some y) ->
  all_some (map f l) = Some r -> all_some (map g l) = Some r.
Proof.
  revert r. induction l as [|x l IH]; intros r Hfg; cbn [map all_some]; [auto|].
  destruct (f x) as [y|] eqn:E; [|discriminate].
  rewrite (Hfg x y (or_introl eq_refl) E).
  destruct (all_some (map f l)) as [ys|] eqn:El; [|discriminate].
  rewrite (IH ys); [auto | | reflexivity].
  intros x' y' Hin. apply Hfg. right. exact Hin.
Qed.

(** a structure read in full from the objects that were there reads the
    same afterwards *)
Lemma snap_frame h h' fuel v j :
  frame (List.length h) h h' -> snap fuel h v = Some j -> snap fuel h' v = Some j.
Proof.
  intros F. revert v j. induction fuel as [|fuel IH]; intros v j; destruct v as [c|l];
    cbn [snap]; try (intros E; exact E).
  destruct (nth_error h l) as [o|] eqn:E; [|discriminate].
  assert (Hl : (l < List.length h)%nat) by (apply nth_error_Some; congruence).
  rewrite (F l Hl), E.
  destruct o as [items|items].
  - destruct (all_some (map (snap fuel h) items)) as [js|] eqn:Ej; [|discriminate].
    rewrite (all_some_map (snap fuel h) (snap fuel h') items js); [auto | | exact Ej].
    intros x y _. apply IH.
  - match goal with
    | |- option_map PDict (all_some (map ?f items)) = _ -> _ =>
        destruct (all_some (map f items)) as [js|] eqn:Ej; [|discriminate]
    end.
    match goal with
    | |- _ -> option_map PDict (all_some (map ?g items)) = _ =>
        assert (Eg : all_some (map g items) = Some js)
    end.
    { revert Ej. apply all_some_map. intros [k x] y _. cbn [fst snd].
      destruct (snap fuel h x) as [jx|] eqn:Ex; [|discriminate].
      rewrite (IH x jx Ex). auto. }
    rewrite Eg. auto.
Qed.

(** C9. [process_entity_to_component] leaves every object that was in the
    store when it was called as it was, whatever the entity and the kind,
    and whether it returns or raises: all it assigns into are the objects
    of the deep copy and objects it makes.  So the entity (and anything
    else) reads afterwards as it read before; and the same holds of the
    whole loop of [process_topology] over a collection of entities. *)
Theorem input_left_as_it_was (component_type : string) (h : heap) :
  (forall entity,
     let h' := snd (process_entity_to_component entity component_type h) in
     (forall l, (l < List.length h)%nat -> nth_error h' l = nth_error h l) /\
     (forall fuel v j, snap fuel h v = Some j -> snap fuel h' v = Some j)) /\
  (forall entities,
     let h' := snd (entities_loop component_type entities
                      {| components := []; relationships := []; warnings := [] |} h) in
     (forall l, (l < List.length h)%nat -> nth_error h' l = nth_error h l) /\
     (forall fuel v j, snap fuel h v = Some j -> snap fuel h' v = Some j)).
Proof.
  split.
  - intros entity h'.
    destruct (safe_process_entity_to_component (List.length h) entity component_type
                h (le_n _) (closed_at_size h)) as (F & _).
    split; [exact F|]. intros fuel v j. apply snap_frame. exact F.
  - intros entities h'.
    assert (Hc : fresh_at (List.length h)
              {| components := []; relationships := []; warnings := [] |})
      by (repeat split; constructor).
    destruct (safe_entities_loop (List.length h) component_type entities _ Hc
                h (le_n _) (closed_at_size h)) as (F & _).
    split; [exact F|]. intros fuel v j. apply snap_frame. exact F.
Qed.

End WithRepr.

#[local] Existing Instance Topology.fixed_repr.

(** ** The store at work *)

Definition sample_entity : pyval :=
  PDict [ (PStr "entityId", PStr "E1");
          (PStr "cpuUsage", PInt 12);
          (PStr "isMonitored", PBool true);
          (PStr "lastSeenTimestamp", PInt 5);
          (PStr "fromRelationships",
           PDict [(PStr "runsOn", PList [PDict [(PStr "id", PStr "H1")]])]);
          (PStr "tags",
           PList [PDict [(PStr "context", PStr "CONTEXTLESS"); (PStr "key", PStr "env");
                         (PStr "value", PStr "prod")]]);
          (PStr "properties",
           PDict [ (PStr "customPgMetadata",
                    PList [PDict [(PStr "key", PStr "a"); (PStr "value", PInt 1)];
                           PDict [(PStr "key", PStr "a"); (PStr "value", PInt 2)]]);
                   (PStr "listenPorts", PList [PInt 80]);
                   (PStr "detectedName", PStr "dn");
                   (PStr "logFileStatus", PList [PInt 3]);
                   (PStr "osServices",
                    PList [PDict [(PStr "dt.osservice.name", PStr "svc")]; PStr "s2"; PInt 4]);
                   (PStr "metadata",
                    PList [PDict [(PStr "key", PStr "EXE_NAME"); (PStr "value", PStr "x")];
                           PDict [(PStr "key", PStr "EXE_NAME"); (PStr "value", PStr "y")]]) ]) ].

(** [f] run on the objects of [j]: what its result reads as, and what the
    input reads as afterwards *)
Definition run_on (j : pyval) (f : val -> S val) : option pyval * option pyval :=
  match load j [] with
  | (Ok v, h0) =>
      match f v h0 with
      | (Ok out, h) => (snap (List.length h) h out, snap (List.length h) h v)
      | (Raise _, h) => (None, snap (List.length h) h v)
      end
  | (Raise _, _) => (None, None)
  end.

Definition component_on_store (component_type : string) (v : val) : S val :=
  bind (process_entity_to_component v component_type) (fun p => ret (component p)).

Definition component_on_values (j : pyval) (component_type : string) : option pyval :=
  match Topology.process_entity_to_component j component_type with
  | Ok p => Some (PDict (Topology.component p))
  | Raise _ => None
  end.

(** on the store the component reads as the component computed on values,
    and the input reads as before *)
Example store_agrees_with_values :
  run_on sample_entity (component_on_store "process-group")
  = (component_on_values sample_entity "process-group", Some sample_entity) /\
  run_on sample_entity (component_on_store "process")
  = (component_on_values sample_entity "process", Some sample_entity).
Proof. split; vm_compute; reflexivity. Qed.

(** without the deep copy, the same assignments change the input: it no
    longer reads as before *)
Example without_the_copy_the_input_changes :
  snd (run_on sample_entity clean_in_place) <> Some sample_entity /\
  snd (run_on sample_entity clean_unsupported_metadata) = Some sample_entity.
Proof. split; vm_compute; [discriminate | reflexivity]. Qed.

End StoreSpec.

(* ================================================================== *)
(** * main.py: tokens on the wire, failures, the items of protocol A *)
(* ================================================================== *)
Module MainMore.
Import Py Main MainSpec.
Local Open Scope string_scope.

(** ** What a run adds to the events *)

(** [m] adds only events that satisfy [Q] *)
Definition adds {A} (Q : event -> Prop) (m : M A) : Prop :=
  forall s r s', m s = (r, s') ->
  exists tr, trace s' = (trace s ++ tr)%list /\ Forall Q tr.

Lemma adds_ret {A} Q (a : A) : adds Q (ret a).
Proof. intros s r s' H. inversion H; subst. exists []. rewrite app_nil_r. auto. Qed.

Lemma adds_raise {A} Q e : adds Q (@raise A e).
Proof. intros s r s' H. inversion H; subst. exists []. rewrite app_nil_r. auto. Qed.

Lemma adds_bind_with {A B} Q (post : A -> Prop) (m : M A) (k : A -> M B) :
  adds Q m -> (forall s a s', m s = (Ok a, s') -> post a) ->
  (forall a, post a -> adds Q (k a)) -> adds Q (bind m k).
Proof.
  intros Hm Hp Hk s r s' H. unfold bind in H.
  destruct (m s) as [[a|e] s1] eqn:E.
  - destruct (Hm _ _ _ E) as (tr1 & T1 & F1).
    destruct (Hk a (Hp _ _ _ E) _ _ _ H) as (tr2 & T2 & F2).
    exists (tr1 ++ tr2)%list. split; [rewrite T2, T1, app_assoc; reflexivity|].
    apply Forall_app. auto.
  - inversion H; subst. exact (Hm _ _ _ E).
Qed.

Lemma adds_bind {A B} Q (m : M A) (k : A -> M B) :
  adds Q m -> (forall a, adds Q (k a)) -> adds Q (bind m k).
Proof.
  intros Hm Hk. apply (adds_bind_with Q (fun _ => True)); auto.
Qed.

(** ** The token on the wire *)

(** the [Authorization] header names a token that is there: never
    [Bearer None], never a bare [Bearer ] *)
Definition header_ok (headers : string) : Prop :=
  exists tk, tk <> "" /\ headers = bearer (Some tk).

(** a request goes to [to], under such a header *)
Definition request_to (to : string) (ev : event) : Prop :=
  match ev with
  | EvGet u _ authorization _ => u = to /\ header_ok authorization
  | _ => True
  end.

Definition a_token (token : option string) : Prop :=
  exists tk, tk <> "" /\ token = Some tk.

Lemma present_a_token token : present token = true -> a_token token.
Proof.
  destruct token as [tk|]; cbn; [|discriminate].
  intros H. exists tk. split; [|reflexivity]. intros ->. discriminate.
Qed.

Lemma granted_a_token reply tk lifetime :
  granted reply = Some (tk, lifetime) -> tk <> "".
Proof.
  unfold granted. destruct reply as [r|]; [|discriminate].
  destruct (is_error_status _); [discriminate|].
  destruct (post_json r) as [p|]; [|discriminate].
  destruct (access_token p) as [t|]; [|discriminate].
  destruct (String.eqb t "") eqn:E; [discriminate|].
  intros H. inversion H; subst. intros ->. discriminate.
Qed.

(** what [get_token] returns is a token that is there *)
Lemma get_token_a_token s token s' : get_token s = (Ok token, s') -> a_token token.
Proof.
  intros H. destruct (get_token_cases s) as [(P & R & _)|(_ & G)]; rewrite H in *; cbn in *.
  - inversion R; subst. apply present_a_token. exact P.
  - destruct (granted (next_reply s)) as [[tk l]|] eqn:Gr.
    + inversion G; subst. exists tk. split; [|reflexivity].
      eapply granted_a_token. exact Gr.
    + destruct G as (e & G). discriminate.
Qed.

Lemma adds_get_token Q : (forall to d reply, Q (EvPost to d reply)) -> adds Q get_token.
Proof.
  intros HQ s r s' H.
  destruct (get_token_cases s) as [(_ & _ & T)|(T & _)]; rewrite H in T; cbn in T.
  - exists []. rewrite app_nil_r. auto.
  - exists [exchange s]. split; [exact T|]. constructor; [apply HQ | constructor].
Qed.

Lemma adds_session_get Q to params a :
  (forall reply, Q (EvGet to params a reply)) -> adds Q (session_get to params a).
Proof.
  intros HQ s r s' H.
  destruct (session_get_cases to params a s) as (reply & _ & T & _).
  rewrite H in T. cbn in T. exists [EvGet to params a reply]. split; [exact T|].
  constructor; [apply HQ | constructor].
Qed.

Lemma adds_invalidate Q : Q EvInvalidate -> adds Q invalidate.
Proof.
  intros HQ s r s' H. inversion H; subst. exists [EvInvalidate]. split; [reflexivity|].
  constructor; [exact HQ | constructor].
Qed.

Lemma adds_raise_for_status Q z : adds Q (raise_for_status z).
Proof. unfold raise_for_status. destruct (is_error_status z); [apply adds_raise | apply adds_ret]. Qed.

Lemma adds_lift {A} Q (r : res A) : adds Q (lift r).
Proof. intros s r0 s' H. inversion H; subst. exists []. rewrite app_nil_r. auto. Qed.

Lemma carries_do_request to params : adds (request_to to) (do_request to params).
Proof.
  unfold do_request.
  apply (adds_bind_with (request_to to) a_token).
  - apply adds_get_token. intros; exact I.
  - intros s a s'. apply get_token_a_token.
  - intros token (tk & Hne & ->). apply adds_session_get. intros reply. cbn. unfold header_ok. eauto.
Qed.

Lemma carries_fetch_json to params : adds (request_to to) (fetch_json to params).
Proof.
  unfold fetch_json.
  apply adds_bind; [apply carries_do_request|]. intros response.
  apply adds_bind.
  - destruct (status_code response =? 401)%Z; [|apply adds_ret].
    apply adds_bind; [apply adds_invalidate; exact I|]. intros _. apply carries_do_request.
  - intros response1. apply adds_bind; [apply adds_raise_for_status|]. intros _.
    destruct (json response1); [apply adds_ret | apply adds_raise].
Qed.

(** a loop whose turns add only [Q] events, as long as [Inv] holds of its
    variables *)
Lemma adds_loop {V B} Q (Inv : V -> Prop) (page : V -> M (turn V B)) (loop : V -> M B) :
  (forall v s,
     loop v s =
     match page v s with
     | (Ok (Again v1), s1) => loop v1 s1
     | (Ok (Break b), s1) => (Ok b, s1)
     | (Raise e, s1) => (Raise e, s1)
     end) ->
  (forall v s t s',
     page v s = (Ok t, s') -> (List.length (gets s') < List.length (gets s))%nat) ->
  (forall v, Inv v -> adds Q (page v)) ->
  (forall v s v1 s1, Inv v -> page v s = (Ok (Again v1), s1) -> Inv v1) ->
  forall v, Inv v -> adds Q (loop v).
Proof.
  intros U D K Step v Hv s r s' H. revert Hv. revert v s r s' H.
  apply (loop_induction page loop U D
           (fun v s r s' => Inv v ->
              exists tr, trace s' = (trace s ++ tr)%list /\ Forall Q tr)).
  - intros v s b s1 E Hv. exact (K v Hv _ _ _ E).
  - intros v s e s1 E Hv. exact (K v Hv _ _ _ E).
  - intros v s v1 s1 r s' E _ IH Hv.
    destruct (K v Hv _ _ _ E) as (tr1 & T1 & F1).
    destruct (IH (Step _ _ _ _ Hv E)) as (tr2 & T2 & F2).
    exists (tr1 ++ tr2)%list. split; [rewrite T2, T1, app_assoc; reflexivity|].
    apply Forall_app. auto.
Qed.

Lemma adds_v2_rest Q v response : adds Q (v2_rest v response).
Proof.
  intros s r s' H. pose proof (v2_rest_state v response s) as St.
  rewrite H in St. cbn in St. subst s'. exists []. rewrite app_nil_r. auto.
Qed.

Lemma adds_v1_rest Q to initial_params v rh : adds Q (v1_rest to initial_params v rh).
Proof.
  intros s r s' H. pose proof (proj1 (v1_rest_state to initial_params v rh s)) as St.
  rewrite H in St. cbn in St. subst s'. exists []. rewrite app_nil_r. auto.
Qed.

Lemma v1_retry_header to v resp s rh s' :
  header_ok (v1_headers v) ->
  v1_retry to v resp s = (Ok rh, s') -> header_ok (snd rh).
Proof.
  intros Hv. unfold v1_retry.
  destruct (status_code resp =? 401)%Z.
  - intros H. apply bind_Ok in H as ([] & s1 & _ & H).
    apply bind_Ok in H as (token & s2 & G & H).
    apply get_token_a_token in G as (tk & Hne & ->).
    cbv zeta in H. apply bind_Ok in H as (resp1 & s3 & _ & H).
    inversion H; subst. cbn. exists tk. auto.
  - intros H. inversion H; subst. exact Hv.
Qed.

Lemma carries_v1_retry to v resp :
  header_ok (v1_headers v) -> adds (request_to to) (v1_retry to v resp).
Proof.
  intros Hv. unfold v1_retry. destruct (status_code resp =? 401)%Z; [|apply adds_ret].
  apply adds_bind; [apply adds_invalidate; exact I|]. intros _.
  apply (adds_bind_with (request_to to) a_token).
  - apply adds_get_token. intros; exact I.
  - intros s a s'. apply get_token_a_token.
  - intros token (tk & Hne & ->). cbv zeta.
    apply adds_bind; [|intros; apply adds_ret].
    apply adds_session_get. intros reply. cbn. unfold header_ok. eauto.
Qed.

Lemma carries_v1_page to initial_params v :
  header_ok (v1_headers v) -> adds (request_to to) (v1_page to initial_params v).
Proof.
  intros Hv. rewrite v1_page_split.
  apply adds_bind; [apply adds_session_get; intros reply; split; [reflexivity | exact Hv]|]. intros response.
  apply adds_bind; [apply carries_v1_retry; exact Hv|]. intros rh. apply adds_v1_rest.
Qed.

Lemma v1_rest_again to initial_params v rh s v1 s' :
  v1_rest to initial_params v rh s = (Ok (Again v1), s') ->
  v1_headers v1 = snd rh /\
  exists key, next_page_key (fst rh) = Some key /\ key <> "" /\
              v1_params v1 = dict_set (PStr "nextPageKey") (PStr key) initial_params.
Proof.
  unfold v1_rest. intros H.
  apply bind_Ok in H as ([] & s1 & _ & H). apply bind_Ok in H as (page_data & s2 & _ & H).
  destruct (next_page_key (fst rh)) as [key|]; [|inversion H].
  destruct (present (Some key)) eqn:P; inversion H; subst. cbn.
  split; [reflexivity|]. exists key. split; [reflexivity|]. split; [|reflexivity].
  intros ->. discriminate.
Qed.

Lemma v1_page_keeps_header to initial_params v s v1 s1 :
  header_ok (v1_headers v) ->
  v1_page to initial_params v s = (Ok (Again v1), s1) -> header_ok (v1_headers v1).
Proof.
  intros Hv H. rewrite v1_page_split in H.
  apply bind_Ok in H as (response & s2 & _ & H).
  apply bind_Ok in H as (rh & s3 & Rt & H).
  apply v1_rest_again in H as (-> & _).
  eapply v1_retry_header; eassumption.
Qed.

Lemma carries_fetch_paginated_v1 to initial_params :
  adds (request_to to) (fetch_paginated_v1 to initial_params).
Proof.
  unfold fetch_paginated_v1.
  apply (adds_bind_with (request_to to) a_token).
  - apply adds_get_token. intros; exact I.
  - intros s a s'. apply get_token_a_token.
  - intros token (tk & Hne & ->).
    apply (adds_loop (request_to to) (fun v => header_ok (v1_headers v))
             (v1_page to initial_params) (v1_loop to initial_params)).
    + apply v1_loop_unfold.
    + apply v1_page_Ok.
    + intros v. apply carries_v1_page.
    + intros v s v1 s1. apply v1_page_keeps_header.
    + cbn. exists tk. auto.
Qed.

Lemma carries_fetch_paginated_entities base_url initial_params :
  adds (request_to (base_url ++ "/" ++ V2_ENTITIES_PATH))
    (fetch_paginated_entities base_url initial_params).
Proof.
  unfold fetch_paginated_entities. cbv zeta.
  apply adds_bind; [|intros; apply adds_ret].
  apply (adds_loop (request_to (base_url ++ "/" ++ V2_ENTITIES_PATH)) (fun _ => True)
           (v2_page (base_url ++ "/" ++ V2_ENTITIES_PATH))
           (v2_loop (base_url ++ "/" ++ V2_ENTITIES_PATH))).
  - apply v2_loop_unfold.
  - apply v2_page_Ok.
  - intros v _. rewrite v2_page_split.
    apply adds_bind; [apply carries_fetch_json | intros; apply adds_v2_rest].
  - auto.
  - exact I.
Qed.


(** ** Exchanges that fail *)

Lemma refresh_failure s e s' :
  _refresh_token s = (Raise e, s') ->
  _token s' = _token s /\ _expiry_epoch s' = _expiry_epoch s /\
  granted (next_reply s) = None /\
  match next_reply s with
  | None => e = ConnectionError
  | Some r =>
      if is_error_status (post_status r) then e = HTTPError (post_status r)
      else match post_json r with
           | None => e = ValueError
           | Some _ => e = RuntimeError NoAccessToken
           end
  end.
Proof.
  unfold granted, next_reply.
  unfold _refresh_token, bind, requests_post, raise_for_status.
  destruct (posts s) as [|[r|] rest] eqn:P; cbn.
  1,3: intros H; inversion H; subst; cbn; auto.
  destruct (is_error_status (post_status r)); cbn.
  { intros H; inversion H; subst; cbn; auto. }
  destruct (post_json r) as [p|]; cbn.
  2:{ intros H; inversion H; subst; cbn; auto. }
  destruct (access_token p) as [tk|]; cbn.
  2:{ intros H; inversion H; subst; cbn; auto. }
  destruct (String.eqb tk ""); cbn; intros H; inversion H; subst; cbn; auto.
Qed.


(** ** How long a token is kept *)


(** ** Errors that are no authentication rejection *)

Lemma refresh_token_gets s : gets (snd (_refresh_token s)) = gets s.
Proof.
  unfold _refresh_token, bind, requests_post, raise_for_status.
  destruct (posts s) as [|[r|] rest]; cbn; try reflexivity.
  destruct (is_error_status (post_status r)); cbn; try reflexivity.
  destruct (post_json r) as [p|]; cbn; try reflexivity.
  destruct (present (access_token p)); cbn; reflexivity.
Qed.

Lemma get_token_gets s : gets (snd (get_token s)) = gets s.
Proof.
  unfold get_token, bind, time, get_state. cbn.
  destruct (negb (present (_token s)) || Qle_bool (_expiry_epoch s) (clock s (ticks s)));
    [|reflexivity].
  match goal with
  | |- context [_refresh_token ?s0] =>
      pose proof (refresh_token_gets s0) as G; destruct (_refresh_token s0) as [[[]|e] s1]
  end; cbn in *; exact G.
Qed.

Lemma session_get_reply to params a s resp rest :
  gets s = Some resp :: rest ->
  session_get to params a s =
  (Ok resp, log (EvGet to params a (Some resp)) (with_gets rest s)).
Proof. intros H. unfold session_get. rewrite H. reflexivity. Qed.

(** A reply with an error status other than 401 is not retried and the
    credential is not invalidated: the fetch ends there, after that one
    request, having used up that one reply.  [fetch_json] (and with it
    [fetch_paginated_entities]) raises the [HTTPError] of the status;
    [fetch_paginated_v1] raises a [RuntimeError] that names the URL, the
    status and the text of the reply. *)
Theorem other_errors_are_not_retried
    (to base_url : string) (params initial_params : pydict)
    (s s1 : state) (tok : option string) (resp : response) rest :
  get_token s = (Ok tok, s1) ->
  gets s = Some resp :: rest ->
  is_error_status (status_code resp) = true ->
  status_code resp <> 401%Z ->
  let sent url p := log (EvGet url p (bearer tok) (Some resp)) (with_gets rest s1) in
  fetch_json to params s = (Raise (HTTPError (status_code resp)), sent to params) /\
  fetch_paginated_entities base_url initial_params s =
    (Raise (HTTPError (status_code resp)),
     sent (base_url ++ "/" ++ V2_ENTITIES_PATH) initial_params) /\
  fetch_paginated_v1 to initial_params s =
    (Raise (RuntimeError (RequestFailed to (status_code resp) (text resp))),
     sent to initial_params).
Proof.
  intros Ht Hg He Hn sent.
  assert (Hg1 : gets s1 = Some resp :: rest).
  { pose proof (get_token_gets s) as G. rewrite Ht in G. cbn in G. congruence. }
  assert (N : (status_code resp =? 401)%Z = false) by (apply Z.eqb_neq; exact Hn).
  assert (F : forall url p,
            fetch_json url p s = (Raise (HTTPError (status_code resp)), sent url p)).
  { intros url p. unfold fetch_json, do_request, bind. rewrite Ht.
    rewrite (session_get_reply _ _ _ _ _ _ Hg1), N. cbn [ret].
    unfold raise_for_status. rewrite He. reflexivity. }
  split; [apply F|]. split.
  - unfold fetch_paginated_entities. cbv zeta. unfold bind at 1.
    rewrite v2_loop_unfold, v2_page_split. unfold bind at 1. cbn [v2_params].
    rewrite F. reflexivity.
  - unfold fetch_paginated_v1, bind at 1. rewrite Ht.
    rewrite v1_loop_unfold. unfold v1_page, bind. cbn [v1_params v1_headers].
    rewrite (session_get_reply _ _ _ _ _ _ Hg1), N. cbn [ret fst snd].
    rewrite He. reflexivity.
Qed.

(** ** Protocol A keeps the token it started with *)

Definition not_rejected (reply : option response) : Prop := rejected reply = false.

(** a request to [to] under the header [authorization] *)
Definition request_under (to authorization : string) (ev : event) : Prop :=
  exists params reply, ev = EvGet to params authorization reply.

Lemma v1_page_plain to initial_params v s r s1 :
  Forall not_rejected (gets s) ->
  v1_page to initial_params v s = (r, s1) ->
  Forall not_rejected (gets s1) /\
  (exists reply,
     trace s1 = (trace s ++ [EvGet to (v1_params v) (v1_headers v) reply])%list) /\
  ticks s1 = ticks s /\
  (forall v1, r = Ok (Again v1) -> v1_headers v1 = v1_headers v).
Proof.
  intros Hg H. rewrite v1_page_split in H. unfold bind at 1 in H.
  unfold session_get in H.
  destruct (gets s) as [|[resp|] rest] eqn:G.
  - inversion H; subst. cbn. rewrite G. split; [constructor|].
    split; [eauto|]. split; [reflexivity | discriminate].
  - inversion Hg as [|? ? Hr Hrest]; subst.
    unfold not_rejected in Hr. cbn in Hr.
    unfold bind at 1, v1_retry in H. rewrite Hr in H. cbn [ret] in H.
    pose proof (proj1 (v1_rest_state to initial_params v (resp, v1_headers v)
                         (log (EvGet to (v1_params v) (v1_headers v) (Some resp))
                            (with_gets rest s)))) as St.
    rewrite H in St. cbn [snd] in St. subst s1. cbn [gets trace ticks log with_gets].
    split; [exact Hrest|]. split; [eauto|]. split; [reflexivity|].
    intros v1 ->. apply v1_rest_again in H as (-> & _). reflexivity.
  - inversion H; subst. cbn. inversion Hg; subst.
    split; [assumption|]. split; [eauto|]. split; [reflexivity | discriminate].
Qed.

Lemma v1_loop_one_header to initial_params v s r s' :
  v1_loop to initial_params v s = (r, s') ->
  Forall not_rejected (gets s) ->
  ticks s' = ticks s /\
  exists tr, trace s' = (trace s ++ tr)%list /\
             Forall (request_under to (v1_headers v)) tr.
Proof.
  revert v s r s'.
  apply (loop_induction (v1_page to initial_params) (v1_loop to initial_params)
           (v1_loop_unfold to initial_params) (v1_page_Ok to initial_params)
           (fun v s r s' => Forall not_rejected (gets s) ->
              ticks s' = ticks s /\
              exists tr, trace s' = (trace s ++ tr)%list /\
                         Forall (request_under to (v1_headers v)) tr)).
  - intros v s b s1 E Hg.
    destruct (v1_page_plain _ _ _ _ _ _ Hg E) as (_ & (reply & T) & K & _).
    split; [exact K|].
    eexists. split; [exact T|]. constructor; [|constructor]. unfold request_under. eauto.
  - intros v s e s1 E Hg.
    destruct (v1_page_plain _ _ _ _ _ _ Hg E) as (_ & (reply & T) & K & _).
    split; [exact K|].
    eexists. split; [exact T|]. constructor; [|constructor]. unfold request_under. eauto.
  - intros v s v1 s1 r s' E _ IH Hg.
    destruct (v1_page_plain _ _ _ _ _ _ Hg E) as (Hg1 & (reply & T) & K & Hh).
    destruct (IH Hg1) as (K2 & tr2 & T2 & F2). rewrite (Hh v1 eq_refl) in F2.
    split; [congruence|].
    exists (EvGet to (v1_params v) (v1_headers v) reply :: tr2).
    split; [rewrite T2, T, <- app_assoc; reflexivity|].
    constructor; [unfold request_under; eauto | exact F2].
Qed.

Lemma refresh_token_ticks s : (ticks (snd (_refresh_token s)) <= S (ticks s))%nat.
Proof.
  unfold _refresh_token, bind, requests_post, raise_for_status.
  destruct (posts s) as [|[r|] rest]; cbn; try lia.
  destruct (is_error_status (post_status r)); cbn; try lia.
  destruct (post_json r) as [p|]; cbn; try lia.
  destruct (present (access_token p)); cbn; lia.
Qed.

Lemma get_token_ticks s : (ticks (snd (get_token s)) <= ticks s + 2)%nat.
Proof.
  unfold get_token, bind, time, get_state. cbn.
  destruct (negb (present (_token s)) || Qle_bool (_expiry_epoch s) (clock s (ticks s)));
    [|cbn; lia].
  match goal with
  | |- context [_refresh_token ?s0] =>
      pose proof (refresh_token_ticks s0) as G; destruct (_refresh_token s0) as [[[]|e] s1]
  end; cbn in *; lia.
Qed.

(** [fetch_paginated_v1] asks for a token once, before the first page, and
    sends every page request under that one token: when no reply is an
    authentication rejection, the events of a fetch are at most one token
    exchange followed by requests to the URL that all carry the same
    [Authorization] header.  The clock is read for that first token only
    (twice at most): a token that expires while the pages are fetched is
    used all the same. *)
Theorem v1_pages_share_one_token
    (to : string) (initial_params : pydict) (s : state) (r : res (list pyval)) (s' : state) :
  Forall not_rejected (gets s) ->
  fetch_paginated_v1 to initial_params s = (r, s') ->
  (ticks s' <= ticks s + 2)%nat /\
  exists pre tr authorization,
    trace s' = (trace s ++ pre ++ tr)%list /\
    (pre = [] \/ pre = [exchange s]) /\
    Forall (request_under to authorization) tr.
Proof.
  intros Hg H. unfold fetch_paginated_v1, bind at 1 in H.
  pose proof (get_token_gets s) as G. pose proof (get_token_ticks s) as K.
  assert (P : exists pre, trace (snd (get_token s)) = (trace s ++ pre)%list /\
                          (pre = [] \/ pre = [exchange s])).
  { destruct (get_token_cases s) as [(_ & _ & T)|(T & _)].
    - exists []. rewrite app_nil_r. auto.
    - exists [exchange s]. auto. }
  destruct P as (pre & T & Hpre).
  destruct (get_token s) as [[token|e] s0]; cbn [fst snd] in *.
  - rewrite <- G in Hg.
    destruct (v1_loop_one_header _ _ _ _ _ _ H Hg) as (K1 & tr & T1 & F). cbn in F.
    split; [lia|]. exists pre, tr, (bearer token).
    split; [rewrite T1, T, <- app_assoc; reflexivity|]. auto.
  - inversion H; subst. split; [exact K|]. exists pre, [], "".
    rewrite app_nil_r. auto.
Qed.

(** ** The items of protocol A *)

(** what a page body contributes: its items when it is a list, itself
    otherwise *)
Definition items_of_body (page_data : pyval) : list pyval :=
  match page_data with PList l => l | _ => [page_data] end.

(** what an event contributes to the result: the items of the body of an
    accepted reply *)
Definition body_items (ev : event) : list pyval :=
  match ev with
  | EvGet _ _ _ (Some r) =>
      if is_error_status (status_code r) then []
      else match json r with Some page_data => items_of_body page_data | None => [] end
  | _ => []
  end.

Lemma rejected_no_items to p a reply :
  rejected reply = true -> body_items (EvGet to p a reply) = [].
Proof.
  destruct reply as [r|]; cbn; [|discriminate].
  intros H. rewrite (status_401_is_error _ H). reflexivity.
Qed.

Lemma items_attempt to params tr resp page_data :
  attempt to params tr (Some resp) ->
  json resp = Some page_data -> is_error_status (status_code resp) = false ->
  flat_map body_items tr = items_of_body page_data.
Proof.
  intros A J Er. inversion A; subst; cbn [flat_map].
  - cbn. rewrite Er, J, app_nil_r. reflexivity.
  - rewrite (rejected_no_items to params a reply) by assumption.
    cbn. rewrite Er, J, app_nil_r. reflexivity.
Qed.

Lemma v1_rest_items to initial_params v rh s t s' page_data :
  v1_rest to initial_params v rh s = (Ok t, s') ->
  json (fst rh) = Some page_data ->
  match t with
  | Again v1 => v1_aggregated_items v1
  | Break aggregated_items => aggregated_items
  end = (v1_aggregated_items v ++ items_of_body page_data)%list.
Proof.
  unfold v1_rest, bind. intros H J. rewrite J in H.
  destruct (is_error_status (status_code (fst rh))); cbn in H; [discriminate|].
  destruct (next_page_key (fst rh)) as [key|].
  - match type of H with context [if ?b then _ else _] => destruct b end;
      inversion H; subst; cbn; destruct page_data; reflexivity.
  - inversion H; subst. destruct page_data; reflexivity.
Qed.

Lemma v1_page_items to initial_params v s t s' :
  v1_page to initial_params v s = (Ok t, s') ->
  exists tr,
    trace s' = (trace s ++ tr)%list /\
    match t with
    | Again v1 => v1_aggregated_items v1
    | Break aggregated_items => aggregated_items
    end = (v1_aggregated_items v ++ flat_map body_items tr)%list.
Proof.
  intros H. apply v1_page_shape in H as (tr & final & T & A & K).
  destruct (K t eq_refl) as (resp & page_data & headers & -> & J & Er & Rest).
  exists tr. split; [exact T|].
  rewrite (items_attempt _ _ _ _ _ A J Er).
  apply (v1_rest_items _ _ _ _ _ _ _ _ Rest). exact J.
Qed.

Lemma v1_loop_items to initial_params v s items s' :
  v1_loop to initial_params v s = (Ok items, s') ->
  exists tr,
    trace s' = (trace s ++ tr)%list /\
    items = (v1_aggregated_items v ++ flat_map body_items tr)%list.
Proof.
  revert items.
  pose (P := fun (v : v1_vars) (s : state) (r : res (list pyval)) (s' : state) =>
               forall items, r = Ok items ->
               exists tr, trace s' = (trace s ++ tr)%list /\
                          items = (v1_aggregated_items v ++ flat_map body_items tr)%list).
  assert (G : forall v s r s', v1_loop to initial_params v s = (r, s') -> P v s r s');
    [| intros items H; exact (G _ _ _ _ H _ eq_refl)].
  clear v s s'.
  apply (loop_induction (v1_page to initial_params) (v1_loop to initial_params)
           (v1_loop_unfold to initial_params) (v1_page_Ok to initial_params) P); unfold P.
  - intros v s b s1 E items Heq. inversion Heq; subst b.
    apply v1_page_items in E as (tr & T & K). eauto.
  - discriminate.
  - intros v s v1 s1 r s' E _ IH items ->.
    destruct (IH _ eq_refl) as (tr2 & T2 & ->).
    apply v1_page_items in E as (tr & T & K). cbn in K.
    exists (tr ++ tr2)%list. split; [rewrite T2, T, app_assoc; reflexivity|].
    rewrite K, flat_map_app, <- app_assoc. reflexivity.
Qed.

(** When [fetch_paginated_v1] returns, its result is made of the bodies of
    the replies it accepted, in the order of the requests: the items of a
    body that is a list, and a body that is no list as one item.  Replies
    answered 401 and retried contribute nothing. *)
Theorem v1_result_is_the_pages_in_order
    (to : string) (initial_params : pydict) (s : state) (items : list pyval) (s' : state) :
  fetch_paginated_v1 to initial_params s = (Ok items, s') ->
  exists tr,
    trace s' = (trace s ++ tr)%list /\
    items = flat_map body_items tr.
Proof.
  intros H. unfold fetch_paginated_v1, bind at 1 in H.
  destruct (get_token_no_get s) as (pre & T & N).
  destruct (get_token s) as [[token|e] s0]; [|discriminate]. cbn [snd] in T.
  apply v1_loop_items in H as (tr & T1 & ->). cbn [v1_aggregated_items app].
  exists (pre ++ tr)%list. split; [rewrite T1, T, app_assoc; reflexivity|].
  rewrite flat_map_app.
  assert (Z : flat_map body_items pre = []).
  { clear - N. induction N as [|ev tr Hev _ IH]; [reflexivity|].
    cbn. rewrite IH. destruct ev; cbn; tauto. }
  rewrite Z. reflexivity.
Qed.

(** ** The theorems at work *)

Definition client_settings : AuthSettings :=
  {| url := "https://login.example.com/token"; client_id := "client";
     client_secret := "secret"; scope := None; resource := None; audience := None |}.

Definition grants (tk : string) (lifetime : option Z) : option post_response :=
  Some {| post_status := 200;
          post_json := Some {| access_token := Some tk; expires_in := lifetime |} |}.

Definition page (status : Z) (items : list pyval) (next : option string)
    : option response :=
  Some {| status_code := status; text := "oops"; json := Some (PList items);
          next_page_key := next |}.

(** a clock that advances by 100 seconds at each reading *)
Definition fast_clock (n : nat) : Q := inject_Z (1000 + 100 * Z.of_nat n).

(** the token endpoint answers 500 *)
Definition refused : state :=
  JwtAuthenticator client_settings []
    [Some {| post_status := 500; post_json := None |}] fast_clock.


(** the token endpoint grants a token that it declares expired *)
Definition short_lived : state :=
  JwtAuthenticator client_settings [] [grants "t1" (Some 0%Z)] (fun _ => 1000%Q).


(** the API answers 500 to the first request *)
Definition failing : state :=
  JwtAuthenticator client_settings [page 500 [] None; page 200 [PStr "a"] None]
    [grants "t1" (Some 60%Z)] fast_clock.

Lemma other_errors_are_not_retried_witness :
  fst (fetch_json "u" [] failing) = Raise (HTTPError 500) /\
  fst (fetch_paginated_entities "b" [] failing) = Raise (HTTPError 500) /\
  fst (fetch_paginated_v1 "u" [] failing) = Raise (RuntimeError (RequestFailed "u" 500 "oops")) /\
  gets (snd (fetch_paginated_v1 "u" [] failing)) = [page 200 [PStr "a"] None].
Proof.
  destruct (other_errors_are_not_retried "u" "b" [] [] failing (snd (get_token failing))
              (Some "t1") _ _ ltac:(vm_compute; reflexivity) eq_refl eq_refl
              ltac:(discriminate)) as (A & B & C).
  rewrite A, B, C. repeat split.
Defined.

(** two pages, fetched while the clock runs past the expiry of the token *)
Definition two_pages : state :=
  JwtAuthenticator client_settings
    [page 200 [PStr "a"; PStr "b"] (Some "k1"); page 200 [PDict []] None]
    [grants "t1" (Some 60%Z); grants "t2" (Some 60%Z)] fast_clock.

Lemma v1_pages_share_one_token_witness :
  let s' := snd (fetch_paginated_v1 "u" [] two_pages) in
  (ticks s' <= 2)%nat /\
  exists pre tr authorization,
    trace s' = (pre ++ tr)%list /\
    (pre = [] \/ pre = [exchange two_pages]) /\
    Forall (request_under "u" authorization) tr.
Proof.
  intros s'.
  assert (G : Forall not_rejected (gets two_pages)) by (repeat constructor).
  exact (v1_pages_share_one_token "u" [] two_pages _ s' G
           (surjective_pairing (fetch_paginated_v1 "u" [] two_pages))).
Defined.

(** under protocol B the same world sees two exchanges: the token is asked
    for again at each page *)
Example v2_asks_for_the_token_at_each_page :
  posts (snd (fetch_paginated_v1 "u" [] two_pages)) = [grants "t2" (Some 60%Z)] /\
  posts (snd (fetch_json "u" []
                (snd (fetch_json "u" [] two_pages)))) = [].
Proof. split; vm_compute; reflexivity. Qed.

Lemma v1_result_is_the_pages_in_order_witness :
  fst (fetch_paginated_v1 "u" [] two_pages) = Ok [PStr "a"; PStr "b"; PDict []] /\
  exists tr,
    trace (snd (fetch_paginated_v1 "u" [] two_pages)) = tr /\
    flat_map body_items tr = [PStr "a"; PStr "b"; PDict []].
Proof.
  split; [vm_compute; reflexivity|].
  destruct (v1_result_is_the_pages_in_order "u" [] two_pages
              [PStr "a"; PStr "b"; PDict []]
              (snd (fetch_paginated_v1 "u" [] two_pages))
              ltac:(vm_compute; reflexivity)) as (tr & T & I).
  exists tr. split; [exact T | symmetry; exact I].
Defined.

End MainMore.

(* ================================================================== *)
(** * main.py: what is configured, and what a run writes *)
(* ================================================================== *)
Module MainRunSpec.
Import Py Main MainSpec MainMore MainRun.
Local Open Scope string_scope.

(** ** The base URL *)

(** [n] times the character [c] *)
Fixpoint run_of (c : ascii) (n : nat) : string :=
  match n with O => "" | S n' => String c (run_of c n') end.

Lemma rstrip_split c s : exists n, s = rstrip c s ++ run_of c n.
Proof.
  induction s as [|a s (n & IH)]; cbn [rstrip].
  - exists 0%nat. reflexivity.
  - destruct (rstrip c s) as [|b r] eqn:E.
    + cbn in IH. destruct (Ascii.eqb a c) eqn:A.
      * apply Ascii.eqb_eq in A. subst a. exists (S n). cbn. rewrite <- IH. reflexivity.
      * exists n. cbn. rewrite <- IH. reflexivity.
    + exists n. cbn. rewrite IH at 1. reflexivity.
Qed.

Lemma rstrip_no_trailing c s t : rstrip c s <> t ++ String c "".
Proof.
  revert t. induction s as [|a s IH]; intros t; cbn [rstrip].
  - destruct t; discriminate.
  - destruct (rstrip c s) as [|b r] eqn:E.
    + destruct (Ascii.eqb a c) eqn:A.
      * destruct t; discriminate.
      * destruct t as [|a' t]; cbn.
        -- intros H. inversion H; subst. rewrite Ascii.eqb_refl in A. discriminate.
        -- intros H. inversion H. destruct t; discriminate.
    + destruct t as [|a' t]; cbn.
      * discriminate.
      * intros H. inversion H; subst. apply (IH t). assumption.
Qed.

Lemma rstrip_app_char c s : rstrip c (s ++ String c "") = rstrip c s.
Proof.
  induction s as [|a s IH]; cbn [String.append rstrip].
  - rewrite Ascii.eqb_refl. reflexivity.
  - rewrite IH. reflexivity.
Qed.

(** The base URL the run uses is the configured one without the slashes
    it ends with, however many: it does not end with a slash, so the URLs
    built as [<base>/<path>] have one slash at the join, and configuring the
    base with a slash more makes no difference. *)
Theorem base_url_without_trailing_slashes (env : EnvironmentConfig) :
  (exists n, base_url env = normalized_base_url env ++ run_of "/" n) /\
  (forall t, normalized_base_url env <> t ++ "/") /\
  (forall env', base_url env' = base_url env ++ "/" ->
                normalized_base_url env' = normalized_base_url env).
Proof.
  unfold normalized_base_url. split; [apply rstrip_split|]. split.
  - apply rstrip_no_trailing.
  - intros env' ->. apply rstrip_app_char.
Qed.

(** ** The settings of the token endpoint *)

(** the variable is not there, or is empty *)
Definition unset (environ : environ) (key : string) : Prop :=
  environ key = None \/ environ key = Some "".

Lemma require_env_cases environ key :
  (unset environ key /\ _require_env environ key = MustBeConfigured key) \/
  (exists value, environ key = Some value /\ value <> "" /\
                 _require_env environ key = Configured value).
Proof.
  unfold _require_env, unset. destruct (environ key) as [value|]; [|left; auto].
  cbn. destruct (String.eqb value "") eqn:E; cbn.
  - apply String.eqb_eq in E. subst. left. auto.
  - right. exists value. split; [reflexivity|]. split; [|reflexivity].
    intros ->. discriminate.
Qed.

Lemma optional_field_in name o v :
  In (name, v) (optional_field name o) <-> o = Some v /\ v <> "".
Proof.
  unfold optional_field. destruct o as [t|]; [|cbn; split; [tauto | intros [? _]; discriminate]].
  cbn. destruct (String.eqb t "") eqn:E; cbn.
  - apply String.eqb_eq in E. subst. split; [tauto|]. intros [H Hne]. inversion H. congruence.
  - split.
    + intros [H|[]]. inversion H; subst. split; [reflexivity|]. intros ->. discriminate.
    + intros [H _]. inversion H. auto.
Qed.

Lemma optional_field_names name o k v : In (k, v) (optional_field name o) -> k = name.
Proof.
  unfold optional_field. destruct o as [t|]; [|contradiction].
  destruct (present (Some t)); [|contradiction]. intros [H|[]]. inversion H. reflexivity.
Qed.

(** [_build_auth_settings] demands the URL, the client id and the client
    secret, in that order: it fails naming the first of the three that is
    not set or is empty, and the three optional variables never make it
    fail.  With the settings it gives, the form posted to the token endpoint
    has the grant type, the client id and the client secret of the
    environment, and [scope], [resource] and [audience] exactly when the
    variable is set to a non-empty value. *)
Theorem auth_settings_from_environment (environ : environ) (prefix : string) :
  let url_key := prefix ++ "_AUTH_URL" in
  let id_key := prefix ++ "_AUTH_CLIENT_ID" in
  let secret_key := prefix ++ "_AUTH_CLIENT_SECRET" in
  (unset environ url_key ->
   _build_auth_settings environ prefix = MustBeConfigured url_key) /\
  (~ unset environ url_key -> unset environ id_key ->
   _build_auth_settings environ prefix = MustBeConfigured id_key) /\
  (~ unset environ url_key -> ~ unset environ id_key -> unset environ secret_key ->
   _build_auth_settings environ prefix = MustBeConfigured secret_key) /\
  (~ unset environ url_key -> ~ unset environ id_key -> ~ unset environ secret_key ->
   exists cfg,
     _build_auth_settings environ prefix = Configured cfg /\
     environ url_key = Some (url cfg) /\
     environ id_key = Some (client_id cfg) /\
     environ secret_key = Some (client_secret cfg) /\
     (forall k v, In (k, v) (token_request cfg) <->
        (k = "grant_type" /\ v = "client_credentials") \/
        (k = "client_id" /\ v = client_id cfg) \/
        (k = "client_secret" /\ v = client_secret cfg) \/
        (k = "scope" /\ environ (prefix ++ "_AUTH_SCOPE") = Some v /\ v <> "") \/
        (k = "resource" /\ environ (prefix ++ "_AUTH_RESOURCE") = Some v /\ v <> "") \/
        (k = "audience" /\ environ (prefix ++ "_AUTH_AUDIENCE") = Some v /\ v <> ""))).
Proof.
  intros url_key id_key secret_key. unfold _build_auth_settings.
  fold url_key id_key secret_key.
  destruct (require_env_cases environ url_key) as [(U & ->)|(u & Eu & Nu & ->)];
    cbn [cbind].
  { repeat split; intros; try reflexivity; contradiction. }
  assert (NU : ~ unset environ url_key).
  { intros [H|H]; rewrite Eu in H; [discriminate | inversion H; contradiction]. }
  destruct (require_env_cases environ id_key) as [(I & ->)|(i & Ei & Ni & ->)];
    cbn [cbind].
  { repeat split; intros; try reflexivity; contradiction. }
  assert (NI : ~ unset environ id_key).
  { intros [H|H]; rewrite Ei in H; [discriminate | inversion H; contradiction]. }
  destruct (require_env_cases environ secret_key) as [(S & ->)|(c & Ec & Nc & ->)];
    cbn [cbind].
  { repeat split; intros; try reflexivity; contradiction. }
  assert (NS : ~ unset environ secret_key).
  { intros [H|H]; rewrite Ec in H; [discriminate | inversion H; contradiction]. }
  split; [intros; contradiction|]. split; [intros; contradiction|].
  split; [intros; contradiction|]. intros _ _ _.
  eexists. split; [reflexivity|]. cbn [url client_id client_secret scope resource audience].
  split; [exact Eu|]. split; [exact Ei|]. split; [exact Ec|].
  intros k v. unfold token_request. cbn [client_id client_secret scope resource audience].
  rewrite !in_app_iff. cbn [In].
  rewrite <- (optional_field_in "scope"), <- (optional_field_in "resource"),
    <- (optional_field_in "audience").
  split.
  - intros [[H|[H|[H|[]]]]|[H|[H|H]]]; try (inversion H; subst; tauto).
    + pose proof (optional_field_names _ _ _ _ H). subst. tauto.
    + pose proof (optional_field_names _ _ _ _ H). subst. tauto.
    + pose proof (optional_field_names _ _ _ _ H). subst. tauto.
  - intros [[-> ->]|[[-> ->]|[[-> ->]|[[-> H]|[[-> H]|[-> H]]]]]]; tauto.
Qed.

(** ** The files of a run *)

(** the name [build_filename] gives a file of kind [data_type] *)
Definition named (system data_type : string) (f : file) : Prop :=
  exists timestamp,
    filename f = system ++ "_" ++ data_type ++ "_" ++ str_of_Z timestamp ++ ".json".

(** a request to one of [urls], under a token that is there *)
Definition requested (urls : list string) (ev : event) : Prop :=
  match ev with
  | EvGet u _ authorization _ => In u urls /\ header_ok authorization
  | _ => True
  end.

(** what a run of the calls planned in [plan] (the URL and the kind of
    each, in order) has done when it ends with [r]: it has written one file
    per call that returned, in the order of the plan, all of them when it
    returns and not all when it raises; and it has sent requests for those
    calls and, when it raises, for the one that failed, for no other *)
Definition outcome (system : string) (plan : list (string * string))
    (w : world) (r : res unit) (w' : world) : Prop :=
  exists files tr,
    written w' = (written w ++ files)%list /\
    trace (net w') = (trace (net w) ++ tr)%list /\
    match r with
    | Ok _ => List.length files = List.length plan
    | Raise _ => (List.length files < List.length plan)%nat
    end /\
    Forall2 (fun f call => named system (snd call) f) files
      (firstn (List.length files) plan) /\
    Forall (requested (map fst (firstn (S (List.length files)) plan))) tr.

(** one call: it requests from its URL only, and writes its file when the
    fetch returns, nothing when it raises *)
Definition calls (system : string) (c : W unit) (call : string * string) : Prop :=
  forall w r w1, c w = (r, w1) ->
  exists tr,
    trace (net w1) = (trace (net w) ++ tr)%list /\
    Forall (request_to (fst call)) tr /\
    match r with
    | Ok _ => exists f, written w1 = (written w ++ [f])%list /\ named system (snd call) f
    | Raise _ => written w1 = written w
    end.

Fixpoint sequence (cs : list (W unit)) : W unit :=
  match cs with
  | [] => wret tt
  | c :: cs' => wbind c (fun _ => sequence cs')
  end.

Lemma requested_one to urls ev : request_to to ev -> In to urls -> requested urls ev.
Proof. destruct ev; cbn; try tauto. intros [-> H] Hin. auto. Qed.

Lemma requested_more urls urls' ev :
  requested urls ev -> (forall u, In u urls -> In u urls') -> requested urls' ev.
Proof. destruct ev; cbn; try tauto. intros [H1 H2] Hin. auto. Qed.

(** the calls of a sequence, those that are made *)
Inductive covers (system : string) : list (W unit) -> list (string * string) -> Prop :=
| covers_nil : covers system [] []
| covers_call c call cs plan :
    calls system c call -> covers system cs plan ->
    covers system (c :: cs) (call :: plan)
| covers_skip cs plan :
    covers system cs plan -> covers system (wret tt :: cs) plan.

Lemma sequence_outcome system cs plan :
  covers system cs plan ->
  forall w r w', sequence cs w = (r, w') -> outcome system plan w r w'.
Proof.
  induction 1 as [|c call cs plan Hc _ IH|cs plan _ IH]; intros w r w' H;
    cbn [sequence] in H.
  - inversion H; subst. exists [], []. rewrite !app_nil_r. cbn. auto.
  - unfold wbind in H. destruct (c w) as [[[]|e] w1] eqn:E.
    + destruct (Hc _ _ _ E) as (tr1 & T1 & F1 & f & Wf & Nf).
      destruct (IH _ _ _ H) as (files & tr2 & Wr & T2 & L & Fn & Fr).
      exists (f :: files), (tr1 ++ tr2)%list.
      split; [rewrite Wr, Wf, <- app_assoc; reflexivity|].
      split; [rewrite T2, T1, app_assoc; reflexivity|].
      split; [destruct r; cbn [List.length]; lia|].
      split; [cbn [List.length firstn]; constructor; assumption|].
      cbn [List.length]. apply Forall_app. split.
      * eapply Forall_impl; [|exact F1]. intros ev Hev.
        apply (requested_one (fst call)); [exact Hev | left; reflexivity].
      * eapply Forall_impl; [|exact Fr]. intros ev Hev.
        eapply requested_more; [exact Hev|]. intros u Hu. right. exact Hu.
    + inversion H; subst. destruct (Hc _ _ _ E) as (tr1 & T1 & F1 & Wf).
      exists [], tr1. rewrite app_nil_r. split; [exact Wf|]. split; [exact T1|].
      split; [cbn; lia|]. split; [constructor|].
      eapply Forall_impl; [|exact F1]. intros ev Hev.
      apply (requested_one (fst call)); [exact Hev | left; reflexivity].
  - apply IH. exact H.
Qed.

Lemma build_and_dump system data_type fetched w :
  exists f,
    wbind (build_filename system data_type)
      (fun filepath => dump_response fetched filepath) w =
    (Ok tt, {| net := snd (time (net w)); written := (written w ++ [f])%list |}) /\
    named system data_type f /\ content f = fetched.
Proof.
  eexists. split; [reflexivity|]. split; [|reflexivity].
  eexists. reflexivity.
Qed.

Lemma v1_call_calls env params endpoint data_type :
  calls (name env) (v1_call env params endpoint data_type)
    (normalized_base_url env ++ "/" ++ endpoint, data_type).
Proof.
  intros w r w1 H. unfold v1_call in H. cbv zeta in H. unfold wbind at 1, on_net at 1 in H.
  destruct (fetch_paginated_v1 _ params (net w)) as [[fetched|e] s1] eqn:F.
  - destruct (carries_fetch_paginated_v1 _ _ _ _ _ F) as (tr & T & Fr).
    destruct (build_and_dump (name env) data_type (PList fetched)
                {| net := s1; written := written w |}) as (f & B & N & _).
    cbv beta iota in H. rewrite B in H. inversion H; subst. cbn. exists tr. split; [exact T|].
    split; [exact Fr|]. eauto.
  - inversion H; subst. cbn.
    destruct (carries_fetch_paginated_v1 _ _ _ _ _ F) as (tr & T & Fr). eauto.
Qed.

Lemma v2_call_calls env relative_time selector fields data_type :
  calls (name env) (v2_call env relative_time selector fields data_type)
    (normalized_base_url env ++ "/" ++ V2_ENTITIES_PATH, data_type).
Proof.
  intros w r w1 H. unfold v2_call in H. cbv zeta in H. unfold wbind at 1, on_net at 1 in H.
  match type of H with
  | context [fetch_paginated_entities ?b ?p (net w)] =>
      destruct (fetch_paginated_entities b p (net w)) as [[fetched|e] s1] eqn:F
  end.
  - destruct (carries_fetch_paginated_entities _ _ _ _ _ F) as (tr & T & Fr).
    destruct (build_and_dump (name env) data_type (PDict fetched)
                {| net := s1; written := written w |}) as (f & B & N & _).
    cbv beta iota in H. rewrite B in H. inversion H; subst. cbn. exists tr. split; [exact T|].
    split; [exact Fr|]. eauto.
  - inversion H; subst. cbn.
    destruct (carries_fetch_paginated_entities _ _ _ _ _ F) as (tr & T & Fr). eauto.
Qed.

(** the calls a run makes, in order: the URL and the kind of each *)
Definition planned (include : bool) (call : string * string) : list (string * string) :=
  if include then [call] else [].

Definition v1_plan (env : EnvironmentConfig)
    (include_processes include_process_groups include_hosts : bool)
    : list (string * string) :=
  let base := normalized_base_url env in
  let processes := (base ++ "/" ++ V1_PROCESS_ENDPOINT, "process_v1") in
  let process_groups := (base ++ "/" ++ V1_PROCESS_GROUP_ENDPOINT, "process-group_v1") in
  let hosts := (base ++ "/" ++ V1_HOST_ENDPOINT, "host_v1") in
  (planned include_processes processes ++
   planned include_process_groups process_groups ++
   planned include_hosts hosts)%list.

Definition v2_plan (env : EnvironmentConfig)
    (include_processes include_process_groups include_hosts : bool)
    : list (string * string) :=
  let to := normalized_base_url env ++ "/" ++ V2_ENTITIES_PATH in
  (planned include_processes (to, "process_v2") ++
   planned include_process_groups (to, "process-group_v2") ++
   planned include_hosts (to, "host_v2"))%list.

Lemma three_in_sequence (c1 c2 c3 : W unit) w :
  wbind c1 (fun _ => wbind c2 (fun _ => c3)) w = sequence [c1; c2; c3] w.
Proof.
  cbn [sequence]. unfold wbind.
  destruct (c1 w) as [[[]|e1] w1]; [|reflexivity].
  destruct (c2 w1) as [[[]|e2] w2]; [|reflexivity].
  destruct (c3 w2) as [[[]|e3] w3]; reflexivity.
Qed.


End MainRunSpec.

(* ================================================================== *)
(** * main_process_topology.py: the batch, the component, the hoisting *)
(* ================================================================== *)
Module TopologyMore.
Import Py Topology TopologySpec.
Local Open Scope string_scope.

Section WithRepr.
Context {R : Repr}.

(** ** Entities that are no records *)

Lemma no_record_is_rejected entity component_type :
  is_dict entity = false ->
  process_entity_to_component entity component_type = Raise AttributeError.
Proof. destruct entity; try discriminate; reflexivity. Qed.

Lemma no_record_stops_the_loop component_type entities c x :
  In x entities -> is_dict x = false ->
  entities_loop component_type entities c = Raise AttributeError.
Proof.
  intros Hin Hx. revert c.
  induction entities as [|entity rest IH]; intros c; [contradiction|].
  cbn [entities_loop].
  destruct (is_dict entity) eqn:D.
  - assert (Hrest : In x rest).
    { destruct Hin as [->|H]; [congruence | exact H]. }
    destruct (try_entity component_type entity c) as [c1 [e|]].
    + destruct entity; try discriminate. cbn [except_entity rbind]. apply IH. exact Hrest.
    + apply IH. exact Hrest.
  - unfold try_entity. rewrite (no_record_is_rejected _ _ D).
    destruct entity; try discriminate; reflexivity.
Qed.

(** An entity that is not a record (a string, a number, a list, [None])
    aborts the whole run: [process_entity_to_component] raises on it, and the
    handler, which asks the entity for its id with [entity.get], raises
    [AttributeError] in turn, which nothing catches.  Nothing is returned,
    whatever the other entities are. *)
Theorem entity_that_is_no_record_aborts
    (input_file name : string) (data : pyval) (component_type : option string)
    (now : Z) (entities : list pyval) (x : pyval) :
  py_iter (extract_entities_from_json data) = Ok entities ->
  In x entities -> is_dict x = false ->
  process_topology input_file name data component_type now = Raise AttributeError.
Proof.
  intros He Hin Hx. unfold process_topology. rewrite He. cbn [rbind].
  rewrite (no_record_stops_the_loop _ entities _ x Hin Hx). reflexivity.
Qed.

(** ** What a run counts *)

(** one turn of the loop appends at most one component and some
    relationships, and takes nothing away *)
Lemma try_entity_appends component_type entity c c1 o :
  try_entity component_type entity c = (c1, o) ->
  exists comps rels,
    components c1 = (components c ++ comps)%list /\
    relationships c1 = (relationships c ++ rels)%list /\
    warnings c1 = warnings c /\
    (List.length comps <= 1)%nat /\
    (o = None -> List.length comps = 1%nat /\ is_dict entity = true).
Proof.
  unfold try_entity.
  destruct (process_entity_to_component entity component_type) as [p|e] eqn:P.
  2:{ intros H. inversion H; subst. exists [], []. rewrite !app_nil_r.
      repeat split; auto; discriminate. }
  assert (D : is_dict entity = true).
  { destruct (is_dict entity) eqn:D; [reflexivity|].
    rewrite (no_record_is_rejected _ _ D) in P. discriminate. }
  destruct (fromRelationships p) as [| | | | | |from_rels].
  1-6: intros H; inversion H; subst; cbn; exists [component p], [];
       rewrite app_nil_r; repeat split; auto; discriminate.
  destruct (toRelationships p) as [| | | | | |to_rels].
  1-6: intros H; inversion H; subst; cbn; exists [component p];
       rewrite outgoing_loop_spec; eexists; repeat split; auto; discriminate.
  intros H; inversion H; subst; cbn. exists [component p].
  rewrite incoming_loop_spec, outgoing_loop_spec, <- app_assoc.
  eexists; repeat split; auto.
Qed.

Lemma entities_loop_counts component_type entities c c' :
  entities_loop component_type entities c = Ok c' ->
  Forall (fun entity => is_dict entity = true) entities /\
  exists comps rels warns,
    components c' = (components c ++ comps)%list /\
    relationships c' = (relationships c ++ rels)%list /\
    warnings c' = (warnings c ++ warns)%list /\
    (List.length comps <= List.length entities)%nat /\
    (List.length warns <= List.length entities)%nat /\
    (List.length entities <= List.length comps + List.length warns)%nat.
Proof.
  revert c. induction entities as [|entity rest IH]; intros c; cbn [entities_loop].
  - intros H. inversion H; subst. split; [constructor|].
    exists [], [], []. rewrite !app_nil_r. cbn. repeat split; lia.
  - destruct (try_entity component_type entity c) as [c1 o] eqn:T.
    apply try_entity_appends in T as (comps1 & rels1 & C1 & R1 & W1 & L1 & N1).
    destruct o as [e|].
    + destruct entity; cbn [except_entity rbind]; try discriminate.
      intros H. apply IH in H as (F & comps & rels & warns & C & Rl & W & Lc & Lw & Le).
      cbn [components relationships warnings] in C, Rl, W.
      split; [constructor; [reflexivity | exact F]|].
      exists (comps1 ++ comps)%list, (rels1 ++ rels)%list,
             ({| failed_entity := get_or "entityId" (PStr "UNKNOWN") d; error := e |} :: warns).
      rewrite C, Rl, W, C1, R1, W1, <- !app_assoc. cbn [app].
      repeat split; rewrite ?length_app; cbn [List.length]; lia.
    + intros H. apply IH in H as (F & comps & rels & warns & C & Rl & W & Lc & Lw & Le).
      destruct (N1 eq_refl) as (N & D).
      split; [constructor; [exact D | exact F]|].
      exists (comps1 ++ comps)%list, (rels1 ++ rels)%list, warns.
      rewrite C, Rl, W, C1, R1, W1, <- !app_assoc.
      repeat split; rewrite ?length_app; cbn [List.length]; lia.
Qed.

(** When a run returns, the counts of its metadata are the lengths of the
    two lists it returns; every entity was a record; and each entity gave a
    component, a warning, or both, never two of a kind: there are at most
    as many components, and at most as many warnings, as entities, and
    together at least as many. *)
Theorem run_counts
    (input_file name : string) (data : pyval) (component_type : option string)
    (now : Z) (entities : list pyval) (t : topology) (w : list warning) :
  py_iter (extract_entities_from_json data) = Ok entities ->
  process_topology input_file name data component_type now = Ok (t, w) ->
  component_count (t_metadata t) = List.length (t_components t) /\
  relationship_count (t_metadata t) = List.length (t_relationships t) /\
  Forall (fun entity => is_dict entity = true) entities /\
  (List.length (t_components t) <= List.length entities)%nat /\
  (List.length w <= List.length entities)%nat /\
  (List.length entities <= List.length (t_components t) + List.length w)%nat.
Proof.
  intros He. unfold process_topology. rewrite He. cbn [rbind].
  match goal with
  | |- context [entities_loop ?ct entities ?c0] =>
      destruct (entities_loop ct entities c0) as [c|e] eqn:L; [|discriminate]
  end.
  intros H. inversion H; subst. cbn.
  apply entities_loop_counts in L as (F & comps & rels & warns & C & Rl & W & Lc & Lw & Le).
  cbn in C, Rl, W. rewrite C, W.
  repeat split; auto.
Qed.

(** ** Batches of records *)

(** what the [try:] block of the loop raises on an entity, if it raises *)
Definition failure_of (component_type : string) (entity : pyval) : option exn :=
  snd (try_entity component_type entity
         {| components := []; relationships := []; warnings := [] |}).

(** the warning the loop prints for an entity, if it prints one *)
Definition warning_of (component_type : string) (entity : pyval) : list warning :=
  match entity, failure_of component_type entity with
  | PDict d, Some e =>
      [{| failed_entity := get_or "entityId" (PStr "UNKNOWN") d; error := e |}]
  | _, _ => []
  end.

(** the kind a run works with *)
Definition resolved_kind (component_type : option string) (name : string) : string :=
  match component_type with
  | Some ct => if truthy (PStr ct) then ct else detect_component_type name
  | None => detect_component_type name
  end.

Lemma try_entity_failure component_type entity c :
  snd (try_entity component_type entity c) = failure_of component_type entity.
Proof.
  unfold failure_of, try_entity.
  destruct (process_entity_to_component entity component_type) as [p|e]; [|reflexivity].
  destruct (fromRelationships p); try reflexivity.
  destruct (toRelationships p); reflexivity.
Qed.

Lemma failure_of_cases component_type entity :
  match failure_of component_type entity with
  | None =>
      exists p, process_entity_to_component entity component_type = Ok p /\
                is_dict (fromRelationships p) = true /\
                is_dict (toRelationships p) = true
  | Some e =>
      process_entity_to_component entity component_type = Raise e \/
      exists p, process_entity_to_component entity component_type = Ok p /\
                e = AttributeError /\
                (is_dict (fromRelationships p) = false \/
                 is_dict (toRelationships p) = false)
  end.
Proof.
  unfold failure_of, try_entity.
  destruct (process_entity_to_component entity component_type) as [p|e]; cbn; [|auto].
  destruct (fromRelationships p) eqn:F; cbn;
    try (right; exists p; rewrite F; cbn; auto; fail).
  destruct (toRelationships p) eqn:T; cbn;
    try (right; exists p; rewrite T; cbn; auto; fail).
  exists p. rewrite F, T. auto.
Qed.

Lemma records_loop component_type entities c :
  Forall (fun entity => is_dict entity = true) entities ->
  exists c',
    entities_loop component_type entities c = Ok c' /\
    warnings c' = (warnings c ++ flat_map (warning_of component_type) entities)%list.
Proof.
  intros F. revert c. induction F as [|entity rest D _ IH]; intros c; cbn [entities_loop flat_map].
  - exists c. rewrite app_nil_r. auto.
  - destruct entity as [| | | | | |d]; try discriminate.
    pose proof (try_entity_failure component_type (PDict d) c) as Fl.
    destruct (try_entity component_type (PDict d) c) as [c1 o] eqn:T.
    apply try_entity_appends in T as (_ & _ & _ & _ & W1 & _).
    cbn [snd] in Fl. subst o. unfold warning_of at 1.
    destruct (failure_of component_type (PDict d)) as [e|].
    + cbn [except_entity rbind].
      match goal with |- context [entities_loop _ rest ?c2] => destruct (IH c2) as (c' & E & W) end.
      exists c'. split; [exact E|]. rewrite W. cbn [warnings]. rewrite W1, <- app_assoc.
      reflexivity.
    + destruct (IH c1) as (c' & E & W). exists c'. split; [exact E|].
      rewrite W, W1. reflexivity.
Qed.


(** ** Records as [json.load] gives them *)

(** each key is there once, and is a string *)
Definition object (d : pydict) : Prop :=
  NoDup (map fst d) /\ Forall (fun k => is_str k = true) (map fst d).

Lemma dict_get_in q d v : dict_get (PStr q) d = Some v -> In (PStr q, v) d.
Proof.
  induction d as [|[k w] d IH]; cbn [dict_get]; [discriminate|].
  destruct (key_eqb (PStr q) k) eqn:E.
  - apply key_eqb_str_l in E. subst k. intros H. inversion H. left. reflexivity.
  - intros H. right. apply IH. exact H.
Qed.

Lemma dict_get_absent q d :
  dict_get (PStr q) d = None <-> ~ In (PStr q) (map fst d).
Proof.
  induction d as [|[k w] d IH]; cbn [dict_get map fst In]; [tauto|].
  destruct (key_eqb (PStr q) k) eqn:E.
  - apply key_eqb_str_l in E. subst k. split; [discriminate | tauto].
  - rewrite IH. split; [|tauto]. intros H [->|H1]; [|tauto].
    cbn in E. rewrite String.eqb_refl in E. discriminate.
Qed.

Lemma in_dict_get q d v :
  NoDup (map fst d) -> In (PStr q, v) d -> dict_get (PStr q) d = Some v.
Proof.
  induction d as [|[k w] d IH]; cbn [dict_get map fst In]; [tauto|].
  intros N [H|H].
  - inversion H; subst. cbn. rewrite String.eqb_refl. reflexivity.
  - inversion N as [|? ? Hn Hd]; subst.
    destruct (key_eqb (PStr q) k) eqn:E; [|apply IH; assumption].
    apply key_eqb_str_l in E. subst k. exfalso. apply Hn.
    change (PStr q) with (fst (PStr q, v)). apply in_map. exact H.
Qed.

Lemma dict_get_rev q d :
  NoDup (map fst d) -> dict_get (PStr q) (rev d) = dict_get (PStr q) d.
Proof.
  intros N.
  assert (Nr : NoDup (map fst (rev d))) by (rewrite map_rev; apply NoDup_rev; exact N).
  destruct (dict_get (PStr q) d) as [v|] eqn:G.
  - apply in_dict_get; [exact Nr|]. apply in_rev. rewrite rev_involutive.
    apply dict_get_in. exact G.
  - apply dict_get_absent. rewrite map_rev, <- in_rev. apply dict_get_absent. exact G.
Qed.

Lemma dict_set_new k v d :
  ~ In (PStr k) (map fst d) -> dict_set (PStr k) v d = (d ++ [(PStr k, v)])%list.
Proof.
  induction d as [|[k' w] d IH]; cbn [dict_set map fst In app]; [reflexivity|].
  intros H. destruct (key_eqb (PStr k) k') eqn:E.
  - apply key_eqb_str_l in E. subst k'. tauto.
  - rewrite IH by tauto. reflexivity.
Qed.

(** [{}.update(d)] is a copy of [d] *)
Lemma dict_update_copy acc d :
  object (acc ++ d)%list -> dict_update acc d = (acc ++ d)%list.
Proof.
  unfold dict_update. revert acc.
  induction d as [|[k v] d IH]; intros acc [N F]; cbn [fold_left fst snd].
  - rewrite app_nil_r. reflexivity.
  - assert (Hk : is_str k = true).
    { rewrite map_app, Forall_app in F. destruct F as [_ F]. inversion F; assumption. }
    destruct k; try discriminate.
    rewrite dict_set_new.
    + rewrite IH; rewrite <- app_assoc; [reflexivity | split; assumption].
    + rewrite map_app in N. cbn [map fst] in N. apply NoDup_remove_2 in N.
      intros Hin. apply N. apply in_or_app. left. exact Hin.
Qed.

Lemma object_set k v d : object d -> object (dict_set (PStr k) v d).
Proof.
  intros [N F]. split; [apply dict_set_NoDup; exact N|].
  apply Forall_forall. intros k0 Hin. apply dict_set_keys in Hin as [Hin | ->]; [|reflexivity].
  rewrite Forall_forall in F. apply F. exact Hin.
Qed.

Lemma dict_del_keys k d k0 : In k0 (map fst (dict_del k d)) -> In k0 (map fst d).
Proof.
  induction d as [|[k' w] d IH]; cbn [dict_del map fst In]; [tauto|].
  destruct (key_eqb k k'); cbn [map fst In]; tauto.
Qed.

Lemma object_del k d : object d -> object (dict_del k d).
Proof.
  intros [N F]. split.
  - induction d as [|[k' w] d IH]; cbn [dict_del map fst]; [constructor|].
    inversion N as [|? ? Hn Hd]; subst. inversion F; subst.
    destruct (key_eqb k k'); [exact Hd|]. cbn [map fst]. constructor; [|apply IH; assumption].
    intros Hin. apply Hn. eapply dict_del_keys. exact Hin.
  - apply Forall_forall. intros k0 Hin. rewrite Forall_forall in F. apply F.
    eapply dict_del_keys. exact Hin.
Qed.

Lemma dict_get_del_same q d :
  object d -> dict_get (PStr q) (dict_del (PStr q) d) = None.
Proof.
  intros [N _]. induction d as [|[k' w] d IH]; cbn [dict_del dict_get]; [reflexivity|].
  inversion N as [|? ? Hn Hd]; subst.
  destruct (key_eqb (PStr q) k') eqn:E.
  - apply key_eqb_str_l in E. subst k'. apply dict_get_absent. exact Hn.
  - cbn [dict_get]. rewrite E. apply IH. exact Hd.
Qed.

Lemma object_coerce_key c key : object c -> is_str key = true -> object (coerce_key c key).
Proof.
  intros O Hk. unfold coerce_key. destruct key; try discriminate.
  destruct (dict_get (PStr s) c) as [value|]; [|exact O].
  destruct (is_number value); [apply object_set; exact O | exact O].
Qed.

Lemma object_coerce_top_level c : object c -> object (coerce_top_level c).
Proof.
  intros O. unfold coerce_top_level.
  assert (K : Forall (fun k => is_str k = true) (map fst c)) by apply O.
  revert K. generalize (map fst c) as keys. revert c O.
  intros c O keys. revert c O.
  induction keys as [|k keys IH]; intros c O K; cbn [fold_left]; [exact O|].
  inversion K; subst. apply IH; [apply object_coerce_key; assumption | assumption].
Qed.

Lemma object_cleaned entity cleaned :
  object entity -> clean_unsupported_metadata (PDict entity) = Ok cleaned -> object cleaned.
Proof.
  intros O H. cbn in H. inversion H; subst.
  unfold drop_last_seen, clean_nested.
  pose proof (object_coerce_top_level _ O) as O1.
  assert (O2 : object (match dict_get (PStr "properties") (coerce_top_level entity) with
                       | Some (PDict properties) =>
                           dict_set (PStr "properties") (PDict (clean_properties properties))
                             (coerce_top_level entity)
                       | _ => coerce_top_level entity
                       end)).
  { destruct (dict_get _ _) as [[]|]; try exact O1. apply object_set. exact O1. }
  destruct (dict_mem _ _); [apply object_del; exact O2 | exact O2].
Qed.

(** ** Hoisting out of [properties] *)

Lemma get_del_other q k d : q <> k -> get q (dict_del (PStr k) d) = get q d.
Proof. intros H. unfold get, get_or. rewrite dict_get_del_other by exact H. reflexivity. Qed.

Lemma get_set_other q k v d : q <> k -> get q (dict_set (PStr k) v d) = get q d.
Proof. intros H. unfold get, get_or. rewrite dict_get_set_other by exact H. reflexivity. Qed.

(** steps 1 and 2: the value under [name] in [properties] goes to the top
    level when it is a non-empty list *)
Definition hoist_list (name : string) (props data : pydict) : pydict :=
  if nonempty_list (get name props) then dict_set (PStr name) (get name props) data
  else data.

(** step 3 *)
Definition hoist_name (props data : pydict) : pydict :=
  if truthy (get "detectedName" props) && negb (truthy (get "discoveredName" data))
  then dict_set (PStr "discoveredName") (get "detectedName" props) data
  else data.

Lemma hoist_list_get q name props data :
  dict_get (PStr q) (hoist_list name props data) =
  if String.eqb q name && nonempty_list (get name props) then Some (get name props)
  else dict_get (PStr q) data.
Proof.
  unfold hoist_list. destruct (nonempty_list (get name props)).
  - rewrite dict_get_set. cbn [key_eqb]. rewrite andb_true_r. reflexivity.
  - rewrite andb_false_r. reflexivity.
Qed.

Lemma hoist_name_get_other q props data :
  q <> "discoveredName" ->
  dict_get (PStr q) (hoist_name props data) = dict_get (PStr q) data.
Proof.
  intros H. unfold hoist_name. destruct (_ && _); [|reflexivity].
  apply dict_get_set_other. exact H.
Qed.

(** what [normalize_process_group_v2_to_v1] returns, step by step *)
Lemma normalize_steps data props data' :
  get "properties" data = PDict props -> props <> [] ->
  normalize_process_group_v2_to_v1 data = Ok data' ->
  let data3 := hoist_name props
                 (hoist_list "softwareTechnologies" props
                    (hoist_list "listenPorts" props data)) in
  exists data4,
    (data4 = data3 \/ exists meta_out, data4 = dict_set (PStr "metadata") (PDict meta_out) data3) /\
    data' = dict_set (PStr "properties")
              (PDict (dict_del (PStr "metadata")
                        (dict_del (PStr "softwareTechnologies")
                           (dict_del (PStr "listenPorts") props)))) data4.
Proof.
  intros Hp Hne. unfold normalize_process_group_v2_to_v1. rewrite Hp. unfold py_or.
  assert (T : truthy (PDict props) = true) by (destruct props; [contradiction | reflexivity]).
  rewrite T. cbv zeta.
  rewrite !get_del_other by discriminate.
  unfold rbind.
  match goal with
  | |- match ?m with Ok _ => _ | Raise _ => _ end = _ -> _ => destruct m as [data4|e] eqn:E
  end; [|discriminate].
  intros H. inversion H; subst data'. exists data4. split; [|reflexivity].
  unfold hoist_name, hoist_list.
  destruct (get "metadata" props) as [| | | | |[|entry rest]|]; try (inversion E; auto; fail).
  destruct (fold_entries (entry :: rest) []) as [meta_out|]; [|discriminate].
  destruct (truthy (PDict meta_out)); inversion E; eauto.
Qed.

(** For a process-group whose [properties] is a non-empty record,
    [normalize_process_group_v2_to_v1] takes [listenPorts],
    [softwareTechnologies] and [metadata] out of [properties] whatever they
    are, and leaves the rest of [properties] alone.  At the top level
    [listenPorts] and [softwareTechnologies] become the value taken out when
    that is a non-empty list (replacing a top-level field of that name), and
    stay as they were otherwise, so that a value that is no non-empty list is
    lost; [discoveredName] becomes [properties.detectedName] when that is
    truthy and the top level has no truthy [discoveredName] of its own, which
    is never replaced.  No other top-level field changes, [metadata] apart. *)
Theorem process_group_hoisting (data props data' : pydict) :
  get "properties" data = PDict props -> props <> [] -> object props ->
  normalize_process_group_v2_to_v1 data = Ok data' ->
  (exists props',
     dict_get (PStr "properties") data' = Some (PDict props') /\
     dict_get (PStr "listenPorts") props' = None /\
     dict_get (PStr "softwareTechnologies") props' = None /\
     dict_get (PStr "metadata") props' = None /\
     forall q, q <> "listenPorts" -> q <> "softwareTechnologies" -> q <> "metadata" ->
               dict_get (PStr q) props' = dict_get (PStr q) props) /\
  dict_get (PStr "listenPorts") data' =
    (if nonempty_list (get "listenPorts" props) then Some (get "listenPorts" props)
     else dict_get (PStr "listenPorts") data) /\
  dict_get (PStr "softwareTechnologies") data' =
    (if nonempty_list (get "softwareTechnologies" props)
     then Some (get "softwareTechnologies" props)
     else dict_get (PStr "softwareTechnologies") data) /\
  dict_get (PStr "discoveredName") data' =
    (if truthy (get "discoveredName" data) then dict_get (PStr "discoveredName") data
     else if truthy (get "detectedName" props) then Some (get "detectedName" props)
     else dict_get (PStr "discoveredName") data) /\
  (forall q, q <> "properties" -> q <> "listenPorts" -> q <> "softwareTechnologies" ->
             q <> "discoveredName" -> q <> "metadata" ->
             dict_get (PStr q) data' = dict_get (PStr q) data).
Proof.
  intros Hp Hne O H.
  destruct (normalize_steps data props data' Hp Hne H) as (data4 & D4 & ->).
  cbv zeta in D4.
  set (data2 := hoist_list "softwareTechnologies" props
                  (hoist_list "listenPorts" props data)) in *.
  assert (G : forall q, q <> "properties" -> q <> "metadata" ->
            dict_get (PStr q)
              (dict_set (PStr "properties")
                 (PDict (dict_del (PStr "metadata")
                           (dict_del (PStr "softwareTechnologies")
                              (dict_del (PStr "listenPorts") props)))) data4) =
            dict_get (PStr q) (hoist_name props data2)).
  { intros q Q1 Q2. rewrite dict_get_set_other by exact Q1.
    destruct D4 as [->|(meta_out & ->)]; [reflexivity|].
    rewrite dict_get_set_other by exact Q2. reflexivity. }
  assert (Dn : dict_get (PStr "discoveredName") data2 = dict_get (PStr "discoveredName") data).
  { unfold data2. rewrite !hoist_list_get. reflexivity. }
  split; [|split; [|split; [|split]]].
  - eexists. split; [apply dict_get_set_same|].
    pose proof (object_del (PStr "listenPorts") _ O) as O1.
    pose proof (object_del (PStr "softwareTechnologies") _ O1) as O2.
    split; [|split; [|split]].
    + rewrite !dict_get_del_other by discriminate. apply dict_get_del_same. exact O.
    + rewrite dict_get_del_other by discriminate. apply dict_get_del_same. exact O1.
    + apply dict_get_del_same. exact O2.
    + intros q Q1 Q2 Q3. rewrite !dict_get_del_other by assumption. reflexivity.
  - rewrite G, hoist_name_get_other by discriminate.
    unfold data2. rewrite !hoist_list_get. reflexivity.
  - rewrite G, hoist_name_get_other by discriminate.
    unfold data2. rewrite !hoist_list_get. reflexivity.
  - rewrite G by discriminate. unfold hoist_name, get, get_or. rewrite Dn.
    fold (get_or "discoveredName" PNone data). fold (get "discoveredName" data).
    fold (get_or "detectedName" PNone props). fold (get "detectedName" props).
    destruct (truthy (get "discoveredName" data)), (truthy (get "detectedName" props));
      cbn [andb negb]; rewrite ?dict_get_set_same; auto.
  - intros q Q1 Q2 Q3 Q4 Q5. rewrite G, hoist_name_get_other by assumption.
    unfold data2. rewrite !hoist_list_get.
    destruct (String.eqb q "softwareTechnologies") eqn:E1;
      [apply String.eqb_eq in E1; contradiction|].
    destruct (String.eqb q "listenPorts") eqn:E2;
      [apply String.eqb_eq in E2; contradiction|].
    reflexivity.
Qed.

(** a record whose [properties] is missing, empty or not a record comes
    back as it is *)
Lemma nothing_to_hoist (data : pydict) :
  is_dict (get "properties" data) = false \/ truthy (get "properties" data) = false ->
  normalize_process_group_v2_to_v1 data = Ok data.
Proof.
  unfold normalize_process_group_v2_to_v1, py_or.
  destruct (truthy (get "properties" data)) eqn:T; intros [H|H]; try discriminate.
  - destruct (get "properties" data); try discriminate; reflexivity.
  - reflexivity.
  - reflexivity.
Qed.

(** no other top-level field changes *)
Lemma normalize_keeps (data data' : pydict) q :
  normalize_process_group_v2_to_v1 data = Ok data' ->
  q <> "properties" -> q <> "listenPorts" -> q <> "softwareTechnologies" ->
  q <> "discoveredName" -> q <> "metadata" ->
  dict_get (PStr q) data' = dict_get (PStr q) data.
Proof.
  intros H Q1 Q2 Q3 Q4 Q5.
  destruct (get "properties" data) as [| | | | | |props] eqn:Hp.
  1-6: rewrite nothing_to_hoist in H by (left; rewrite Hp; reflexivity);
       inversion H; reflexivity.
  destruct props as [|kv props].
  { rewrite nothing_to_hoist in H by (right; rewrite Hp; reflexivity).
    inversion H; reflexivity. }
  destruct (normalize_steps data (kv :: props) data' Hp ltac:(discriminate) H)
    as (data4 & D4 & ->).
  rewrite dict_get_set_other by exact Q1.
  assert (E : dict_get (PStr q) data4 =
              dict_get (PStr q)
                (hoist_name (kv :: props)
                   (hoist_list "softwareTechnologies" (kv :: props)
                      (hoist_list "listenPorts" (kv :: props) data)))).
  { destruct D4 as [->|(meta_out & ->)]; [reflexivity|].
    apply dict_get_set_other. exact Q5. }
  rewrite E, hoist_name_get_other, !hoist_list_get by assumption.
  destruct (String.eqb q "softwareTechnologies") eqn:E1;
    [apply String.eqb_eq in E1; contradiction|].
  destruct (String.eqb q "listenPorts") eqn:E2;
    [apply String.eqb_eq in E2; contradiction|].
  reflexivity.
Qed.

(** ** The component of an entity *)

(** the record the component is built from, before the kind is looked at *)
Lemma component_base (cleaned : pydict) q :
  object cleaned ->
  dict_get (PStr q)
    (dict_del (PStr "tags")
       (dict_del (PStr "toRelationships")
          (dict_del (PStr "fromRelationships") (dict_update [] cleaned)))) =
  if existsb (String.eqb q) ["tags"; "toRelationships"; "fromRelationships"]
  then None else dict_get (PStr q) cleaned.
Proof.
  intros O. rewrite (dict_update_copy [] cleaned O). cbn [app existsb].
  pose proof (object_del (PStr "fromRelationships") _ O) as O1.
  pose proof (object_del (PStr "toRelationships") _ O1) as O2.
  destruct (String.eqb q "tags") eqn:E1.
  { apply String.eqb_eq in E1. subst q. apply dict_get_del_same. exact O2. }
  apply String.eqb_neq in E1. rewrite dict_get_del_other by exact E1.
  destruct (String.eqb q "toRelationships") eqn:E2.
  { apply String.eqb_eq in E2. subst q. apply dict_get_del_same. exact O1. }
  apply String.eqb_neq in E2. rewrite dict_get_del_other by exact E2.
  destruct (String.eqb q "fromRelationships") eqn:E3.
  { apply String.eqb_eq in E3. subst q. apply dict_get_del_same. exact O. }
  apply String.eqb_neq in E3. rewrite dict_get_del_other by exact E3. reflexivity.
Qed.

Lemma cleaned_last_seen entity cleaned :
  object entity -> clean_unsupported_metadata (PDict entity) = Ok cleaned ->
  dict_get (PStr "lastSeenTimestamp") cleaned = None.
Proof.
  intros O H. cbn in H. inversion H; subst. unfold drop_last_seen.
  assert (O2 : object (clean_nested (coerce_top_level entity))).
  { unfold clean_nested. pose proof (object_coerce_top_level _ O) as O1.
    destruct (dict_get _ _) as [[]|]; try exact O1. apply object_set. exact O1. }
  destruct (dict_mem _ _) eqn:M; [apply dict_get_del_same; exact O2|].
  unfold dict_mem in M. destruct (dict_get _ _); [discriminate | reflexivity].
Qed.

(** a field of the component that is none of the three written last is
    the field of the record the component is built from *)
Lemma component_get entity component_type p q :
  object entity ->
  process_entity_to_component (PDict entity) component_type = Ok p ->
  q <> "identifiers" -> q <> "tags" -> q <> "component_type" ->
  q <> "fromRelationships" -> q <> "toRelationships" ->
  q <> "properties" -> q <> "lastSeenTimestamp" ->
  (component_type = "process-group" ->
   q <> "listenPorts" /\ q <> "softwareTechnologies" /\
   q <> "discoveredName" /\ q <> "metadata") ->
  dict_get (PStr q) (component p) = option_map coerced (dict_get (PStr q) entity).
Proof.
  intros O H Q1 Q2 Q3 Q4 Q5 Q6 Q7 Q8.
  destruct (process_entity_inv _ _ _ H)
    as (cleaned & tags0 & zones & tags3 & data2 & Hc & _ & _ & _ & Hn & ->).
  cbn [component]. rewrite dict_get_update_set. cbn [rev app dict_get key_eqb].
  apply String.eqb_neq in Q1, Q2, Q3. rewrite Q1, Q2, Q3.
  pose proof (object_cleaned _ _ O Hc) as Oc.
  assert (B : dict_get (PStr q) data2 = dict_get (PStr q) cleaned).
  { destruct (String.eqb component_type "process-group") eqn:E.
    - apply String.eqb_eq in E. destruct (Q8 E) as (A1 & A2 & A3 & A4).
      rewrite (normalize_keeps _ _ q Hn) by assumption.
      rewrite component_base by exact Oc. cbn [existsb].
      apply String.eqb_neq in Q4, Q5. rewrite Q4, Q5.
      rewrite Q2. reflexivity.
    - inversion Hn; subst data2. rewrite component_base by exact Oc. cbn [existsb].
      apply String.eqb_neq in Q4, Q5. rewrite Q4, Q5.
      rewrite Q2. reflexivity. }
  rewrite B. apply (clean_get q entity cleaned Hc); assumption.
Qed.

Lemma component_drops entity component_type p q :
  object entity ->
  process_entity_to_component (PDict entity) component_type = Ok p ->
  In q ["fromRelationships"; "toRelationships"; "lastSeenTimestamp"] ->
  dict_get (PStr q) (component p) = None.
Proof.
  intros O H Hq.
  destruct (process_entity_inv _ _ _ H)
    as (cleaned & tags0 & zones & tags3 & data2 & Hc & _ & _ & _ & Hn & ->).
  pose proof (object_cleaned _ _ O Hc) as Oc.
  pose proof (cleaned_last_seen _ _ O Hc) as Ls.
  cbn [component]. rewrite dict_get_update_set.
  assert (B : dict_get (PStr q) data2 = None).
  { assert (Base : dict_get (PStr q)
                     (dict_del (PStr "tags")
                        (dict_del (PStr "toRelationships")
                           (dict_del (PStr "fromRelationships") (dict_update [] cleaned)))) = None).
    { rewrite component_base by exact Oc.
      destruct Hq as [<-|[<-|[<-|[]]]]; cbn; try reflexivity. exact Ls. }
    destruct (String.eqb component_type "process-group").
    - rewrite (normalize_keeps _ _ q Hn); [exact Base | | | | |];
        destruct Hq as [<-|[<-|[<-|[]]]]; discriminate.
    - inversion Hn; subst data2. exact Base. }
  rewrite B. destruct Hq as [<-|[<-|[<-|[]]]]; reflexivity.
Qed.

(** The component of an accepted entity says who it is in a fixed way,
    whatever fields of these names the entity had: its [identifiers] is the
    one URN [urn:dynatrace:/<entityId>], its [component_type] is the kind it
    was processed as, and the id is the entity's [entityId] ([str] of it
    when it is a number, the empty string when there is none: an entity
    without id is not refused).  The component never has the fields
    [fromRelationships], [toRelationships] and [lastSeenTimestamp]; the two
    relationship maps are handed over beside it. *)
Theorem component_identity (component_type : string) (entity : pydict) (p : processed) :
  object entity ->
  process_entity_to_component (PDict entity) component_type = Ok p ->
  entityId p = coerced (get_or "entityId" (PStr "") entity) /\
  dict_get (PStr "identifiers") (component p) =
    Some (PList [PStr ("urn:dynatrace:/" ++ py_str (entityId p))]) /\
  dict_get (PStr "component_type") (component p) = Some (PStr component_type) /\
  dict_get (PStr "fromRelationships") (component p) = None /\
  dict_get (PStr "toRelationships") (component p) = None /\
  dict_get (PStr "lastSeenTimestamp") (component p) = None /\
  fromRelationships p = coerced (get_or "fromRelationships" (PDict []) entity) /\
  toRelationships p = coerced (get_or "toRelationships" (PDict []) entity).
Proof.
  intros O H.
  pose proof (component_drops entity component_type p "fromRelationships" O H) as D1.
  pose proof (component_drops entity component_type p "toRelationships" O H) as D2.
  pose proof (component_drops entity component_type p "lastSeenTimestamp" O H) as D3.
  destruct (process_entity_inv _ _ _ H)
    as (cleaned & tags0 & zones & tags3 & data2 & Hc & _ & _ & _ & Hn & ->).
  cbn [entityId component fromRelationships toRelationships] in *.
  split; [apply (clean_get_or _ _ _ _ Hc); (discriminate || reflexivity)|].
  split; [rewrite dict_get_update_set; reflexivity|].
  split; [rewrite dict_get_update_set; reflexivity|].
  split; [apply D1; cbn; auto|]. split; [apply D2; cbn; auto|].
  split; [apply D3; cbn; auto|].
  split; apply (clean_get_or _ _ _ _ Hc); (discriminate || reflexivity).
Qed.

(** Every other field of the entity is carried into the component as
    [clean_unsupported_metadata] leaves it: as it is, or as its [str] when
    it is a number or a boolean ([True] and [False], then).  For a
    process-group this holds of the fields that the hoisting does not
    write. *)
Theorem component_carries_fields
    (component_type : string) (entity : pydict) (p : processed) (q : string) :
  object entity ->
  process_entity_to_component (PDict entity) component_type = Ok p ->
  ~ In q ["identifiers"; "tags"; "component_type"; "fromRelationships";
          "toRelationships"; "properties"; "lastSeenTimestamp"] ->
  (component_type = "process-group" ->
   ~ In q ["listenPorts"; "softwareTechnologies"; "discoveredName"; "metadata"]) ->
  dict_get (PStr q) (component p) = option_map coerced (dict_get (PStr q) entity).
Proof.
  intros O H Q1 Q2. cbn [In] in Q1, Q2.
  apply (component_get entity component_type p q O H);
    try (intros ->; tauto).
  intros E. specialize (Q2 E). repeat split; intros ->; tauto.
Qed.

(** ** What cleaning leaves in [properties] *)

Lemma wrap_log_field_get q name p :
  dict_get (PStr q) (wrap_log_field name p) =
  if String.eqb q name
  then match dict_get (PStr name) p with
       | Some (PList l) => Some (PDict [(PStr name, PList l)])
       | Some (PDict d) => Some (PDict d)
       | Some _ => Some PNone
       | None => None
       end
  else dict_get (PStr q) p.
Proof.
  unfold wrap_log_field. destruct (String.eqb q name) eqn:E.
  - apply String.eqb_eq in E. subst q.
    destruct (dict_get (PStr name) p) as [[]|] eqn:G;
      rewrite ?dict_get_set_same; auto.
  - apply String.eqb_neq in E.
    destruct (dict_get (PStr name) p) as [[]|];
      rewrite ?dict_get_set_other by exact E; reflexivity.
Qed.

Lemma clean_custom_metadata_get q p :
  dict_get (PStr q) (clean_custom_metadata p) =
  if String.eqb q "customPgMetadata"
  then match dict_get (PStr "customPgMetadata") p with
       | Some (PList l) => Some (PDict (convert_custom_metadata 0 l []))
       | Some (PDict d) => Some (PDict d)
       | Some _ => Some (PDict [])
       | None => None
       end
  else dict_get (PStr q) p.
Proof.
  unfold clean_custom_metadata. destruct (String.eqb q "customPgMetadata") eqn:E.
  - apply String.eqb_eq in E. subst q.
    destruct (dict_get (PStr "customPgMetadata") p) as [[]|] eqn:G;
      rewrite ?dict_get_set_same; auto.
  - apply String.eqb_neq in E.
    destruct (dict_get (PStr "customPgMetadata") p) as [[]|];
      rewrite ?dict_get_set_other by exact E; reflexivity.
Qed.

Lemma clean_os_services_get q p :
  dict_get (PStr q) (clean_os_services p) =
  if String.eqb q "osServices"
  then match dict_get (PStr "osServices") p with
       | Some (PList l) => Some (PList (convert_services 0 l))
       | o => o
       end
  else dict_get (PStr q) p.
Proof.
  unfold clean_os_services. destruct (String.eqb q "osServices") eqn:E.
  - apply String.eqb_eq in E. subst q.
    destruct (dict_get (PStr "osServices") p) as [[]|] eqn:G;
      rewrite ?dict_get_set_same; auto.
  - apply String.eqb_neq in E.
    destruct (dict_get (PStr "osServices") p) as [[]|];
      rewrite ?dict_get_set_other by exact E; reflexivity.
Qed.

Lemma clean_releases_version_get q p :
  dict_get (PStr q) (clean_releases_version p) =
  if String.eqb q "releasesVersion"
  then match dict_get (PStr "releasesVersion") p with
       | Some (PStr _) => Some (PDict [])
       | o => o
       end
  else dict_get (PStr q) p.
Proof.
  unfold clean_releases_version. destruct (String.eqb q "releasesVersion") eqn:E.
  - apply String.eqb_eq in E. subst q.
    destruct (dict_get (PStr "releasesVersion") p) as [[]|] eqn:G;
      rewrite ?dict_get_set_same; auto.
  - apply String.eqb_neq in E.
    destruct (dict_get (PStr "releasesVersion") p) as [[]|];
      rewrite ?dict_get_set_other by exact E; reflexivity.
Qed.

Lemma clean_properties_get q p :
  dict_get (PStr q) (clean_properties p) =
  if String.eqb q "logSourceState" then
    match dict_get (PStr "logSourceState") p with
    | Some (PList l) => Some (PDict [(PStr "logSourceState", PList l)])
    | Some (PDict d) => Some (PDict d)
    | Some _ => Some PNone
    | None => None
    end
  else if String.eqb q "logFileStatus" then
    match dict_get (PStr "logFileStatus") p with
    | Some (PList l) => Some (PDict [(PStr "logFileStatus", PList l)])
    | Some (PDict d) => Some (PDict d)
    | Some _ => Some PNone
    | None => None
    end
  else if String.eqb q "customPgMetadata" then
    match dict_get (PStr "customPgMetadata") p with
    | Some (PList l) => Some (PDict (convert_custom_metadata 0 l []))
    | Some (PDict d) => Some (PDict d)
    | Some _ => Some (PDict [])
    | None => None
    end
  else if String.eqb q "osServices" then
    match dict_get (PStr "osServices") p with
    | Some (PList l) => Some (PList (convert_services 0 l))
    | o => o
    end
  else if String.eqb q "releasesVersion" then
    match dict_get (PStr "releasesVersion") p with
    | Some (PStr _) => Some (PDict [])
    | o => o
    end
  else dict_get (PStr q) p.
Proof.
  unfold clean_properties.
  rewrite wrap_log_field_get.
  destruct (String.eqb q "logSourceState") eqn:E1.
  { rewrite ?wrap_log_field_get, ?clean_custom_metadata_get, ?clean_os_services_get,
      ?clean_releases_version_get. reflexivity. }
  rewrite wrap_log_field_get.
  destruct (String.eqb q "logFileStatus") eqn:E2.
  { rewrite ?clean_custom_metadata_get, ?clean_os_services_get, ?clean_releases_version_get.
    reflexivity. }
  rewrite clean_custom_metadata_get.
  destruct (String.eqb q "customPgMetadata") eqn:E3.
  { rewrite ?clean_os_services_get, ?clean_releases_version_get. reflexivity. }
  rewrite clean_os_services_get.
  destruct (String.eqb q "osServices") eqn:E4.
  { rewrite ?clean_releases_version_get. reflexivity. }
  apply clean_releases_version_get.
Qed.

Lemma convert_services_nth i l n :
  nth_error (convert_services i l) n = option_map (service_name (i + n)) (nth_error l n).
Proof.
  revert i n. induction l as [|x l IH]; intros i [|n]; cbn [convert_services nth_error option_map];
    try reflexivity.
  - rewrite Nat.add_0_r. reflexivity.
  - rewrite IH. f_equal. f_equal. lia.
Qed.

Lemma convert_services_length i l : List.length (convert_services i l) = List.length l.
Proof. revert i. induction l as [|x l IH]; intros i; cbn; [reflexivity | rewrite IH; reflexivity]. Qed.

(** After [clean_unsupported_metadata] the [properties] record of an entity
    has the fields it had, and five of them have a settled shape:
    [releasesVersion] is never a string (a string became the empty record);
    [customPgMetadata] is a record; [logFileStatus] and [logSourceState] are
    records or [None]; in an [osServices] list, which keeps its length, every
    service that was not a record is a string.  The other fields of
    [properties] are as they were. *)
Theorem cleaned_properties_shape (entity cleaned props : pydict) :
  dict_get (PStr "properties") entity = Some (PDict props) ->
  clean_unsupported_metadata (PDict entity) = Ok cleaned ->
  exists props',
    dict_get (PStr "properties") cleaned = Some (PDict props') /\
    (forall q, dict_mem (PStr q) props' = dict_mem (PStr q) props) /\
    (forall v, dict_get (PStr "releasesVersion") props' = Some v -> is_str v = false) /\
    (forall v, dict_get (PStr "customPgMetadata") props' = Some v -> is_dict v = true) /\
    (forall v, dict_get (PStr "logFileStatus") props' = Some v ->
               is_dict v = true \/ v = PNone) /\
    (forall v, dict_get (PStr "logSourceState") props' = Some v ->
               is_dict v = true \/ v = PNone) /\
    (forall l, dict_get (PStr "osServices") props = Some (PList l) ->
       exists l', dict_get (PStr "osServices") props' = Some (PList l') /\
                  List.length l' = List.length l /\
                  forall n x, nth_error l n = Some x -> is_dict x = false ->
                              nth_error l' n = Some (PStr (py_str x))) /\
    (forall q, ~ In q ["releasesVersion"; "osServices"; "customPgMetadata";
                       "logFileStatus"; "logSourceState"] ->
               dict_get (PStr q) props' = dict_get (PStr q) props).
Proof.
  intros Hp Hc. exists (clean_properties props).
  split; [apply (clean_properties_of entity props cleaned Hp Hc)|].
  split.
  { intros q. unfold dict_mem. rewrite clean_properties_get.
    repeat match goal with
    | |- context [String.eqb q ?s] =>
        let E := fresh "E" in
        destruct (String.eqb q s) eqn:E; [apply String.eqb_eq in E; subst q|]
    end;
    try match goal with
    | |- context [dict_get ?k props] => destruct (dict_get k props) as [[]|]
    end; reflexivity. }
  split.
  { intros v. rewrite clean_properties_get. cbn.
    destruct (dict_get (PStr "releasesVersion") props) as [[]|]; intros H; inversion H; reflexivity. }
  split.
  { intros v. rewrite clean_properties_get. cbn.
    destruct (dict_get (PStr "customPgMetadata") props) as [[]|]; intros H; inversion H; reflexivity. }
  split.
  { intros v. rewrite clean_properties_get. cbn.
    destruct (dict_get (PStr "logFileStatus") props) as [[]|]; intros H; inversion H; auto. }
  split.
  { intros v. rewrite clean_properties_get. cbn.
    destruct (dict_get (PStr "logSourceState") props) as [[]|]; intros H; inversion H; auto. }
  split.
  { intros l Hl. exists (convert_services 0 l). rewrite clean_properties_get. cbn. rewrite Hl.
    split; [reflexivity|]. split; [apply convert_services_length|].
    intros n x Hn Hx. rewrite convert_services_nth, Hn. cbn [option_map].
    destruct x; try discriminate; reflexivity. }
  intros q Hq. cbn [In] in Hq. rewrite clean_properties_get.
  repeat match goal with
  | |- context [String.eqb q ?s] =>
      let E := fresh "E" in
      destruct (String.eqb q s) eqn:E; [apply String.eqb_eq in E; subst q; tauto|]
  end.
  reflexivity.
Qed.

(** ** What cleaning leaves at the top level *)

Lemma coerced_no_number v : is_number (coerced v) = false.
Proof. destruct v; reflexivity. Qed.

Lemma cleaned_properties_other entity cleaned :
  clean_unsupported_metadata (PDict entity) = Ok cleaned ->
  (forall props, dict_get (PStr "properties") entity <> Some (PDict props)) ->
  dict_get (PStr "properties") cleaned =
  option_map coerced (dict_get (PStr "properties") entity).
Proof.
  intros H Hp. cbn in H. inversion H; subst.
  rewrite drop_last_seen_get by discriminate. unfold clean_nested.
  rewrite coerce_top_level_get.
  destruct (dict_get (PStr "properties") entity) as [v|] eqn:G; cbn [option_map].
  - destruct v; cbn [coerced is_number]; try (rewrite coerce_top_level_get, G; reflexivity).
    exfalso. apply (Hp d). reflexivity.
  - rewrite coerce_top_level_get, G. reflexivity.
Qed.


(** ** Which entities are accepted *)

(** [key] can be appended to a string, or is passed over *)
Definition keyed_well (tag : pyval) : bool :=
  match tag with
  | PDict t => negb (truthy (get "key" t)) || is_str (get "key" t)
  | _ => true
  end.

(** the segments of a technology that are there are strings *)
Definition typed_well (tech : pyval) : bool :=
  match tech with
  | PDict t =>
      forallb (fun part => negb (truthy part) || is_str part)
        [get "type" t; get "edition" t; get "version" t]
  | _ => true
  end.

(** the key of a metadata entry can be looked up, or is passed over *)
Definition hashable_key (entry : pyval) : bool :=
  match entry with
  | PDict e => negb (truthy (get "key" e)) || hashable (get "key" e)
  | _ => true
  end.

(** what a [for] loop over [v] goes through *)
Definition items (v : pyval) : list pyval :=
  match py_iter v with Ok l => l | Raise _ => [] end.

Definition is_none (v : pyval) : bool :=
  match v with PNone => true | _ => false end.

Definition hoistable (properties : pyval) : bool :=
  match properties with
  | PDict props =>
      match get "metadata" props with
      | PList l => forallb hashable_key l
      | _ => true
      end
  | _ => true
  end.

Definition accepted (component_type : string) (entity : pydict) : bool :=
  negb (is_none (get_or "tags" (PList []) entity)) &&
  forallb keyed_well (items (get_or "tags" (PList []) entity)) &&
  negb (is_none (get_or "managementZones" (PList []) entity)) &&
  forallb typed_well (items (get_or "softwareTechnologies" (PList []) entity)) &&
  (negb (String.eqb component_type "process-group") ||
   hoistable (get "properties" entity)).

Lemma tag_label_result t :
  if negb (truthy (get "key" t)) || is_str (get "key" t)
  then exists label, tag_label t = Ok label
  else tag_label t = Raise TypeError.
Proof.
  unfold tag_label, rbind.
  destruct (truthy (get "key" t)) eqn:T; cbn [negb orb].
  - destruct (get "key" t); cbn [is_str]; try reflexivity. eexists. reflexivity.
  - eexists. reflexivity.
Qed.

Lemma extract_tags_loop_result l tags :
  if forallb keyed_well l
  then exists out, extract_tags_loop l tags = Ok out
  else extract_tags_loop l tags = Raise TypeError.
Proof.
  revert tags. induction l as [|x l IH]; intros tags; cbn [forallb extract_tags_loop].
  - eexists. reflexivity.
  - destruct x; cbn [keyed_well andb]; try apply IH.
    pose proof (tag_label_result d) as T.
    destruct (negb (truthy (get "key" d)) || is_str (get "key" d)); cbn [andb].
    + destruct T as (label & ->). cbn [rbind]. apply IH.
    + rewrite T. reflexivity.
Qed.

Lemma no_record_in_chars (f : pyval -> bool) s :
  (forall x, is_dict x = false -> f x = true) -> forallb f (chars s) = true.
Proof.
  intros Hf. induction s as [|c s IH]; cbn [chars forallb]; [reflexivity|].
  rewrite Hf by reflexivity. exact IH.
Qed.

(** iterating over a top-level field as cleaning leaves it: only [None]
    cannot be iterated over, a number having become a string *)
Lemma iter_coerced (f : pyval -> bool) v :
  (forall x, is_dict x = false -> f x = true) ->
  if is_none v then py_iter (coerced v) = Raise TypeError
  else exists l, py_iter (coerced v) = Ok l /\ forallb f l = forallb f (items v).
Proof.
  intros Hf. destruct v; cbn [is_none coerced is_number py_iter items]; try reflexivity;
    eexists; (split; [reflexivity|]); cbn [forallb]; try reflexivity;
    apply no_record_in_chars; exact Hf.
Qed.

Lemma as_strings_result l :
  if forallb is_str l then exists ss, as_strings l = Ok ss
  else as_strings l = Raise TypeError.
Proof.
  induction l as [|x l IH]; cbn [forallb as_strings]; [eexists; reflexivity|].
  destruct x; cbn [is_str andb]; try reflexivity.
  destruct (forallb is_str l).
  - destruct IH as (ss & ->). eexists. reflexivity.
  - rewrite IH. reflexivity.
Qed.

Lemma filter_truthy_strings l :
  forallb is_str (filter truthy l) = forallb (fun part => negb (truthy part) || is_str part) l.
Proof.
  induction l as [|x l IH]; cbn [filter forallb]; [reflexivity|].
  destruct (truthy x); cbn [forallb negb orb]; rewrite IH; reflexivity.
Qed.

Lemma tech_loop_result l tags :
  if forallb typed_well l
  then exists out, tech_loop l tags = Ok out
  else tech_loop l tags = Raise TypeError.
Proof.
  revert tags. induction l as [|x l IH]; intros tags; cbn [forallb tech_loop].
  - eexists. reflexivity.
  - destruct x; cbn [typed_well andb]; try apply IH.
    unfold tech_label. rewrite <- filter_truthy_strings.
    pose proof (as_strings_result
                  (filter truthy [get "type" d; get "edition" d; get "version" d])) as A.
    destruct (forallb is_str _); cbn [andb].
    + destruct A as (ss & ->). cbn [rbind]. apply IH.
    + rewrite A. reflexivity.
Qed.

Lemma add_software_techs_result cleaned entity tags :
  get_or "softwareTechnologies" (PList []) cleaned =
    coerced (get_or "softwareTechnologies" (PList []) entity) ->
  if forallb typed_well (items (get_or "softwareTechnologies" (PList []) entity))
  then exists out, add_software_techs cleaned tags = Ok out
  else add_software_techs cleaned tags = Raise TypeError.
Proof.
  intros E. unfold add_software_techs. rewrite E.
  set (v := get_or "softwareTechnologies" (PList []) entity).
  assert (Hf : forall x, is_dict x = false -> typed_well x = true)
    by (intros x; destruct x; try discriminate; reflexivity).
  pose proof (iter_coerced typed_well v Hf) as I.
  destruct (truthy (coerced v)) eqn:T.
  - destruct (is_none v) eqn:N; [destruct v; discriminate|].
    destruct I as (l & -> & <-). cbn [rbind]. apply tech_loop_result.
  - assert (Z : items v = []).
    { destruct v as [| | | |s|[|? ?]|[|? ?]]; try reflexivity; try discriminate.
      cbn in T. destruct s; [reflexivity | discriminate]. }
    rewrite Z. cbn [forallb]. eexists. reflexivity.
Qed.

Lemma fold_entry_result meta_out entry :
  if hashable_key entry
  then exists out, fold_entry meta_out entry = Ok out
  else fold_entry meta_out entry = Raise TypeError.
Proof.
  destruct entry; cbn [hashable_key fold_entry]; try (eexists; reflexivity).
  unfold target_key_of.
  destruct (truthy (get "key" d)); cbn [negb orb]; [|eexists; reflexivity].
  destruct (hashable (get "key" d)); cbn [rbind]; [eexists|]; reflexivity.
Qed.

Lemma fold_entries_result l meta_out :
  if forallb hashable_key l
  then exists out, fold_entries l meta_out = Ok out
  else fold_entries l meta_out = Raise TypeError.
Proof.
  revert meta_out. induction l as [|x l IH]; intros meta_out; cbn [forallb fold_entries].
  - eexists. reflexivity.
  - pose proof (fold_entry_result meta_out x) as F.
    destruct (hashable_key x); cbn [andb].
    + destruct F as (out & ->). cbn [rbind]. apply IH.
    + rewrite F. reflexivity.
Qed.

Lemma normalize_result (data : pydict) :
  if hoistable (get "properties" data)
  then exists data', normalize_process_group_v2_to_v1 data = Ok data'
  else normalize_process_group_v2_to_v1 data = Raise TypeError.
Proof.
  destruct (get "properties" data) as [| | | | | |props] eqn:Hp; cbn [hoistable].
  1-6: exists data; apply nothing_to_hoist; left; rewrite Hp; reflexivity.
  destruct props as [|kv props].
  { exists data. apply nothing_to_hoist. right. rewrite Hp. reflexivity. }
  unfold normalize_process_group_v2_to_v1. rewrite Hp. unfold py_or.
  cbn [truthy]. cbv zeta. rewrite !get_del_other by discriminate.
  destruct (get "metadata" (kv :: props)) as [| | | | |[|entry rest]|];
    try (eexists; reflexivity).
  pose proof (fold_entries_result (entry :: rest) []) as F.
  destruct (forallb hashable_key (entry :: rest)).
  - destruct F as (out & ->). cbn [rbind]. eexists. reflexivity.
  - rewrite F. reflexivity.
Qed.

(** the [properties] the hoisting finds: those of the entity, cleaned *)
Lemma hoistable_cleaned entity cleaned :
  object entity ->
  clean_unsupported_metadata (PDict entity) = Ok cleaned ->
  hoistable
    (get "properties"
       (dict_del (PStr "tags")
          (dict_del (PStr "toRelationships")
             (dict_del (PStr "fromRelationships") (dict_update [] cleaned))))) =
  hoistable (get "properties" entity).
Proof.
  intros O Hc. pose proof (object_cleaned _ _ O Hc) as Oc.
  unfold get, get_or. rewrite component_base by exact Oc.
  cbn [existsb String.eqb Ascii.eqb Bool.eqb orb].
  destruct (dict_get (PStr "properties") entity) as [v|] eqn:G.
  - destruct v; try (rewrite (cleaned_properties_other _ _ Hc), G;
                     [reflexivity | intros props; congruence]).
    rewrite (clean_properties_of _ _ _ G Hc). cbn [hoistable].
    unfold get, get_or. rewrite clean_properties_get. reflexivity.
  - rewrite (cleaned_properties_other _ _ Hc), G; [reflexivity | intros props; congruence].
Qed.


(** ** The kind read off the file name *)

Lemma prefix_app_l a b s : String.prefix (a ++ b) s = true -> String.prefix a s = true.
Proof.
  revert s. induction a as [|c a IH]; intros s; cbn [String.append String.prefix].
  - destruct s; reflexivity.
  - destruct s as [|c' s]; cbn [String.prefix]; [discriminate|].
    destruct (ascii_dec c c'); [apply IH | discriminate].
Qed.

Lemma contains_prefix needle s : String.prefix needle s = true -> contains needle s = true.
Proof. intros H. destruct s; cbn [contains]; rewrite H; reflexivity. Qed.

Lemma contains_tail needle c s : contains needle s = true -> contains needle (String c s) = true.
Proof. intros H. cbn [contains]. rewrite H. apply orb_true_r. Qed.

Lemma prefix_app_r a b s : String.prefix (a ++ b) s = true -> contains b s = true.
Proof.
  revert s. induction a as [|c a IH]; intros s; cbn [String.append].
  - apply contains_prefix.
  - destruct s as [|c' s]; cbn [String.prefix]; [discriminate|].
    destruct (ascii_dec c c'); [|discriminate].
    intros H. apply contains_tail. apply IH. exact H.
Qed.

Lemma contains_app a b s :
  contains (a ++ b) s = true -> contains a s = true /\ contains b s = true.
Proof.
  induction s as [|c s IH]; cbn [contains].
  - rewrite orb_false_r. intros H. split.
    + rewrite (prefix_app_l _ _ _ H). reflexivity.
    + apply prefix_app_r in H. cbn [contains] in H. exact H.
  - intros H. apply orb_true_iff in H as [H|H].
    + split.
      * rewrite (prefix_app_l _ _ _ H). reflexivity.
      * apply prefix_app_r in H. exact H.
    + destruct (IH H) as [A B]. rewrite A, B, !orb_true_r. split; reflexivity.
Qed.

(** The kind detected from a file name is [process-group] exactly when the
    lower-cased name contains [process-group], [process] exactly when it
    contains [process] and nowhere [group], and [entity] otherwise: so a
    name with [process] and [group] apart, like [process_group.json], gives
    [entity]. *)
Theorem detected_kind (name : string) :
  (detect_component_type name = "process-group" <->
   contains "process-group" (lower name) = true) /\
  (detect_component_type name = "process" <->
   contains "process" (lower name) = true /\ contains "group" (lower name) = false) /\
  (detect_component_type name = "entity" <->
   contains "process-group" (lower name) = false /\
   (contains "process" (lower name) = false \/ contains "group" (lower name) = true)) /\
  detect_component_type "process_group.json" = "entity".
Proof.
  unfold detect_component_type. cbv zeta.
  pose proof (contains_app "process-" "group" (lower name)) as A.
  pose proof (contains_app "process" "-group" (lower name)) as B.
  change ("process-" ++ "group") with "process-group" in A.
  change ("process" ++ "-group") with "process-group" in B.
  destruct (contains "process-group" (lower name)) eqn:PG.
  - destruct (A eq_refl) as [_ G]. destruct (B eq_refl) as [P _]. rewrite P, G.
    cbn [andb negb].
    split; [split; reflexivity|]. split; [split; [discriminate | intros [_ H]; discriminate]|].
    split; [split; [discriminate | intros [H _]; discriminate] | reflexivity].
  - destruct (contains "process" (lower name)), (contains "group" (lower name));
      cbn [andb negb].
    + split; [split; discriminate|].
      split; [split; [discriminate | intros [_ H]; discriminate]|].
      split; [split; auto | reflexivity].
    + split; [split; discriminate|].
      split; [split; auto|].
      split; [split; [discriminate | intros [_ [H|H]]; discriminate] | reflexivity].
    + split; [split; discriminate|].
      split; [split; [discriminate | intros [H _]; discriminate]|].
      split; [split; auto | reflexivity].
    + split; [split; discriminate|].
      split; [split; [discriminate | intros [H _]; discriminate]|].
      split; [split; auto | reflexivity].
Qed.

End WithRepr.

#[local] Existing Instance fixed_repr.

(** ** The theorems at work *)

Ltac is_object :=
  split;
  [ repeat (constructor; [cbn; intuition discriminate|]); constructor
  | repeat constructor ].

(** a process group as the entities API gives it *)
Definition web_properties : pydict :=
  [ (PStr "listenPorts", PList [PInt 80; PInt 443]);
    (PStr "softwareTechnologies", PStr "none");
    (PStr "detectedName", PStr "nginx");
    (PStr "releasesVersion", PStr "1.2");
    (PStr "logFileStatus", PList []);
    (PStr "osServices", PList [PInt 4; PStr "sshd"]);
    (PStr "bitness", PStr "64") ].

Definition web_group : pydict :=
  [ (PStr "entityId", PStr "PG-1");
    (PStr "displayName", PStr "web");
    (PStr "cpu", PInt 3);
    (PStr "isMonitored", PBool true);
    (PStr "lastSeenTimestamp", PInt 5);
    (PStr "component_type", PStr "host");
    (PStr "fromRelationships", PDict [(PStr "runsOn", PList [PStr "H1"])]);
    (PStr "properties", PDict web_properties) ].

(** an entity whose [tags] is [None] *)
Definition untagged : pydict :=
  [ (PStr "entityId", PStr "P-2"); (PStr "tags", PNone) ].

Lemma web_group_object : object web_group.
Proof. is_object. Defined.

Lemma entity_that_is_no_record_aborts_witness :
  process_topology "in.json" "in.json"
    (PList [PDict web_group; PStr "P-3"; PDict untagged]) None 0
  = Raise AttributeError.
Proof.
  apply (entity_that_is_no_record_aborts "in.json" "in.json" _ None 0
           [PDict web_group; PStr "P-3"; PDict untagged] (PStr "P-3")).
  - reflexivity.
  - cbn. auto.
  - reflexivity.
Defined.


Lemma run_counts_witness :
  exists t w,
    process_topology "in.json" "process-group.json"
      (PDict [(PStr "entities", PList [PDict web_group; PDict untagged])]) None 0
    = Ok (t, w) /\
    component_count (t_metadata t) = 1%nat /\ List.length w = 1%nat /\
    (List.length (t_components t) <= 2)%nat.
Proof.
  assert (E : exists t w,
            process_topology "in.json" "process-group.json"
              (PDict [(PStr "entities", PList [PDict web_group; PDict untagged])]) None 0
            = Ok (t, w) /\
            component_count (t_metadata t) = 1%nat /\ List.length w = 1%nat).
  { eexists. eexists. split; [vm_compute; reflexivity|]. split; vm_compute; reflexivity. }
  destruct E as (t & w & E & C & L). exists t, w.
  split; [exact E|]. split; [exact C|]. split; [exact L|].
  exact (proj1 (proj2 (proj2 (proj2
    (run_counts "in.json" "process-group.json"
       (PDict [(PStr "entities", PList [PDict web_group; PDict untagged])]) None 0
       [PDict web_group; PDict untagged] t w eq_refl E))))).
Defined.

Lemma process_group_hoisting_witness :
  exists data',
    normalize_process_group_v2_to_v1
      [ (PStr "entityId", PStr "PG-1"); (PStr "discoveredName", PStr "web");
        (PStr "properties", PDict web_properties) ] = Ok data' /\
    dict_get (PStr "listenPorts") data' = Some (PList [PInt 80; PInt 443]) /\
    dict_get (PStr "softwareTechnologies") data' = None /\
    dict_get (PStr "discoveredName") data' = Some (PStr "web").
Proof.
  eexists. split; [reflexivity|].
  assert (O : object web_properties) by is_object.
  destruct (process_group_hoisting
              [ (PStr "entityId", PStr "PG-1"); (PStr "discoveredName", PStr "web");
                (PStr "properties", PDict web_properties) ]
              web_properties _ eq_refl ltac:(discriminate) O eq_refl)
    as (_ & L & S & D & _).
  split; [exact L|]. split; [exact S | exact D].
Defined.

Lemma component_identity_witness :
  exists p,
    process_entity_to_component (PDict web_group) "process-group" = Ok p /\
    entityId p = PStr "PG-1" /\
    dict_get (PStr "identifiers") (component p) =
      Some (PList [PStr "urn:dynatrace:/PG-1"]) /\
    dict_get (PStr "component_type") (component p) = Some (PStr "process-group") /\
    dict_get (PStr "fromRelationships") (component p) = None /\
    dict_get (PStr "lastSeenTimestamp") (component p) = None.
Proof.
  eexists. split; [vm_compute; reflexivity|].
  destruct (component_identity "process-group" web_group _ web_group_object eq_refl)
    as (A & B & C & D & _ & F & _).
  split; [exact A|]. split; [exact B|]. split; [exact C|]. split; [exact D | exact F].
Defined.

Lemma component_carries_fields_witness :
  exists p,
    process_entity_to_component (PDict web_group) "process-group" = Ok p /\
    dict_get (PStr "isMonitored") (component p) = Some (PStr "True") /\
    dict_get (PStr "cpu") (component p) = Some (PStr "3").
Proof.
  eexists. split; [vm_compute; reflexivity|].
  split.
  - apply (component_carries_fields "process-group" web_group _ "isMonitored"
             web_group_object eq_refl); cbn; intuition discriminate.
  - apply (component_carries_fields "process-group" web_group _ "cpu"
             web_group_object eq_refl); cbn; intuition discriminate.
Defined.

Lemma cleaned_properties_shape_witness :
  exists cleaned props',
    clean_unsupported_metadata (PDict web_group) = Ok cleaned /\
    dict_get (PStr "properties") cleaned = Some (PDict props') /\
    dict_get (PStr "bitness") props' = Some (PStr "64") /\
    forall v, dict_get (PStr "releasesVersion") props' = Some v -> is_str v = false.
Proof.
  eexists.
  destruct (cleaned_properties_shape web_group _ web_properties eq_refl eq_refl)
    as (props' & P & _ & Rv & _ & _ & _ & _ & Other).
  exists props'. split; [reflexivity|]. split; [exact P|]. split; [|exact Rv].
  rewrite (Other "bitness"); [reflexivity|]. cbn. intuition discriminate.
Defined.



End TopologyMore.
